(** * warelay: the auto-reply core of [src/index.ts]

    A shallow embedding of the template engine, the session handling and
    reply resolution of [getReplyFromConfig], the command runner, the
    webhook update fallback chain and the Twilio poll loop, together with
    the properties the specification states about them. *)

From Stdlib Require Import ZArith Ascii String List Lia Bool Sorted.
From stdpp Require Import gmap strings.

Local Open Scope string_scope.
Local Open Scope Z_scope.

(** ** JavaScript strings

    A string is a sequence of code units; the model covers code units
    below 256, one [ascii] each. *)
Module JsString.

(** White space as [\s], [trim] and [trimStart] see it (restricted to
    code units below 256): TAB, LF, VT, FF, CR, SPACE and NBSP. *)
Definition is_space (c : ascii) : bool :=
  let n := nat_of_ascii c in
  ((9 <=? n)%nat && (n <=? 13)%nat) || (n =? 32)%nat || (n =? 160)%nat.

(** A word character as [\w] sees it: [A-Za-z0-9_]. *)
Definition is_word (c : ascii) : bool :=
  let n := nat_of_ascii c in
  ((48 <=? n)%nat && (n <=? 57)%nat) || ((65 <=? n)%nat && (n <=? 90)%nat)
  || ((97 <=? n)%nat && (n <=? 122)%nat) || (n =? 95)%nat.

Fixpoint all_chars (p : ascii -> bool) (s : string) : bool :=
  match s with
  | EmptyString => true
  | String c s' => p c && all_chars p s'
  end.

(** [s.trimStart()] *)
Fixpoint trimStart (s : string) : string :=
  match s with
  | EmptyString => EmptyString
  | String c s' => if is_space c then trimStart s' else s
  end.

(** [s.trimEnd()] *)
Fixpoint trimEnd (s : string) : string :=
  match s with
  | EmptyString => EmptyString
  | String c s' =>
      match trimEnd s' with
      | EmptyString => if is_space c then EmptyString else String c EmptyString
      | t => String c t
      end
  end.

(** [s.trim()] *)
Definition trim (s : string) : string := trimEnd (trimStart s).

(** [s.startsWith(p)] *)
Fixpoint startsWith (p s : string) : bool :=
  match p, s with
  | EmptyString, _ => true
  | String a p', String b s' => if Ascii.eqb a b then startsWith p' s' else false
  | String _ _, EmptyString => false
  end.

(** [s.slice(n)] for [0 <= n] *)
Fixpoint slice (n : nat) (s : string) : string :=
  match n, s with
  | O, _ => s
  | S n', String _ s' => slice n' s'
  | S _, EmptyString => EmptyString
  end.

(** Truthiness of a string: non-empty. *)
Definition truthy (s : string) : bool :=
  match s with EmptyString => false | String _ _ => true end.

(** The longest prefix of [s] made of characters satisfying [p], and
    the rest: what a greedy [p*] consumes. *)
Fixpoint span (p : ascii -> bool) (s : string) : string * string :=
  match s with
  | EmptyString => (EmptyString, EmptyString)
  | String c s' =>
      if p c then let '(a, b) := span p s' in (String c a, b)
      else (EmptyString, s)
  end.

End JsString.

(** ** Template engine *)

(** Values a property read on a context can give: what the context
    holds, and what it inherits, the built-in functions of
    [Object.prototype] and [Object.prototype] itself. *)
Inductive JsValue : Type :=
| JsUndefined
| JsNull
| JsBool (b : bool)
| JsStr (s : string)
| JsNative (name : string)
| JsObjectPrototype.

(** [String(value)]; a built-in function and a plain object as Node
    prints them. *)
Definition js_String (v : JsValue) : string :=
  match v with
  | JsUndefined => "undefined"
  | JsNull => "null"
  | JsBool true => "true"
  | JsBool false => "false"
  | JsStr s => s
  | JsNative name => "function " +:+ name +:+ "() { [native code] }"
  | JsObjectPrototype => "[object Object]"
  end.

(** The own properties of a context object. *)
Abbreviation TemplateContext := (gmap string JsValue).

(** The methods of [Object.prototype] that are functions named as their
    key. *)
Definition Object_prototype_methods : list string :=
  ["toString"; "toLocaleString"; "valueOf"; "hasOwnProperty"; "isPrototypeOf";
   "propertyIsEnumerable"; "__defineGetter__"; "__defineSetter__";
   "__lookupGetter__"; "__lookupSetter__"].

(** What a context inherits.  Every context of the program is an object
    literal, so its prototype is [Object.prototype]: [constructor] is
    [Object], [__proto__] reads as the prototype itself. *)
Definition Object_prototype (key : string) : option JsValue :=
  if String.eqb key "constructor" then Some (JsNative "Object")
  else if String.eqb key "__proto__" then Some JsObjectPrototype
  else if existsb (String.eqb key) Object_prototype_methods then Some (JsNative key)
  else None.

(** [(ctx as Record<string, unknown>)[key]]: an own property, or else
    an inherited one; a property that is neither reads as [undefined]. *)
Definition ctx_get (ctx : TemplateContext) (key : string) : JsValue :=
  match ctx !! key with
  | Some v => v
  | None => default JsUndefined (Object_prototype key)
  end.

(** One match of [/{{\s*(\w+)\s*}}/] anchored at the start of [s]: the
    captured key and the text after the match.  [\s], [\w] and the closing
    brace are pairwise disjoint, so the greedy choice for each star is the
    only one that can lead to a match and no backtracking is involved. *)
Definition match_placeholder (s : string) : option (string * string) :=
  match s with
  | String "{" (String "{" s1) =>
      let '(_, s2) := JsString.span JsString.is_space s1 in
      let '(key, s3) := JsString.span JsString.is_word s2 in
      match key with
      | EmptyString => None
      | String _ _ =>
          match JsString.span JsString.is_space s3 with
          | (_, String "}" (String "}" rest)) => Some (key, rest)
          | _ => None
          end
      end
  | _ => None
  end.

(** [str.replace(re, fn)] with the global flag: matches are looked for
    from left to right, a match is replaced by [fn key] and the scan goes
    on after the match; a position where the pattern does not match keeps
    its character.  [fuel] bounds the number of steps; [String.length str]
    is always enough, each step consuming at least one character. *)
Fixpoint replace_placeholders (fuel : nat) (fn : string -> string) (s : string) : string :=
  match fuel with
  | O => s
  | S fuel' =>
      match s with
      | EmptyString => EmptyString
      | String c rest =>
          match match_placeholder s with
          | Some (key, after) => fn key +:+ replace_placeholders fuel' fn after
          | None => String c (replace_placeholders fuel' fn rest)
          end
      end
  end.

(** The replacement callback of [applyTemplate]. *)
Definition render_key (ctx : TemplateContext) (key : string) : string :=
  match ctx_get ctx key with
  | JsUndefined | JsNull => ""
  | v => js_String v
  end.

Definition applyTemplate (str : string) (ctx : TemplateContext) : string :=
  replace_placeholders (String.length str) (render_key ctx) str.

(** The template engine in the words of its contract: a placeholder is a
    name enclosed in double braces with optional white space around the
    name; rendering replaces every placeholder, from left to right, by the
    text of the context value and copies every other character. *)
Module TemplateSpec.

Definition blank (s : string) : Prop := JsString.all_chars JsString.is_space s = true.

Definition name (s : string) : Prop :=
  s <> "" /\ JsString.all_chars JsString.is_word s = true.

Definition placeholder (ws1 key ws2 : string) : string :=
  "{{" +:+ ws1 +:+ key +:+ ws2 +:+ "}}".

(** [s] begins with a placeholder. *)
Definition at_placeholder (s : string) : Prop :=
  exists ws1 key ws2 tail,
    blank ws1 /\ name key /\ blank ws2 /\ s = placeholder ws1 key ws2 +:+ tail.

(** Rendering, [text] giving the text a name stands for. *)
Inductive rendered_by (text : string -> string) : string -> string -> Prop :=
| rendered_end : rendered_by text "" ""
| rendered_placeholder ws1 key ws2 tail out :
    blank ws1 -> name key -> blank ws2 ->
    rendered_by text tail out ->
    rendered_by text (placeholder ws1 key ws2 +:+ tail) (text key +:+ out)
| rendered_literal c tail out :
    ~ at_placeholder (String c tail) ->
    rendered_by text tail out ->
    rendered_by text (String c tail) (String c out).

(** The string form of the matching value; unknown and null-valued keys
    are the empty string. *)
Definition value_text (ctx : TemplateContext) (key : string) : string :=
  match ctx !! key with
  | None | Some JsNull | Some JsUndefined => ""
  | Some v => js_String v
  end.

(** The contract as the specification words it. *)
Definition rendered (ctx : TemplateContext) : string -> string -> Prop :=
  rendered_by (value_text ctx).

(** The string form of the value the name reads as a property of the
    context, own or inherited from [Object.prototype]; names that are
    neither, and null and undefined values, are the empty string. *)
Definition property_text (ctx : TemplateContext) (key : string) : string :=
  match ctx !! key with
  | Some JsNull | Some JsUndefined => ""
  | Some v => js_String v
  | None =>
      match Object_prototype key with
      | Some inherited => js_String inherited
      | None => ""
      end
  end.

(** The contract with the value read as a property of the context. *)
Definition rendered_as_property (ctx : TemplateContext) : string -> string -> Prop :=
  rendered_by (property_text ctx).

End TemplateSpec.

(** ** Configuration and message context *)

Inductive ReplyMode : Type := ModeText | ModeCommand.

Inductive SessionScope : Type := PerSender | GlobalScope.

Record SessionConfig : Type := {
  scope : option SessionScope;
  resetTriggers : option (list string);
  idleMinutes : option Z;
  store : option string;
  sessionArgNew : option (list string);
  sessionArgResume : option (list string);
  sessionArgBeforeBody : option bool;
}.

(** The fields have the types [WarelayConfig] declares for them;
    [loadConfig] casts the parsed file to that type without validating
    it, and a file whose values have other types is outside the model. *)
Record ReplyConfig : Type := {
  mode : ReplyMode;
  text : option string;
  command : option (list string);
  template : option string;
  timeoutSeconds : option Z;
  bodyPrefix : option string;
  session : option SessionConfig;
}.

Record InboundConfig : Type := {
  allowFrom : option (list string);
  reply : option ReplyConfig;
}.

Record WarelayConfig : Type := {
  inbound : option InboundConfig;
}.

Record MsgContext : Type := {
  Body : option string;
  From : option string;
  To : option string;
  MessageSid : option string;
}.

Record SessionEntry : Type := {
  sessionId : string;
  updatedAt : Z;
}.

(** The parsed session store, [Record<string, SessionEntry>]. *)
Abbreviation SessionStore := (gmap string SessionEntry).

(** What [runCommandWithTimeout] resolves to. *)
Record SpawnResult : Type := {
  stdout : string;
  stderr : string;
  code : option Z;
  signal : option string;
  killed : bool;
}.

(** ** The world the resolver runs in

    Files, the clock, the UUID source, and a trace of the calls made to
    the outside: file reads and writes, console output, the
    [onReplyStart] callback and the command runner. *)

Inductive FileContent : Type :=
| Unparsable                      (* JSON5.parse throws, or not an object *)
| StoreFile (s : SessionStore).

Inductive LogLine : Type :=
| LogSkipNotAllowed (sender : string)
| LogNoReplyConfigured
| LogUsingText
| LogRunning (argv : list string)
| LogStderr (s : string)
| LogStdout (trimmed : string)
| LogFinished
| LogExitCode (code : option Z) (signal : option string)
| LogKilled (code : option Z)
| LogTimedOut (limit : Z)
| LogFailed.

Inductive Effect : Type :=
| FsRead (path : string)
| FsWrite (path : string) (s : SessionStore)
| Verbose (l : LogLine)             (* logVerbose *)
| ConsoleError (l : LogLine)        (* console.error *)
| ReplyStart                        (* opts.onReplyStart is called *)
| RunCommand (argv : list string) (timeoutMs : Z).

(** What the parent process observes of a spawned child, in order: data on
    the pipes, the timeout callback running [child.kill("SIGKILL")]
    ([delivered] is what [kill] returns, which [child.killed] records),
    and the [error] and [close] events. *)
Inductive ChildEvent : Type :=
| StdoutData (d : string)
| StderrData (d : string)
| TimerFired (delivered : bool)
| ChildError
| ChildClose (code : option Z) (signal : option string).

Record World : Type := {
  files : gmap string FileContent;
  writable : string -> bool;        (* mkdir and writeFile succeed *)
  clock : nat -> Z;                 (* successive readings of Date.now() *)
  clock_reads : nat;
  uuids : nat -> string;            (* successive crypto.randomUUID() *)
  uuid_draws : nat;
  children : list string -> Z -> list ChildEvent;  (* spawn(argv), timer of timeoutMs *)
  trace : list Effect;              (* latest last *)
}.

Definition set_files (f : gmap string FileContent) (w : World) : World :=
  {| files := f; writable := writable w; clock := clock w;
     clock_reads := clock_reads w; uuids := uuids w; uuid_draws := uuid_draws w;
     children := children w; trace := trace w |}.

Definition set_trace (t : list Effect) (w : World) : World :=
  {| files := files w; writable := writable w; clock := clock w;
     clock_reads := clock_reads w; uuids := uuids w; uuid_draws := uuid_draws w;
     children := children w; trace := t |}.

Definition tick_clock (w : World) : World :=
  {| files := files w; writable := writable w; clock := clock w;
     clock_reads := S (clock_reads w); uuids := uuids w; uuid_draws := uuid_draws w;
     children := children w; trace := trace w |}.

Definition draw_uuid (w : World) : World :=
  {| files := files w; writable := writable w; clock := clock w;
     clock_reads := clock_reads w; uuids := uuids w; uuid_draws := S (uuid_draws w);
     children := children w; trace := trace w |}.

(** What a rejected promise or a [throw] carries, as far as the [catch]
    of the resolver looks at it. *)
Record JsError : Type := {
  err_killed : option bool;
  err_signal : option string;
  err_stderr : option string;
}.

Inductive Outcome (A : Type) : Type :=
| Returned (a : A)
| Thrown (e : JsError)
| Pending.                          (* the awaited promise never settles *)
Arguments Returned {A} a.
Arguments Thrown {A} e.
Arguments Pending {A}.

(** Computations that read and change the world and may throw. *)
Definition M (A : Type) : Type := World -> Outcome A * World.

Definition ret {A} (a : A) : M A := fun w => (Returned a, w).

Definition bind {A B} (m : M A) (k : A -> M B) : M B :=
  fun w =>
    match m w with
    | (Returned a, w') => k a w'
    | (Thrown e, w') => (Thrown e, w')
    | (Pending, w') => (Pending, w')
    end.

(** [try { body } catch (err) { handler }] *)
Definition try_catch {A} (body : M A) (handler : JsError -> M A) : M A :=
  fun w =>
    match body w with
    | (Thrown e, w') => handler e w'
    | r => r
    end.

Declare Scope io_scope.
Delimit Scope io_scope with io.
Notation "x <- m ;; k" := (bind m (fun x => k))
  (at level 100, m at next level, right associativity) : io_scope.
Notation "m ;;; k" := (bind m (fun _ => k))
  (at level 100, right associativity) : io_scope.

Definition emit (e : Effect) : M unit :=
  fun w => (Returned tt, set_trace (trace w ++ [e]) w).

Definition logVerbose (l : LogLine) : M unit := emit (Verbose l).
Definition console_error (l : LogLine) : M unit := emit (ConsoleError l).

(** [Date.now()] *)
Definition Date_now : M Z :=
  fun w => (Returned (clock w (clock_reads w)), tick_clock w).

(** [crypto.randomUUID()] *)
Definition randomUUID : M string :=
  fun w => (Returned (uuids w (uuid_draws w)), draw_uuid w).

Definition plain_error : JsError :=
  {| err_killed := None; err_signal := None; err_stderr := None |}.

(** ** Command runner *)

(** The promise of [runCommandWithTimeout] and the variables its event
    handlers close over. *)
Record RunnerState : Type := {
  r_stdout : string;
  r_stderr : string;
  r_settled : bool;
  r_timer : bool;                   (* the timeout is still set *)
  r_killed : bool;                  (* child.killed *)
  r_promise : Outcome SpawnResult;
}.

Definition runner_init : RunnerState :=
  {| r_stdout := ""; r_stderr := ""; r_settled := false; r_timer := true;
     r_killed := false; r_promise := Pending |}.

(** One event handler runs. *)
Definition runner_handle (st : RunnerState) (ev : ChildEvent) : RunnerState :=
  match ev with
  | StdoutData d =>
      {| r_stdout := r_stdout st +:+ d; r_stderr := r_stderr st;
         r_settled := r_settled st; r_timer := r_timer st;
         r_killed := r_killed st; r_promise := r_promise st |}
  | StderrData d =>
      {| r_stdout := r_stdout st; r_stderr := r_stderr st +:+ d;
         r_settled := r_settled st; r_timer := r_timer st;
         r_killed := r_killed st; r_promise := r_promise st |}
  | TimerFired delivered =>
      if r_timer st then
        {| r_stdout := r_stdout st; r_stderr := r_stderr st;
           r_settled := r_settled st; r_timer := false;
           r_killed := r_killed st || delivered; r_promise := r_promise st |}
      else st
  | ChildError =>
      if r_settled st then st
      else
        {| r_stdout := r_stdout st; r_stderr := r_stderr st;
           r_settled := true; r_timer := false;
           r_killed := r_killed st; r_promise := Thrown plain_error |}
  | ChildClose code signal =>
      if r_settled st then st
      else
        {| r_stdout := r_stdout st; r_stderr := r_stderr st;
           r_settled := true; r_timer := false;
           r_killed := r_killed st;
           r_promise := Returned {| stdout := r_stdout st; stderr := r_stderr st;
                                    code := code; signal := signal;
                                    killed := r_killed st |} |}
  end.

(** [runCommandWithTimeout(argv, timeoutMs)]: the child is spawned, the
    handlers run on what it does, and the promise is what they leave. *)
Definition runCommandWithTimeout (argv : list string) (timeoutMs : Z) : M SpawnResult :=
  fun w => (r_promise (fold_left runner_handle (children w argv timeoutMs) runner_init), w).

(** ** Session store *)

(** Helpers of [utils.ts] and of Node that the resolver calls and whose
    code is not part of [index.ts]. *)
Class Helpers : Type := {
  normalizeE164 : string -> string;
  path_resolve : string -> string;
  os_homedir : string;
  SESSION_STORE_DEFAULT : string;
}.

Definition DEFAULT_RESET_TRIGGER : string := "/new".
Definition DEFAULT_IDLE_MINUTES : Z := 60.

Section Resolver.
Context `{Helpers}.
Local Open Scope io_scope.

Definition resolveStorePath (store : option string) : string :=
  match store with
  | None | Some EmptyString => SESSION_STORE_DEFAULT
  | Some (String "~" tail) => path_resolve (os_homedir +:+ tail)
  | Some s => path_resolve s
  end.

(** A missing or unparsable store file reads as the empty store. *)
Definition loadSessionStore (storePath : string) : M SessionStore :=
  emit (FsRead storePath) ;;;
  fun w =>
    (Returned match files w !! storePath with
              | Some (StoreFile s) => s
              | Some Unparsable | None => ∅
              end, w).

Definition saveSessionStore (storePath : string) (store : SessionStore) : M unit :=
  fun w =>
    if writable w storePath then
      (Returned tt,
       set_trace (trace w ++ [FsWrite storePath store])
         (set_files (<[storePath := StoreFile store]> (files w)) w))
    else (Thrown plain_error, w).

Definition deriveSessionKey (scope : SessionScope) (ctx : MsgContext) : string :=
  match scope with
  | GlobalScope => "global"
  | PerSender =>
      let from :=
        match From ctx with
        | Some f => if JsString.truthy f then normalizeE164 f else ""
        | None => ""
        end in
      if JsString.truthy from then from else "unknown"
  end.

(** The [for (const trigger of resetTriggers)] loop: the values of
    [isNewSession] and [bodyStripped] it leaves. *)
Fixpoint scanResetTriggers (trimmedBody : string) (triggers : list string)
  : bool * option string :=
  match triggers with
  | [] => (false, None)
  | trigger :: rest =>
      if negb (JsString.truthy trigger) then scanResetTriggers trimmedBody rest
      else if String.eqb trimmedBody trigger then (true, Some "")
      else if JsString.startsWith (trigger +:+ " ") trimmedBody then
        (true, Some (JsString.trimStart
                       (JsString.slice (String.length trigger) trimmedBody)))
      else scanResetTriggers trimmedBody rest
  end.

(** [sessionCfg?.resetTriggers?.length ? sessionCfg.resetTriggers : ["/new"]] *)
Definition effectiveResetTriggers (sessionCfg : option SessionConfig) : list string :=
  match sessionCfg ≫= resetTriggers with
  | Some (t :: ts) => t :: ts
  | Some [] | None => [DEFAULT_RESET_TRIGGER]
  end.

(** [Math.max(sessionCfg?.idleMinutes ?? DEFAULT_IDLE_MINUTES, 1)] *)
Definition effectiveIdleMinutes (sessionCfg : option SessionConfig) : Z :=
  Z.max (default DEFAULT_IDLE_MINUTES (sessionCfg ≫= idleMinutes)) 1.

(** [Math.max(reply?.timeoutSeconds ?? 600, 1) * 1000] *)
Definition effectiveTimeoutMs (reply : option ReplyConfig) : Z :=
  Z.max (default 600 (reply ≫= timeoutSeconds)) 1 * 1000.

(** [entry && Date.now() - entry.updatedAt <= idleMs]; the clock is
    read only when there is an entry. *)
Definition freshEntry (entry : option SessionEntry) (idleMs : Z) : M bool :=
  match entry with
  | None => ret false
  | Some e => now <- Date_now ;; ret (now - updatedAt e <=? idleMs)
  end.

(** The body of [if (sessionCfg) { ... }]: the values of [sessionId],
    [isNewSession] and [bodyStripped] after it. *)
Definition sessionStep (sessionCfg : option SessionConfig) (ctx : MsgContext)
  : M (string * bool * option string) :=
  let resetTriggers := effectiveResetTriggers sessionCfg in
  let idleMinutes := effectiveIdleMinutes sessionCfg in
  let sessionScope := default PerSender (sessionCfg ≫= scope) in
  let storePath := resolveStorePath (sessionCfg ≫= store) in
  let trimmedBody := JsString.trim (default "" (Body ctx)) in
  let '(isNewSession, bodyStripped) := scanResetTriggers trimmedBody resetTriggers in
  let sessionKey := deriveSessionKey sessionScope ctx in
  store <- loadSessionStore storePath ;;
  let entry := store !! sessionKey in
  let idleMs := idleMinutes * 60000 in
  fresh <- freshEntry entry idleMs ;;
  chosen <- match entry with
            | Some e =>
                if negb isNewSession && fresh then ret (sessionId e, isNewSession)
                else (u <- randomUUID ;; ret (u, true))
            | None => u <- randomUUID ;; ret (u, true)
            end ;;
  now <- Date_now ;;
  saveSessionStore storePath
    (<[sessionKey := {| sessionId := fst chosen; updatedAt := now |}]> store) ;;;
  ret (fst chosen, snd chosen, bodyStripped).

(** ** Reply resolution *)

Record GetReplyOptions : Type := {
  onReplyStart : option (M unit);
}.

Definition js_opt (o : option string) : JsValue :=
  match o with
  | Some s => JsStr s
  | None => JsUndefined
  end.

(** [a ?? b] *)
Definition nullish {A} (a b : option A) : option A :=
  match a with
  | Some _ => a
  | None => b
  end.

(** The properties of a [MsgContext] object. *)
Definition ctx_props (ctx : MsgContext) : TemplateContext :=
  {[ "Body" := js_opt (Body ctx); "From" := js_opt (From ctx);
     "To" := js_opt (To ctx); "MessageSid" := js_opt (MessageSid ctx) ]}.

(** [{ ...ctx, BodyStripped, SessionId, IsNewSession }] *)
Definition sessionCtx (ctx : MsgContext) (sessionId : option string)
    (isNewSession : bool) (bodyStripped : option string) : TemplateContext :=
  <["IsNewSession" := JsStr (if isNewSession then "true" else "false")]>
    (<["SessionId" := js_opt sessionId]>
       (<["BodyStripped" := js_opt (nullish bodyStripped (Body ctx))]> (ctx_props ctx))).

(** [{ ...sessionCtx, Body: prefixedBody, BodyStripped: prefixedBody }] *)
Definition templatingCtx (reply : option ReplyConfig) (ctx : MsgContext)
    (sessionId : option string) (isNewSession : bool)
    (bodyStripped : option string) : TemplateContext :=
  let sctx := sessionCtx ctx sessionId isNewSession bodyStripped in
  let bodyPrefix :=
    match reply ≫= bodyPrefix with
    | Some bp => if JsString.truthy bp then applyTemplate bp sctx else ""
    | None => ""
    end in
  let stripped := nullish (nullish bodyStripped (Body ctx)) (Body ctx) in
  let prefixedBody :=
    if JsString.truthy bodyPrefix then Some (bodyPrefix +:+ default "" stripped)
    else stripped in
  <["BodyStripped" := js_opt prefixedBody]> (<["Body" := js_opt prefixedBody]> sctx).

(** [(ctx.From ?? "").replace(/^whatsapp:/, "")] *)
Definition stripWhatsappPrefix (from : string) : string :=
  if JsString.startsWith "whatsapp:" from then JsString.slice 9 from else from.

(** [allowFrom.includes(from)] *)
Definition includes (l : list string) (x : string) : bool :=
  existsb (String.eqb x) l.

(** The argument vector of command mode. *)
Definition buildArgv (r : ReplyConfig) (tctx : TemplateContext) (isNewSession : bool)
    (cmd : list string) : list string :=
  let argv := map (fun part => applyTemplate part tctx) cmd in
  let templatePrefix :=
    match template r with
    | Some t => if JsString.truthy t then applyTemplate t tctx else ""
    | None => ""
    end in
  let argv :=
    match argv with
    | a0 :: tl => if JsString.truthy templatePrefix then a0 :: templatePrefix :: tl else argv
    | [] => argv
    end in
  match session r with
  | Some sc =>
      let sessionArgList :=
        map (fun part => applyTemplate part tctx)
          (if isNewSession
           then default ["--session-id"; "{{SessionId}}"] (sessionArgNew sc)
           else default ["--resume"; "{{SessionId}}"] (sessionArgResume sc)) in
      match sessionArgList with
      | [] => argv
      | _ :: _ =>
          let insertBeforeBody := default true (sessionArgBeforeBody sc) in
          let insertAt :=
            if insertBeforeBody && (1 <? length argv)%nat
            then (length argv - 1)%nat else length argv in
          take insertAt argv ++ sessionArgList ++ drop insertAt argv
      end
  | None => argv
  end.

Definition truthy_opt (o : option string) : bool :=
  match o with
  | Some s => JsString.truthy s
  | None => false
  end.

(** What the resolver does with the result of the command. *)
Definition handleResult (r : SpawnResult) : M (option string) :=
  let trimmed := JsString.trim (stdout r) in
  (if JsString.truthy (JsString.trim (stderr r))
   then logVerbose (LogStderr (JsString.trim (stderr r))) else ret tt) ;;;
  logVerbose (LogStdout trimmed) ;;;
  _ <- Date_now ;;
  logVerbose LogFinished ;;;
  if negb (default 0 (code r) =? 0) then
    console_error (LogExitCode (code r) (signal r)) ;;; ret None
  else if killed r && negb (truthy_opt (signal r)) then
    console_error (LogKilled (code r)) ;;; ret None
  else ret (if JsString.truthy trimmed then Some trimmed else None).

(** The [catch (err)] of command mode. *)
Definition handleError (timeoutMs : Z) (err : JsError) : M (option string) :=
  _ <- Date_now ;;
  let timeoutHit :=
    match err_killed err with Some true => true | _ => false end
    || match err_signal err with Some s => String.eqb s "SIGKILL" | None => false end in
  (match err_stderr err with
   | Some e => if JsString.truthy (JsString.trim e)
               then logVerbose (LogStderr (JsString.trim e)) else ret tt
   | None => ret tt
   end) ;;;
  (if timeoutHit then console_error (LogTimedOut timeoutMs)
   else console_error LogFailed) ;;;
  ret None.

(** [if (sessionCfg) { ... }] and the initial values of [sessionId],
    [isNewSession] and [bodyStripped] when there is no session config. *)
Definition resolveSession (sessionCfg : option SessionConfig) (ctx : MsgContext)
  : M (option string * bool * option string) :=
  match sessionCfg with
  | Some _ =>
      r <- sessionStep sessionCfg ctx ;;
      ret (Some (fst (fst r)), snd (fst r), snd r)
  | None => ret (None, false, None)
  end.

(** The local [onReplyStart].  Its [started] flag guards against a
    second call; every path calls it at most once, so the guard never
    fires. *)
Definition replyStart (opts : option GetReplyOptions) : M unit :=
  emit ReplyStart ;;;
  match opts ≫= onReplyStart with
  | Some callback => callback
  | None => ret tt
  end.

(** Command mode once [finalArgv] is built: [try { ... } catch { ... }]. *)
Definition runReply (commandRunner : list string -> Z -> M SpawnResult)
    (finalArgv : list string) (timeoutMs : Z) : M (option string) :=
  try_catch
    (emit (RunCommand finalArgv timeoutMs) ;;;
     res <- commandRunner finalArgv timeoutMs ;;
     handleResult res)
    (handleError timeoutMs).

(** The allow-list check: no list, an empty list, or a list that
    includes the sender. *)
Definition senderAllowed (cfg : WarelayConfig) (ctx : MsgContext) : bool :=
  match inbound cfg ≫= allowFrom with
  | Some (a :: l) => includes (a :: l) (stripWhatsappPrefix (default "" (From ctx)))
  | Some [] | None => true
  end.

(** [getReplyFromConfig] from the allow-list check to its end. *)
Definition respond (ctx : MsgContext) (opts : option GetReplyOptions)
    (cfg : WarelayConfig) (commandRunner : list string -> Z -> M SpawnResult)
    (sessionId : option string) (isNewSession : bool) (bodyStripped : option string)
  : M (option string) :=
  let reply := inbound cfg ≫= reply in
  let timeoutMs := effectiveTimeoutMs reply in
  let tctx := templatingCtx reply ctx sessionId isNewSession bodyStripped in
  if negb (senderAllowed cfg ctx) then
    logVerbose (LogSkipNotAllowed (stripWhatsappPrefix (default "" (From ctx)))) ;;;
    ret None
  else
    match reply with
    | None => logVerbose LogNoReplyConfigured ;;; ret None
    | Some r =>
        match mode r, text r, command r with
        | ModeText, Some (String c t), _ =>
            replyStart opts ;;;
            logVerbose LogUsingText ;;;
            ret (Some (applyTemplate (String c t) tctx))
        | ModeCommand, _, Some (c0 :: cs) =>
            replyStart opts ;;;
            let finalArgv := buildArgv r tctx isNewSession (c0 :: cs) in
            logVerbose (LogRunning finalArgv) ;;;
            _ <- Date_now ;;
            runReply commandRunner finalArgv timeoutMs
        | _, _, _ => ret None
        end
    end.

(** [getReplyFromConfig]; [commandRunner] is [runCommandWithTimeout]
    unless a caller passes another runner.  The session block comes
    first, the allow-list check after it. *)
Definition getReplyFromConfig (ctx : MsgContext) (opts : option GetReplyOptions)
    (cfg : WarelayConfig) (commandRunner : list string -> Z -> M SpawnResult)
  : M (option string) :=
  s <- resolveSession ((inbound cfg ≫= reply) ≫= session) ctx ;;
  respond ctx opts cfg commandRunner (fst (fst s)) (snd (fst s)) (snd s).

End Resolver.

(** ** Twilio poll loop *)

(** The fields of a Twilio [MessageInstance] that [monitorTwilio] reads;
    [dateCreated] is the date's [getTime()]. *)
Record MessageInstance : Type := {
  sid : string;
  direction : string;
  dateCreated : option Z;
  from : option string;
  to : option string;
  body : option string;
}.

(** [m.dateCreated?.getTime() ?? 0], the key of the sort. *)
Definition createdTime (m : MessageInstance) : Z := default 0 (dateCreated m).

(** [Array.prototype.sort] with the comparator [da - db].  The sort is
    stable, so its result is determined; a stable insertion sort computes
    it. *)
Fixpoint insertByDate (m : MessageInstance) (l : list MessageInstance)
  : list MessageInstance :=
  match l with
  | [] => [m]
  | x :: l' => if createdTime m <=? createdTime x then m :: l else x :: insertByDate m l'
  end.

Definition sortByDate (l : list MessageInstance) : list MessageInstance :=
  fold_right insertByDate [] l.

(** The variables of [monitorTwilio] that outlive an iteration, and the
    calls [void autoReplyIfConfigured(client, m)] made so far, grouped by
    iteration, in call order. *)
Record MonitorState : Type := {
  since : Z;
  seen : gset string;
  dispatched : list (list MessageInstance);
}.

(** [updateSince(date)] *)
Definition updateSince (date : option Z) (since : Z) : Z :=
  match date with
  | Some t => if since <? t then t else since
  | None => since
  end.

(** One turn of [for (const m of inboundMessages)]: the state and the
    calls of this iteration so far. *)
Definition visit (acc : Z * gset string * list MessageInstance) (m : MessageInstance)
  : Z * gset string * list MessageInstance :=
  let '(since, seen, calls) := acc in
  if decide (sid m ∈ seen) then acc
  else (updateSince (dateCreated m) since, {[sid m]} ∪ seen, (calls ++ [m])%list).

(** The body of the [try] once [client.messages.list] has answered. *)
Definition pollBatch (messages : list MessageInstance) (st : MonitorState) : MonitorState :=
  let inboundMessages :=
    sortByDate (filter (fun m => String.eqb (direction m) "inbound") messages) in
  let '(since', seen', calls) :=
    fold_left visit inboundMessages (since st, seen st, []) in
  {| since := since'; seen := seen'; dispatched := dispatched st ++ [calls] |}.

(** What the loop is run against: the answer of
    [client.messages.list({ to, dateSentAfter: since, limit: 50 })] at
    each iteration ([None]: it throws), and whether SIGINT has come by the
    time the loop condition is checked. *)
Record PollEnv : Type := {
  listMessages : nat -> Z -> option (list MessageInstance);
  interrupted : nat -> bool;
}.

(** One iteration of the [while] loop; a failed fetch is logged and the
    state stays. *)
Definition pollOnce (env : PollEnv) (i : nat) (st : MonitorState) : MonitorState :=
  match listMessages env i (since st) with
  | Some messages => pollBatch messages st
  | None => st
  end.

(** [while (keepRunning && iterations < maxIterations)], with [remaining]
    iterations to go. *)
Fixpoint monitorLoop (env : PollEnv) (remaining : nat) (i : nat) (st : MonitorState)
  : MonitorState :=
  match remaining with
  | O => st
  | S k => if interrupted env i then st else monitorLoop env k (S i) (pollOnce env i st)
  end.

(** [monitorTwilio] for a finite [maxIterations]; [now] is [Date.now()]
    when it starts. *)
Definition monitorTwilio (env : PollEnv) (lookbackMinutes : Z) (now : Z)
    (maxIterations : nat) : MonitorState :=
  monitorLoop env maxIterations O
    {| since := now - lookbackMinutes * 60000; seen := ∅; dispatched := [] |}.

(** *** Reply tasks

    A reply task is a call of [autoReplyIfConfigured]: it starts when
    the function is called and ends when the promise it returns
    settles. *)
Inductive TaskEvent : Type :=
| TaskStart (sid : string)
| TaskEnd (sid : string).

(** The jobs of the event loop that start or end reply tasks; a job runs
    to completion before the next one starts.  One pass of the [for]
    loop of [monitorTwilio] is within one job, there being no [await] in
    the loop body: it calls [autoReplyIfConfigured] for each message of
    the batch.  Such a call runs the function up to its first [await],
    that of [getReplyFromConfig], which is on every path, and returns a
    pending promise; the rest of the task runs in later jobs, each
    resuming it after an [await], the last of them ending it. *)
Inductive Job : Type :=
| LoopPass (calls : list MessageInstance)
| Resume (sid : string) (last : bool).

Definition jobEvents (j : Job) : list TaskEvent :=
  match j with
  | LoopPass calls => map (fun m => TaskStart (sid m)) calls
  | Resume s true => [TaskEnd s]
  | Resume _ false => []
  end.

(** The task events of a sequence of jobs. *)
Definition processEvents (jobs : list Job) : list TaskEvent :=
  flat_map jobEvents jobs.

(** Single-flight execution: whenever a task starts, every task started
    before it has ended. *)
Fixpoint singleFlight (running : list string) (events : list TaskEvent) : bool :=
  match events with
  | [] => true
  | TaskStart s :: rest =>
      match running with
      | [] => singleFlight [s] rest
      | _ :: _ => false
      end
  | TaskEnd s :: rest =>
      singleFlight (filter (fun r => negb (String.eqb r s)) running) rest
  end.

(** ** Webhook update *)

Inductive Method : Type := POST | GET.

(** The requests [updateWebhook] and its helpers send to Twilio. *)
Inductive Call : Type :=
| PostSenderJson (senderSid url : string) (method : Method)
| PostSenderForm (senderSid url : string) (method : Method)
| FetchSender (senderSid : string)
| UpdateSender (senderSid url : string) (method : Method)
| ListIncomingNumbers (phoneNumber : string) (limit : nat)
| UpdateIncomingNumber (phoneSid url : string) (method : Method)
| UpdateService (msid url : string) (method : Method)
| FetchService (msid : string).

Record Webhook : Type := {
  callback_url : option string;
  fallback_url : option string;
}.

Record IncomingNumber : Type := {
  number_sid : option string;
  messagingServiceSid : option string;
}.

(** A Twilio client: how each request is answered after the requests
    sent before it.  [None] and [false] stand for a rejected promise. *)
Record TwilioClient : Type := {
  post_sender : list Call -> Call -> bool;
  channelsSenders : bool;           (* messaging.v2.channelsSenders is there *)
  fetch_sender : list Call -> string -> option (option Webhook);
  update_sender : list Call -> string -> string -> Method -> bool;
  list_numbers : list Call -> string -> nat -> option (list IncomingNumber);
  update_number : list Call -> string -> string -> Method -> bool;
  update_service : list Call -> string -> string -> Method -> bool;
  fetch_service : list Call -> string -> option (option string);
}.

(** Requests sent so far, and a result unless something was thrown. *)
Definition Api (A : Type) : Type := list Call -> option A * list Call.

Definition api_ret {A} (a : A) : Api A := fun h => (Some a, h).

Definition api_bind {A B} (m : Api A) (k : A -> Api B) : Api B :=
  fun h =>
    match m h with
    | (Some a, h') => k a h'
    | (None, h') => (None, h')
    end.

(** [try { body } catch { fallback }] *)
Definition api_try {A} (body : Api A) (fallback : A) : Api A :=
  fun h =>
    match body h with
    | (Some a, h') => (Some a, h')
    | (None, h') => (Some fallback, h')
    end.

Declare Scope api_scope.
Delimit Scope api_scope with api.
Notation "x <~ m ;; k" := (api_bind m (fun x => k))
  (at level 100, m at next level, right associativity) : api_scope.

(** A request that is acknowledged or rejected. *)
Definition send (answer : list Call -> bool) (c : Call) : Api unit :=
  fun h => (if answer h then Some tt else None, (h ++ [c])%list).

(** [a || b] on optional strings. *)
Definition js_or (a b : option string) : option string :=
  if truthy_opt a then a else b.

(** [s.replace(pattern, "")] for a string [pattern]: the first
    occurrence of [pattern] in [s] is taken out, wherever it is; a
    string without one is returned as it is. *)
Fixpoint removeFirst (pattern s : string) {struct s} : string :=
  if JsString.startsWith pattern s then JsString.slice (String.length pattern) s
  else
    match s with
    | EmptyString => EmptyString
    | String c s' => String c (removeFirst pattern s')
    end.

Section UpdateWebhook.
Variable client : TwilioClient.
Variable whatsappFrom : string.       (* readEnv().whatsappFrom *)
Local Open Scope api_scope.

(** [clientTyped.messaging.v2.channelsSenders(senderSid).fetch()], then
    [fetched?.webhook?.callback_url || fetched?.webhook?.fallback_url]. *)
Definition fetchStoredUrl (senderSid : string) : Api (option string) :=
  fun h =>
    if channelsSenders client then
      match fetch_sender client h senderSid with
      | Some fetched =>
          (Some (js_or (fetched ≫= callback_url) (fetched ≫= fallback_url)),
           (h ++ [FetchSender senderSid])%list)
      | None => (None, (h ++ [FetchSender senderSid])%list)
      end
    else (None, h).

(** How [updateWebhook] can end. *)
Inductive WebhookOutcome : Type :=
| SenderWebhookSet (storedUrl : string)       (* strategies 1 and 1b *)
| HelperWebhookSet (shownUrl : string)        (* strategy 2 *)
| PhoneWebhookSet (url : string)              (* strategy 3 *)
| ServiceWebhookSet                           (* strategy 4 *)
| Exit (code : Z).                            (* runtime.exit(1) *)

(** Strategies 1 and 1b: a raw request, then a fetch; they succeed when
    the fetched sender has a non-empty stored URL. *)
Definition rawRequestStrategy (write : Call) (senderSid : string)
  : Api (option WebhookOutcome) :=
  api_try
    (_ <~ send (fun h => post_sender client h write) write ;;
     storedUrl <~ fetchStoredUrl senderSid ;;
     api_ret match storedUrl with
             | Some u => if JsString.truthy u then Some (SenderWebhookSet u) else None
             | None => None
             end)
    None.

(** Strategy 2: the SDK helper, if the client has it; it succeeds when
    the update and the fetch go through. *)
Definition helperStrategy (senderSid url : string) (method : Method)
  : Api (option WebhookOutcome) :=
  api_try
    (if channelsSenders client then
       _ <~ send (fun h => update_sender client h senderSid url method)
                 (UpdateSender senderSid url method) ;;
       storedUrl <~ fetchStoredUrl senderSid ;;
       api_ret (Some (HelperWebhookSet (default url storedUrl)))
     else api_ret None)
    None.

(** [env.whatsappFrom.replace("whatsapp:", "")] *)
Definition phone : string := removeFirst "whatsapp:" whatsappFrom.

(** [findIncomingNumberSid] *)
Definition findIncomingNumberSid : Api (option string) :=
  fun h =>
    (Some match list_numbers client h phone 2 with
          | Some (n :: _) => number_sid n
          | Some [] | None => None
          end, (h ++ [ListIncomingNumbers phone 2])%list).

(** Strategy 3: the incoming phone number; no fetch follows the update. *)
Definition phoneStrategy (url : string) (method : Method) : Api (option WebhookOutcome) :=
  api_try
    (phoneSid <~ findIncomingNumberSid ;;
     match phoneSid with
     | Some p =>
         if JsString.truthy p then
           _ <~ send (fun h => update_number client h p url method)
                     (UpdateIncomingNumber p url method) ;;
           api_ret (Some (PhoneWebhookSet url))
         else api_ret None
     | None => api_ret None
     end)
    None.

(** [findMessagingServiceSid] *)
Definition findMessagingServiceSid : Api (option string) :=
  fun h =>
    (Some match list_numbers client h phone 1 with
          | Some (n :: _) => messagingServiceSid n
          | Some [] | None => None
          end, (h ++ [ListIncomingNumbers phone 1])%list).

(** [setMessagingServiceWebhook] *)
Definition setMessagingServiceWebhook (url : string) (method : Method) : Api bool :=
  msid <~ findMessagingServiceSid ;;
  match msid with
  | Some s =>
      if JsString.truthy s then
        api_try
          (_ <~ send (fun h => update_service client h s url method)
                     (UpdateService s url method) ;;
           _ <~ (fun h => (match fetch_service client h s with
                           | Some stored => Some stored
                           | None => None
                           end, (h ++ [FetchService s])%list)) ;;
           api_ret true)
          false
      else api_ret false
  | None => api_ret false
  end.

Definition serviceStrategy (url : string) (method : Method) : Api (option WebhookOutcome) :=
  ok <~ setMessagingServiceWebhook url method ;;
  api_ret (if ok then Some ServiceWebhookSet else None).

(** The strategies in the order [updateWebhook] tries them. *)
Definition strategies (senderSid url : string) (method : Method)
  : list (Api (option WebhookOutcome)) :=
  [ rawRequestStrategy (PostSenderJson senderSid url method) senderSid;
    rawRequestStrategy (PostSenderForm senderSid url method) senderSid;
    helperStrategy senderSid url method;
    phoneStrategy url method;
    serviceStrategy url method ].

(** Each strategy returns from [updateWebhook] when it succeeds and
    falls through to the next one otherwise; after the last one comes
    [runtime.exit(1)]. *)
Fixpoint firstSuccess (l : list (Api (option WebhookOutcome))) (h : list Call)
  : WebhookOutcome * list Call :=
  match l with
  | [] => (Exit 1, h)
  | strategy :: rest =>
      match strategy h with
      | (Some (Some done), h') => (done, h')
      | (_, h') => firstSuccess rest h'
      end
  end.

Definition updateWebhook (senderSid url : string) (method : Method)
  : WebhookOutcome * list Call :=
  firstSuccess (strategies senderSid url method) [].

(** The strategies of [l], run one after the other from the requests
    [h], all fail and leave the requests [h']. *)
Inductive falls_through : list (Api (option WebhookOutcome)) ->
                          list Call -> list Call -> Prop :=
| falls_through_nil h : falls_through [] h h
| falls_through_cons strategy rest h r h1 h2 :
    strategy h = (r, h1) -> (forall done, r <> Some (Some done)) ->
    falls_through rest h1 h2 ->
    falls_through (strategy :: rest) h h2.

End UpdateWebhook.

(** ** Vocabulary of the statements *)

(** What follows a maximal run of [p]: nothing, or a character that
    fails [p]. *)
Definition stops (p : ascii -> bool) (s : string) : Prop :=
  match s with
  | EmptyString => True
  | String c _ => p c = false
  end.

(** The store file as the resolver reads it. *)
Definition stored (w : World) (path : string) : SessionStore :=
  match files w !! path with
  | Some (StoreFile s) => s
  | Some Unparsable | None => ∅
  end.

(** The sender as the allow-list sees it. *)
Definition sender (ctx : MsgContext) : string :=
  stripWhatsappPrefix (default "" (From ctx)).

(** The trimmed body [s] is the trigger [t], or [t], a space and a
    remainder. *)
Definition triggered (t s : string) : Prop :=
  s = t \/ exists r, s = t +:+ " " +:+ r.

(** The loop passes over [t]: it is empty or [s] does not match it. *)
Definition passed (s t : string) : Prop := t = "" \/ ~ triggered t s.

(** The reply the resolver makes of a command result. *)
Definition replyOf (res : SpawnResult) : option string :=
  if negb (default 0 (code res) =? 0) then None
  else if killed res && negb (truthy_opt (signal res)) then None
  else if JsString.truthy (JsString.trim (stdout res))
       then Some (JsString.trim (stdout res)) else None.

(** A data event on one of the pipes of the child. *)
Definition is_data (ev : ChildEvent) : bool :=
  match ev with
  | StdoutData _ | StderrData _ => true
  | _ => false
  end.

Section ResolverVocabulary.
Context `{Helpers}.

(** Whether the stored entry is reused: no reset trigger matched and
    the entry is within the idle window at the clock reading taken for
    it. *)
Definition reuses (sc : SessionConfig) (ctx : MsgContext) (w : World) : bool :=
  let path := resolveStorePath (store sc) in
  let key := deriveSessionKey (default PerSender (scope sc)) ctx in
  let scan := scanResetTriggers (JsString.trim (default "" (Body ctx)))
                (effectiveResetTriggers (Some sc)) in
  match stored w path !! key with
  | Some e =>
      negb (fst scan)
      && (clock w (clock_reads w) - updatedAt e <=? effectiveIdleMinutes (Some sc) * 60000)
  | None => false
  end.

(** The session block does not throw: there is none, or the store can
    be written. *)
Definition session_ok (cfg : WarelayConfig) (w : World) : Prop :=
  match (inbound cfg ≫= reply) ≫= session with
  | Some sc => writable w (resolveStorePath (store sc)) = true
  | None => True
  end.

End ResolverVocabulary.

(** The order of the sort. *)
Definition by_date (a b : MessageInstance) : Prop := createdTime a <= createdTime b.

(** The invariant of the loop: every batch of calls is in creation-time
    order, no id was dispatched twice, and every dispatched id is in
    [seen]. *)
Definition monitor_inv (st : MonitorState) : Prop :=
  Forall (fun batch => StronglySorted Z.le (map createdTime batch)) (dispatched st) /\
  NoDup (map sid (concat (dispatched st))) /\
  (forall m, In m (concat (dispatched st)) -> sid m ∈ seen st).

(** Requests are only ever added. *)
Definition grows {A} (m : Api A) : Prop :=
  forall h, exists ext, snd (m h) = (h ++ ext)%list.

(** ** Message listing *)

Module Listing.

(** A [ListedMessage].  The copy made by [listRecentMessages] turns a
    missing [status], [direction], [errorCode] or [errorMessage] into
    [null]; both are [None] here. *)
Record ListedMessage : Type := {
  sid : string;
  status : option string;
  direction : option string;
  dateCreated : option Z;
  from : option string;
  to : option string;
  body : option string;
  errorCode : option Z;
  errorMessage : option string;
}.

(** The [for] loop of [uniqueBySid] with its two variables. *)
Fixpoint uniqueLoop (seen : gset string) (deduped messages : list ListedMessage)
  : list ListedMessage :=
  match messages with
  | [] => deduped
  | m :: rest =>
      if decide (sid m ∈ seen) then uniqueLoop seen deduped rest
      else uniqueLoop ({[sid m]} ∪ seen) (deduped ++ [m])%list rest
  end.

Definition uniqueBySid (messages : list ListedMessage) : list ListedMessage :=
  uniqueLoop ∅ [] messages.

(** [m.dateCreated?.getTime() ?? 0] *)
Definition createdTime (m : ListedMessage) : Z := default 0 (dateCreated m).

(** [[...messages].sort((a, b) => db - da)]: the stable sort, newest
    first. *)
Fixpoint insertByDateDesc (m : ListedMessage) (l : list ListedMessage)
  : list ListedMessage :=
  match l with
  | [] => [m]
  | x :: l' =>
      if createdTime x <=? createdTime m then m :: l else x :: insertByDateDesc m l'
  end.

Definition sortByDateDesc (messages : list ListedMessage) : list ListedMessage :=
  fold_right insertByDateDesc [] messages.

(** [l.slice(0, limit)]: a negative [limit] counts from the end. *)
Definition slice0 {A} (limit : Z) (l : list A) : list A :=
  if 0 <=? limit then firstn (Z.to_nat limit) l
  else firstn (Z.to_nat (Z.max (Z.of_nat (length l) + limit) 0)) l.

(** [Math.min(Math.max(limit * 2, limit + 10), 100)] *)
Definition fetchLimit (limit : Z) : Z := Z.min (Z.max (limit * 2) (limit + 10)) 100.

(** The argument of [client.messages.list]. *)
Record ListQuery : Type := {
  q_to : option string;
  q_from : option string;
  q_dateSentAfter : Z;
  q_limit : Z;
}.

(** [listRecentMessages(lookbackMinutes, limit, client)]; [messagesList] is
    [client.messages.list] ([None]: the promise rejects), [fromAddr] is
    [withWhatsAppPrefix(env.whatsappFrom)] and [now] is [Date.now()]. *)
Definition listRecentMessages (messagesList : ListQuery -> option (list ListedMessage))
    (fromAddr : string) (now lookbackMinutes limit : Z) : option (list ListedMessage) :=
  let since := now - lookbackMinutes * 60000 in
  match messagesList {| q_to := Some fromAddr; q_from := None;
                q_dateSentAfter := since; q_limit := fetchLimit limit |} with
  | None => None
  | Some inbound =>
      match messagesList {| q_to := None; q_from := Some fromAddr;
                    q_dateSentAfter := since; q_limit := fetchLimit limit |} with
      | None => None
      | Some outbound =>
          let combined := uniqueBySid (inbound ++ outbound)%list in
          Some (slice0 limit (sortByDateDesc combined))
      end
  end.

(** The list is in the order of [sortByDateDesc]: newest first. *)
Definition newest_first (l : list ListedMessage) : Prop :=
  StronglySorted (fun a b => createdTime b <= createdTime a) l.

End Listing.

(** ** Environment *)

Module Env.

(** The variables of [process.env] that are read. *)
Record ProcessEnv : Type := {
  TWILIO_ACCOUNT_SID : option string;
  TWILIO_WHATSAPP_FROM : option string;
  TWILIO_SENDER_SID : option string;
  TWILIO_AUTH_TOKEN : option string;
  TWILIO_API_KEY : option string;
  TWILIO_API_SECRET : option string;
}.

Inductive AuthMode : Type :=
| ApiKeyAuth (accountSid apiKey apiSecret : string)
| TokenAuth (accountSid authToken : string).

Record EnvConfig : Type := {
  accountSid : string;
  whatsappFrom : string;
  whatsappSenderSid : option string;
  auth : AuthMode;
}.

(** The issues the [superRefine] callback of [EnvSchema] adds. *)
Definition refineIssues (val : ProcessEnv) : list string :=
  ((if truthy_opt (TWILIO_API_KEY val) && negb (truthy_opt (TWILIO_API_SECRET val))
    then ["TWILIO_API_SECRET required when TWILIO_API_KEY is set"] else []) ++
   (if truthy_opt (TWILIO_API_SECRET val) && negb (truthy_opt (TWILIO_API_KEY val))
    then ["TWILIO_API_KEY required when TWILIO_API_SECRET is set"] else []) ++
   (if negb (truthy_opt (TWILIO_AUTH_TOKEN val)) &&
       negb (truthy_opt (TWILIO_API_KEY val) && truthy_opt (TWILIO_API_SECRET val))
    then ["Provide TWILIO_AUTH_TOKEN or both TWILIO_API_KEY and TWILIO_API_SECRET"]
    else []))%list.

(** [EnvSchema.safeParse(process.env)]: the data when the parse
    succeeds.  [z.string().min(1)] wants a string of at least one
    character, [z.string().optional()] takes every value a variable of
    the environment can have; the parse succeeds when the fields pass and
    the refinement adds no issue. *)
Definition safeParse (env : ProcessEnv)
  : option (string * string * option string * option string * option string * option string) :=
  match TWILIO_ACCOUNT_SID env, TWILIO_WHATSAPP_FROM env with
  | Some (String a a') , Some (String f f') =>
      match refineIssues env with
      | [] => Some (String a a', String f f', TWILIO_SENDER_SID env,
                    TWILIO_AUTH_TOKEN env, TWILIO_API_KEY env, TWILIO_API_SECRET env)
      | _ :: _ => None
      end
  | _, _ => None
  end.

(** How a function that may call [runtime.exit] ends; [runtime] is the
    default one, whose [exit] ends the process.  [said] is the first
    line given to [runtime.error]. *)
Inductive Exits (A : Type) : Type :=
| Done (a : A)
| Exit (code : Z) (said : string).
Arguments Done {A} a.
Arguments Exit {A} code said.

(** [readEnv(runtime)] *)
Definition readEnv (env : ProcessEnv) : Exits EnvConfig :=
  match safeParse env with
  | None => Exit 1 "Invalid environment configuration:"
  | Some (accountSid, whatsappFrom, whatsappSenderSid, authToken, apiKey, apiSecret) =>
      match apiKey, apiSecret with
      | Some (String k k'), Some (String s s') =>
          Done {| accountSid := accountSid; whatsappFrom := whatsappFrom;
                  whatsappSenderSid := whatsappSenderSid;
                  auth := ApiKeyAuth accountSid (String k k') (String s s') |}
      | _, _ =>
          match authToken with
          | Some (String t t') =>
              Done {| accountSid := accountSid; whatsappFrom := whatsappFrom;
                      whatsappSenderSid := whatsappSenderSid;
                      auth := TokenAuth accountSid (String t t') |}
          | _ => Exit 1 "Missing Twilio auth configuration"
          end
      end
  end.

(** [required.filter((k) => !process.env[k])] *)
Definition missing (env : ProcessEnv) : list string :=
  ((if truthy_opt (TWILIO_ACCOUNT_SID env) then [] else ["TWILIO_ACCOUNT_SID"]) ++
   (if truthy_opt (TWILIO_WHATSAPP_FROM env) then [] else ["TWILIO_WHATSAPP_FROM"]))%list.

(** [missing.join(", ")] *)
Fixpoint join (sep : string) (l : list string) : string :=
  match l with
  | [] => ""
  | [x] => x
  | x :: rest => x +:+ sep +:+ join sep rest
  end.

(** [ensureTwilioEnv(runtime)]; the text is the one passed through
    [danger], which only colours it. *)
Definition ensureTwilioEnv (env : ProcessEnv) : Exits unit :=
  let hasToken := truthy_opt (TWILIO_AUTH_TOKEN env) in
  let hasKey := truthy_opt (TWILIO_API_KEY env) && truthy_opt (TWILIO_API_SECRET env) in
  match missing env with
  | (_ :: _) as l =>
      Exit 1 ("Missing Twilio env: " +:+ join ", " l +:+
              ". Set them in .env before using provider=twilio.")
  | [] =>
      if negb hasToken && negb hasKey
      then Exit 1 ("Missing Twilio env: " +:+ "auth token or api key/secret" +:+
                   ". Set them in .env before using provider=twilio.")
      else Done tt
  end.

End Env.

(** ** Delivery status *)

Module Delivery.

(** What [client.messages(sid).fetch()] resolves to. *)
Record FetchedMessage : Type := {
  status : option string;
  errorCode : option Z;
  errorMessage : option string;
}.

Definition successTerminalStatuses : list string := ["delivered"; "read"].
Definition failureTerminalStatuses : list string := ["failed"; "undelivered"; "canceled"].

(** [set.has(status)] *)
Definition has (set : list string) (s : string) : bool :=
  existsb (String.eqb s) set.

(** What [waitForFinalStatus] runs against: the readings of
    [Date.now()] in order, and the answers of the fetches in order
    ([None]: the promise rejects). *)
Record StatusEnv : Type := {
  now_at : nat -> Z;
  fetch_at : nat -> option FetchedMessage;
}.

(** How [waitForFinalStatus] ends, with the default runtime. *)
Inductive WaitOutcome : Type :=
| Delivered (status : string)          (* logged, returns *)
| DeliveryFailed (status : string)     (* runtime.exit(1) *)
| TimedOut                             (* logged, returns *)
| FetchRejected                        (* the promise rejects *)
| Polling.                             (* still in the loop *)

(** [while (Date.now() < deadline)] for at most [turns] turns, [i]
    fetches having been made; the result carries the number of fetches
    made in all. *)
Fixpoint waitLoop (env : StatusEnv) (deadline : Z) (turns i : nat) : WaitOutcome * nat :=
  match turns with
  | O => (Polling, i)
  | S k =>
      if now_at env (S i) <? deadline then
        match fetch_at env i with
        | None => (FetchRejected, S i)
        | Some m =>
            let status := default "unknown" (status m) in
            if has successTerminalStatuses status then (Delivered status, S i)
            else if has failureTerminalStatuses status then (DeliveryFailed status, S i)
            else waitLoop env deadline k (S i)
        end
      else (TimedOut, i)
  end.

(** [waitForFinalStatus(client, sid, timeoutSeconds, pollSeconds)] *)
Definition waitForFinalStatus (env : StatusEnv) (timeoutSeconds : Z) (turns : nat)
  : WaitOutcome * nat :=
  waitLoop env (now_at env 0 + timeoutSeconds * 1000) turns 0.

(** A status that keeps the loop going. *)
Definition inFlight (m : FetchedMessage) : bool :=
  let status := default "unknown" (status m) in
  negb (has successTerminalStatuses status) && negb (has failureTerminalStatuses status).

End Delivery.

(** ** Sender discovery *)

Module Senders.

(** An element of the answer of [channelsSenders.list]; a field is
    [Some] when it is a string. *)
Record SenderRecord : Type := {
  senderId : option string;
  sender_id : option string;
  sid : option string;
}.

(** The predicate given to [senders.find]. *)
Definition isSender (target : string) (s : SenderRecord) : bool :=
  match senderId s with Some x => String.eqb x target | None => false end ||
  match sender_id s with Some x => String.eqb x target | None => false end.

Inductive Request : Type :=
| ListSenders (channel : string) (pageSize : Z).

(** [findWhatsappSenderSid(client, from, explicitSenderSid)]: the
    sender SID, or the code of [runtime.exit], and the requests made.
    [listed] is the answer of [channelsSenders.list] ([None]: it rejects,
    [Some None]: it resolves to nothing) and [target] is
    [withWhatsAppPrefix(from)]. *)
Definition findWhatsappSenderSid (listed : option (option (list SenderRecord)))
    (target : string) (explicitSenderSid : option string)
  : (string + Z) * list Request :=
  match explicitSenderSid with
  | Some (String c e) => (inl (String c e), [])
  | _ =>
      (match listed with
       | Some (Some senders) =>
           match find (isSender target) senders with
           | Some match_ =>
               match sid match_ with
               | Some s => inl s
               | None => inr 1
               end
           | None => inr 1
           end
       | _ => inr 1
       end, [ListSenders "whatsapp" 50])
  end.

End Senders.

(** ** Auto-reply *)

(** The argument of [client.messages.create]. *)
Record CreateRequest : Type := {
  create_from : string;
  create_to : string;
  create_body : string;
}.

Section AutoReply.
Context `{Helpers}.

(** The [MsgContext] that [autoReplyIfConfigured] builds. *)
Definition contextOf (message : MessageInstance) : MsgContext :=
  {| Body := body message; From := from message; To := to message;
     MessageSid := Some (sid message) |}.

(** [autoReplyIfConfigured(client, message, configOverride)]: the
    message it asks Twilio to create, if any.  [typing] is
    [sendTypingIndicator(client, message.sid, runtime)], the callback
    handed to the resolver.  A rejected [create] is caught and logged,
    so the outcome does not depend on the answer; the log lines of
    [autoReplyIfConfigured] itself are not part of the trace. *)
Definition autoReplyIfConfigured (typing : M unit) (message : MessageInstance)
    (cfg : WarelayConfig) : M (option CreateRequest) :=
  (replyText <- getReplyFromConfig (contextOf message)
                  (Some {| onReplyStart := Some typing |}) cfg runCommandWithTimeout ;;
   match replyText with
   | Some (String c t) =>
       match to message, from message with
       | Some (String f f'), Some (String t0 t0') =>
           ret (Some {| create_from := String f f'; create_to := String t0 t0';
                        create_body := String c t |})
       | _, _ => ret None
       end
   | _ => ret None
   end)%io.

End AutoReply.

(** ** Vocabulary of the further statements *)

(** The resolver goes on to make a reply: the sender is allowed and the
    reply config has text for text mode or a command for command mode. *)
Definition attemptsReply (cfg : WarelayConfig) (ctx : MsgContext) : bool :=
  senderAllowed cfg ctx &&
  match inbound cfg ≫= reply with
  | Some r =>
      match mode r, text r, command r with
      | ModeText, Some (String _ _), _ => true
      | ModeCommand, _, Some (_ :: _) => true
      | _, _, _ => false
      end
  | None => false
  end.

(** What the child wrote on one of its pipes, in order. *)
Fixpoint stdoutOf (evs : list ChildEvent) : string :=
  match evs with
  | [] => ""
  | StdoutData d :: rest => d +:+ stdoutOf rest
  | _ :: rest => stdoutOf rest
  end.

Fixpoint stderrOf (evs : list ChildEvent) : string :=
  match evs with
  | [] => ""
  | StderrData d :: rest => d +:+ stderrOf rest
  | _ :: rest => stderrOf rest
  end.

(** The [close] and [error] events, which settle the promise. *)
Definition settles (ev : ChildEvent) : bool :=
  match ev with
  | ChildError | ChildClose _ _ => true
  | _ => false
  end.

(** What [kill] returned when the timeout callback ran: the flag of the
    first timer event, [false] when there is none. *)
Fixpoint timerDelivered (evs : list ChildEvent) : bool :=
  match evs with
  | [] => false
  | TimerFired delivered :: _ => delivered
  | _ :: rest => timerDelivered rest
  end.

(** A request of [updateWebhook] carries the sender, the URL and the
    method it was called with; [ph] is the number looked up. *)
Definition aimed (ph senderSid url : string) (method : Method) (c : Call) : Prop :=
  match c with
  | PostSenderJson s u m | PostSenderForm s u m | UpdateSender s u m =>
      s = senderSid /\ u = url /\ m = method
  | FetchSender s => s = senderSid
  | ListIncomingNumbers p n => p = ph /\ (n = 2 \/ n = 1)%nat
  | UpdateIncomingNumber _ u m | UpdateService _ u m => u = url /\ m = method
  | FetchService _ => True
  end.

(** A request that needs [messaging.v2.channelsSenders]. *)
Definition usesSenderHelper (c : Call) : bool :=
  match c with
  | FetchSender _ | UpdateSender _ _ _ => true
  | _ => false
  end.

(** [m] only adds requests, at most [n] of them, all in [P]. *)
Definition sends {A} (P : Call -> Prop) (n : nat) (m : Api A) : Prop :=
  forall h, exists ext,
    snd (m h) = (h ++ ext)%list /\ Forall P ext /\ (length ext <= n)%nat.

(** What stands behind the way [updateWebhook] ended with the requests
    [h]: the last requests it sent, and how the client answered them. *)
Definition backed (client : TwilioClient) (senderSid url : string) (method : Method)
    (done : WebhookOutcome) (h : list Call) : Prop :=
  match done with
  | SenderWebhookSet stored =>
      stored <> "" /\ channelsSenders client = true /\
      exists h0 write fetched,
        h = (h0 ++ [write; FetchSender senderSid])%list /\
        (write = PostSenderJson senderSid url method \/
         write = PostSenderForm senderSid url method) /\
        post_sender client h0 write = true /\
        fetch_sender client (h0 ++ [write])%list senderSid = Some fetched /\
        js_or (fetched ≫= callback_url) (fetched ≫= fallback_url) = Some stored
  | HelperWebhookSet shown =>
      channelsSenders client = true /\
      exists h0 fetched,
        h = (h0 ++ [UpdateSender senderSid url method; FetchSender senderSid])%list /\
        update_sender client h0 senderSid url method = true /\
        fetch_sender client (h0 ++ [UpdateSender senderSid url method])%list senderSid
        = Some fetched /\
        shown = default url (js_or (fetched ≫= callback_url) (fetched ≫= fallback_url))
  | PhoneWebhookSet shown =>
      shown = url /\
      exists h0 ph n rest p,
        h = (h0 ++ [ListIncomingNumbers ph 2; UpdateIncomingNumber p url method])%list /\
        list_numbers client h0 ph 2 = Some (n :: rest) /\
        number_sid n = Some p /\ p <> "" /\
        update_number client (h0 ++ [ListIncomingNumbers ph 2])%list p url method = true
  | ServiceWebhookSet =>
      exists h0 ph n rest s,
        h = (h0 ++ [ListIncomingNumbers ph 1; UpdateService s url method;
                    FetchService s])%list /\
        list_numbers client h0 ph 1 = Some (n :: rest) /\
        messagingServiceSid n = Some s /\ s <> "" /\
        update_service client (h0 ++ [ListIncomingNumbers ph 1])%list s url method = true /\
        fetch_service client
          (h0 ++ [ListIncomingNumbers ph 1; UpdateService s url method])%list s <> None
  | Exit c => c = 1
  end.

(** The turns [i .. j-1] of the loop of [waitForFinalStatus] went
    round: the clock was read before the deadline and the message fetched
    was still in flight. *)
Definition quiet (env : Delivery.StatusEnv) (deadline : Z) (i j : nat) : Prop :=
  forall k, (i <= k < j)%nat ->
    Delivery.now_at env (S k) < deadline /\
    exists m, Delivery.fetch_at env k = Some m /\ Delivery.inFlight m = true.

(** What the way [waitForFinalStatus] ended says about the clock and
    the fetches, [n] fetches having been made from the [i]-th on. *)
Definition explained (env : Delivery.StatusEnv) (deadline : Z) (turns i : nat)
    (outcome : Delivery.WaitOutcome) (n : nat) : Prop :=
  match outcome with
  | Delivery.Delivered s =>
      exists j m, n = S j /\ quiet env deadline i j /\
        Delivery.now_at env n < deadline /\ Delivery.fetch_at env j = Some m /\
        s = default "unknown" (Delivery.status m) /\ (s = "delivered" \/ s = "read")
  | Delivery.DeliveryFailed s =>
      exists j m, n = S j /\ quiet env deadline i j /\
        Delivery.now_at env n < deadline /\ Delivery.fetch_at env j = Some m /\
        s = default "unknown" (Delivery.status m) /\
        (s = "failed" \/ s = "undelivered" \/ s = "canceled")
  | Delivery.FetchRejected =>
      exists j, n = S j /\ quiet env deadline i j /\
        Delivery.now_at env n < deadline /\ Delivery.fetch_at env j = None
  | Delivery.TimedOut =>
      quiet env deadline i n /\ deadline <= Delivery.now_at env (S n)
  | Delivery.Polling =>
      quiet env deadline i n /\ n = (i + turns)%nat
  end.

(** ** Sample inputs *)

Module Sample.

Definition helpers : Helpers :=
  {| normalizeE164 := fun s => s;
     path_resolve := fun s => s;
     os_homedir := "/home/relay";
     SESSION_STORE_DEFAULT := "/home/relay/.warelay/sessions.json" |}.

Definition world (fs : gmap string FileContent) (now : Z) : World :=
  {| files := fs; writable := fun _ => true;
     clock := fun n => now + Z.of_nat n; clock_reads := 0;
     uuids := fun n => if n is O then "uuid-0" else "uuid-n"; uuid_draws := 0;
     children := fun _ _ => []; trace := [] |}.

Definition message (from body : string) : MsgContext :=
  {| Body := Some body; From := Some from; To := Some "+1000"; MessageSid := Some "SM1" |}.

Definition sessions (triggers : option (list string)) (idle : option Z) : SessionConfig :=
  {| scope := None; resetTriggers := triggers; idleMinutes := idle; store := None;
     sessionArgNew := None; sessionArgResume := None; sessionArgBeforeBody := None |}.

Definition text_reply (t : string) (sc : option SessionConfig) : ReplyConfig :=
  {| mode := ModeText; text := Some t; command := None; template := None;
     timeoutSeconds := None; bodyPrefix := None; session := sc |}.

Definition command_reply (argv : list string) (timeout : option Z)
    (sc : option SessionConfig) : ReplyConfig :=
  {| mode := ModeCommand; text := None; command := Some argv; template := None;
     timeoutSeconds := timeout; bodyPrefix := None; session := sc |}.

Definition config (allow : option (list string)) (r : option ReplyConfig) : WarelayConfig :=
  {| inbound := Some {| allowFrom := allow; reply := r |} |}.

Definition store_path : string := "/home/relay/.warelay/sessions.json".

(** A store file with one entry. *)
Definition one_session (key id : string) (updated : Z) : gmap string FileContent :=
  {[ store_path := StoreFile {[ key := {| sessionId := id; updatedAt := updated |} ]} ]}.

(** A world in which the store cannot be written. *)
Definition readonly_world (now : Z) : World :=
  {| files := ∅; writable := fun _ => false;
     clock := fun n => now + Z.of_nat n; clock_reads := 0;
     uuids := fun n => "uuid-0"; uuid_draws := 0;
     children := fun _ _ => []; trace := [] |}.

(** A world in which every spawned child behaves as [events] say. *)
Definition world_with_child (events : list ChildEvent) : World :=
  {| files := ∅; writable := fun _ => true;
     clock := fun n => Z.of_nat n; clock_reads := 0;
     uuids := fun n => "uuid-0"; uuid_draws := 0;
     children := fun _ _ => events; trace := [] |}.

(** A child that prints, outlives the timeout and is killed. *)
Definition killed_after_output : list ChildEvent :=
  [StdoutData "partial"; TimerFired true; ChildClose None (Some "SIGKILL")].

Definition failed_result : SpawnResult :=
  {| stdout := "oops"; stderr := ""; code := Some 1; signal := None; killed := false |}.

(** A runner that resolves with [res], and one that rejects. *)
Definition runner_returning (res : SpawnResult) : list string -> Z -> M SpawnResult :=
  fun _ _ w => (Returned res, w).

Definition runner_throwing : list string -> Z -> M SpawnResult :=
  fun _ _ w => (Thrown plain_error, w).

Definition inbound_message (id : string) (created : Z) : MessageInstance :=
  {| sid := id; direction := "inbound"; dateCreated := Some created;
     from := Some "whatsapp:+1555"; to := Some "whatsapp:+1000"; body := Some "hi" |}.

(** One fetch that returns two new messages, the later one first. *)
Definition two_message_env : PollEnv :=
  {| listMessages := fun _ _ => Some [inbound_message "SM2" 20; inbound_message "SM1" 10];
     interrupted := fun _ => false |}.

(** A client that acknowledges every write and whose sender keeps the
    webhook [stored]. *)
Definition client_storing (stored : option Webhook) : TwilioClient :=
  {| post_sender := fun _ _ => true;
     channelsSenders := true;
     fetch_sender := fun _ _ => Some stored;
     update_sender := fun _ _ _ _ => true;
     list_numbers := fun _ _ _ => Some [];
     update_number := fun _ _ _ _ => true;
     update_service := fun _ _ _ _ => true;
     fetch_service := fun _ _ => Some None |}.

Definition old_webhook : Webhook :=
  {| callback_url := Some "https://old.example/hook"; fallback_url := None |}.

Definition no_webhook : Webhook :=
  {| callback_url := None; fallback_url := None |}.

End Sample.

(** ** Further sample inputs *)

Module Fixture.

(** A result whose output has white space around it. *)
Definition padded_result : SpawnResult :=
  {| stdout := "  ok  "; stderr := ""; code := Some 0; signal := None; killed := false |}.

(** A client without [messaging.v2.channelsSenders] that rejects every
    request and finds no number. *)
Definition client_without_helper : TwilioClient :=
  {| post_sender := fun _ _ => true;
     channelsSenders := false;
     fetch_sender := fun _ _ => None;
     update_sender := fun _ _ _ _ => false;
     list_numbers := fun _ _ _ => Some [];
     update_number := fun _ _ _ _ => false;
     update_service := fun _ _ _ _ => false;
     fetch_service := fun _ _ => None |}.

Definition listed (id : string) (created : Z) (dir : string) : Listing.ListedMessage :=
  {| Listing.sid := id; Listing.status := Some "delivered";
     Listing.direction := Some dir; Listing.dateCreated := Some created;
     Listing.from := Some "whatsapp:+1555"; Listing.to := Some "whatsapp:+1000";
     Listing.body := Some "hi"; Listing.errorCode := None;
     Listing.errorMessage := None |}.

(** Two inbound messages and one outbound one, which the inbound
    listing has too. *)
Definition listings (q : Listing.ListQuery) : option (list Listing.ListedMessage) :=
  match Listing.q_to q with
  | Some _ => Some [listed "SM1" 10 "inbound"; listed "SM3" 30 "inbound";
                    listed "SM2" 20 "outbound-api"]
  | None => Some [listed "SM2" 20 "outbound-api"]
  end.

(** An auth token, and a stray API key without its secret. *)
Definition token_env (key : option string) : Env.ProcessEnv :=
  {| Env.TWILIO_ACCOUNT_SID := Some "AC1";
     Env.TWILIO_WHATSAPP_FROM := Some "whatsapp:+1000";
     Env.TWILIO_SENDER_SID := None;
     Env.TWILIO_AUTH_TOKEN := Some "token";
     Env.TWILIO_API_KEY := key;
     Env.TWILIO_API_SECRET := None |}.

(** A clock that advances one second per reading, and a message that
    is delivered at the second fetch. *)
Definition delivered_second : Delivery.StatusEnv :=
  {| Delivery.now_at := fun n => 1000 * Z.of_nat n;
     Delivery.fetch_at := fun n =>
       Some {| Delivery.status := Some (if n is O then "queued" else "delivered");
               Delivery.errorCode := None; Delivery.errorMessage := None |} |}.

End Fixture.

(** * Properties *)

(** ** Strings *)

Lemma append_nil_l (b : string) : "" +:+ b = b.
Proof. reflexivity. Qed.

Lemma append_cons c (a b : string) : String c a +:+ b = String c (a +:+ b).
Proof. reflexivity. Qed.

(** [String.append] is kept folded by [simpl]; these equations compute it. *)
Ltac str_simpl := rewrite ?append_cons, ?append_nil_l.

Lemma append_assoc (a b c : string) : (a +:+ b) +:+ c = a +:+ (b +:+ c).
Proof. induction a as [|x a IH]; str_simpl; [reflexivity | now rewrite IH]. Qed.

Lemma append_length (a b : string) :
  String.length (a +:+ b) = (String.length a + String.length b)%nat.
Proof. induction a as [|x a IH]; str_simpl; simpl; [reflexivity | now rewrite IH]. Qed.

Lemma word_not_space c : JsString.is_word c = true -> JsString.is_space c = false.
Proof. destruct c as [[] [] [] [] [] [] [] []]; vm_compute; congruence. Qed.

Section Span.
Variable p : ascii -> bool.

Lemma span_spec s a b :
  JsString.span p s = (a, b) ->
  s = a +:+ b /\ JsString.all_chars p a = true /\ stops p b.
Proof.
  revert a b. induction s as [|c s IH]; simpl; intros a b H.
  - inversion H; subst. repeat split.
  - destruct (p c) eqn:Hc.
    + destruct (JsString.span p s) as [a' b'] eqn:Hs.
      inversion H; subst. destruct (IH _ _ eq_refl) as (-> & Ha & Hb).
      simpl. rewrite Hc, Ha. repeat split. exact Hb.
    + inversion H; subst. simpl. repeat split. exact Hc.
Qed.

Lemma span_app a b :
  JsString.all_chars p a = true -> stops p b ->
  JsString.span p (a +:+ b) = (a, b).
Proof.
  induction a as [|c a IH]; simpl; intros Ha Hb.
  - destruct b as [|c b]; simpl in *; [reflexivity | now rewrite Hb].
  - apply andb_true_iff in Ha as [Hc Ha]. now rewrite Hc, IH.
Qed.
End Span.

(** ** Template engine *)

Lemma match_placeholder_sound s key rest :
  match_placeholder s = Some (key, rest) ->
  exists ws1 ws2,
    TemplateSpec.blank ws1 /\ TemplateSpec.name key /\ TemplateSpec.blank ws2 /\
    s = TemplateSpec.placeholder ws1 key ws2 +:+ rest.
Proof.
  unfold match_placeholder.
  destruct s as [|c0 [|c1 s1]]; try discriminate.
  { destruct c0 as [[] [] [] [] [] [] [] []]; discriminate. }
  destruct (Ascii.eqb_spec c0 "{"); [subst c0 |
    destruct c0 as [[] [] [] [] [] [] [] []]; congruence].
  destruct (Ascii.eqb_spec c1 "{"); [subst c1 |
    destruct c1 as [[] [] [] [] [] [] [] []]; congruence].
  destruct (JsString.span JsString.is_space s1) as [ws1 s2] eqn:H1.
  destruct (JsString.span JsString.is_word s2) as [k s3] eqn:H2.
  destruct k as [|k0 k]; [discriminate|].
  destruct (JsString.span JsString.is_space s3) as [ws2 s4] eqn:H3.
  intros H.
  apply span_spec in H1 as (-> & Hw1 & _).
  apply span_spec in H2 as (-> & Hk & _).
  apply span_spec in H3 as (-> & Hw2 & _).
  destruct s4 as [|d0 [|d1 s4]]; try discriminate.
  { destruct d0 as [[] [] [] [] [] [] [] []]; discriminate. }
  destruct (Ascii.eqb_spec d0 "}"); [subst d0 |
    destruct d0 as [[] [] [] [] [] [] [] []]; congruence].
  destruct (Ascii.eqb_spec d1 "}"); [subst d1 |
    destruct d1 as [[] [] [] [] [] [] [] []]; congruence].
  inversion H; subst. exists ws1, ws2.
  split; [exact Hw1|]. split; [split; [discriminate | exact Hk]|].
  split; [exact Hw2|].
  unfold TemplateSpec.placeholder. rewrite !append_assoc. str_simpl. reflexivity.
Qed.

Lemma match_placeholder_complete ws1 key ws2 rest :
  TemplateSpec.blank ws1 -> TemplateSpec.name key -> TemplateSpec.blank ws2 ->
  match_placeholder (TemplateSpec.placeholder ws1 key ws2 +:+ rest) = Some (key, rest).
Proof.
  intros Hw1 [Hne Hk] Hw2.
  unfold TemplateSpec.placeholder, match_placeholder.
  rewrite !append_assoc. str_simpl.
  set (close := String "}" (String "}" rest)).
  assert (Hs1 : stops JsString.is_space (key +:+ ws2 +:+ close)).
  { destruct key as [|k0 key]; [congruence|]. str_simpl. simpl.
    simpl in Hk. apply andb_true_iff in Hk as [Hk0 _]. now apply word_not_space. }
  assert (Hs2 : stops JsString.is_word (ws2 +:+ close)).
  { destruct ws2 as [|w ws2]; str_simpl; simpl; [reflexivity|].
    unfold TemplateSpec.blank in Hw2. simpl in Hw2.
    apply andb_true_iff in Hw2 as [Hw _].
    destruct (JsString.is_word w) eqn:E; [|reflexivity].
    apply word_not_space in E. congruence. }
  rewrite (span_app _ ws1 _ Hw1 Hs1), (span_app _ key _ Hk Hs2).
  destruct key as [|k0 key]; [congruence|].
  rewrite (span_app _ ws2 close Hw2) by reflexivity.
  reflexivity.
Qed.

Lemma match_placeholder_shorter s key rest :
  match_placeholder s = Some (key, rest) ->
  (String.length rest < String.length s)%nat.
Proof.
  intros H. apply match_placeholder_sound in H as (ws1 & ws2 & _ & _ & _ & ->).
  unfold TemplateSpec.placeholder. rewrite !append_length. simpl. lia.
Qed.

Lemma replace_placeholders_fuel fn n : forall s f1 f2,
  (String.length s <= n)%nat ->
  (String.length s <= f1)%nat -> (String.length s <= f2)%nat ->
  replace_placeholders f1 fn s = replace_placeholders f2 fn s.
Proof.
  induction n as [|n IH]; intros s f1 f2 Hn H1 H2.
  - destruct s; simpl in Hn; [|lia]. destruct f1, f2; reflexivity.
  - destruct s as [|c rest]; [destruct f1, f2; reflexivity|].
    simpl in Hn, H1, H2.
    destruct f1 as [|f1]; [lia|]. destruct f2 as [|f2]; [lia|].
    cbn [replace_placeholders].
    destruct (match_placeholder (String c rest)) as [[key after]|] eqn:Hm.
    + apply match_placeholder_shorter in Hm. simpl in Hm.
      f_equal. apply IH; lia.
    + f_equal. apply IH; lia.
Qed.

(** The equations of [applyTemplate]: the fuel never runs out. *)
Lemma applyTemplate_nil ctx : applyTemplate "" ctx = "".
Proof. reflexivity. Qed.

Lemma applyTemplate_cons c rest ctx :
  applyTemplate (String c rest) ctx =
  match match_placeholder (String c rest) with
  | Some (key, after) => render_key ctx key +:+ applyTemplate after ctx
  | None => String c (applyTemplate rest ctx)
  end.
Proof.
  unfold applyTemplate. cbn [String.length replace_placeholders].
  destruct (match_placeholder (String c rest)) as [[key after]|] eqn:Hm.
  - apply match_placeholder_shorter in Hm. simpl in Hm.
    f_equal. apply (replace_placeholders_fuel _ (String.length rest)); lia.
  - reflexivity.
Qed.

Lemma render_key_property_text ctx key :
  render_key ctx key = TemplateSpec.property_text ctx key.
Proof.
  unfold render_key, ctx_get, TemplateSpec.property_text.
  destruct (ctx !! key) as [[]|]; try reflexivity.
  unfold Object_prototype.
  destruct (String.eqb key "constructor"); [reflexivity|].
  destruct (String.eqb key "__proto__"); [reflexivity|].
  destruct (existsb _ _); reflexivity.
Qed.

(** For a name the context has, or one that [Object.prototype] does not
    have, the property read gives what the specification says. *)
Lemma property_text_value_text ctx key :
  is_Some (ctx !! key) \/ Object_prototype key = None ->
  TemplateSpec.property_text ctx key = TemplateSpec.value_text ctx key.
Proof.
  unfold TemplateSpec.property_text, TemplateSpec.value_text.
  intros [[v Hv]|Hnone].
  - rewrite Hv. now destruct v.
  - rewrite Hnone. now destruct (ctx !! key) as [[]|].
Qed.

Lemma applyTemplate_rendered ctx : forall n s,
  (String.length s <= n)%nat ->
  TemplateSpec.rendered_as_property ctx s (applyTemplate s ctx).
Proof.
  induction n as [|n IH]; intros s Hn.
  - destruct s; simpl in Hn; [constructor | lia].
  - destruct s as [|c rest]; [constructor|].
    rewrite applyTemplate_cons.
    destruct (match_placeholder (String c rest)) as [[key after]|] eqn:Hm.
    + pose proof (match_placeholder_shorter _ _ _ Hm) as Hlen.
      apply match_placeholder_sound in Hm as (ws1 & ws2 & H1 & Hk & H2 & ->).
      rewrite render_key_property_text.
      constructor; try assumption. apply IH. simpl in Hn, Hlen. lia.
    + constructor.
      * intros (ws1 & key & ws2 & tail & H1 & Hk & H2 & E).
        rewrite E, match_placeholder_complete in Hm by assumption. discriminate.
      * apply IH. simpl in Hn. lia.
Qed.

Lemma rendered_applyTemplate ctx s out :
  TemplateSpec.rendered_as_property ctx s out -> out = applyTemplate s ctx.
Proof.
  induction 1 as [|ws1 key ws2 tail out H1 Hk H2 _ IH|c tail out Hn _ IH].
  - reflexivity.
  - pose proof (match_placeholder_complete ws1 key ws2 tail H1 Hk H2) as Hm.
    remember (TemplateSpec.placeholder ws1 key ws2 +:+ tail) as s eqn:Es.
    destruct s as [|c rest]; [discriminate|].
    rewrite applyTemplate_cons, Hm, render_key_property_text, IH. reflexivity.
  - rewrite applyTemplate_cons.
    destruct (match_placeholder (String c tail)) as [[key after]|] eqn:Hm.
    + exfalso. apply Hn.
      apply match_placeholder_sound in Hm as (ws1 & ws2 & H1 & Hk & H2 & E).
      now exists ws1, key, ws2, after.
    + now rewrite IH.
Qed.

Lemma applyTemplate_literal ctx str :
  JsString.all_chars (fun c => negb (Ascii.eqb c "{")) str = true ->
  applyTemplate str ctx = str.
Proof.
  induction str as [|c rest IH]; [reflexivity|].
  simpl. intros H. apply andb_true_iff in H as [Hc Hrest].
  rewrite applyTemplate_cons.
  destruct (Ascii.eqb_spec c "{") as [->|Hne]; [discriminate|].
  assert (match_placeholder (String c rest) = None) as ->.
  { unfold match_placeholder.
    destruct c as [[] [] [] [] [] [] [] []]; try reflexivity. congruence. }
  now rewrite IH.
Qed.

Lemma rendered_by_ext (f g : string -> string) s out :
  (forall key, f key = g key) ->
  TemplateSpec.rendered_by f s out -> TemplateSpec.rendered_by g s out.
Proof.
  intros Hfg. induction 1 as [|ws1 key ws2 tail out H1 Hk H2 _ IH|c tail out Hn _ IH].
  - constructor.
  - rewrite Hfg. now constructor.
  - now constructor.
Qed.


(** ** Session step *)

Section ResolverFacts.
Context `{Helpers}.

Lemma sessionStep_returns sc ctx w :
  let path := resolveStorePath (store sc) in
  let key := deriveSessionKey (default PerSender (scope sc)) ctx in
  let scan := scanResetTriggers (JsString.trim (default "" (Body ctx)))
                (effectiveResetTriggers (Some sc)) in
  let entry := stored w path !! key in
  let sid := match entry with
             | Some e => if reuses sc ctx w then sessionId e else uuids w (uuid_draws w)
             | None => uuids w (uuid_draws w)
             end in
  let now := clock w (match entry with
                      | Some _ => S (clock_reads w)
                      | None => clock_reads w
                      end) in
  let saved := <[key := {| sessionId := sid; updatedAt := now |}]> (stored w path) in
  writable w path = true ->
  exists w',
    sessionStep (Some sc) ctx w = (Returned (sid, negb (reuses sc ctx w), snd scan), w') /\
    files w' = <[path := StoreFile saved]> (files w) /\
    trace w' = (trace w ++ [FsRead path; FsWrite path saved])%list /\
    uuid_draws w' = (if reuses sc ctx w then uuid_draws w else S (uuid_draws w)).
Proof.
  intros path key scan entry sid now saved Hw.
  subst saved now sid entry scan. unfold reuses, sessionStep.
  cbn [mbind option_bind default]. fold path key.
  destruct (scanResetTriggers _ _) as [isNew stripped].
  unfold bind, loadSessionStore, emit, freshEntry. cbn.
  fold (stored w path).
  destruct (stored w path !! key) as [e|] eqn:He.
  - unfold bind, Date_now, ret, randomUUID, saveSessionStore. cbn.
    destruct isNew; cbn.
    + rewrite Hw. eexists; split; [reflexivity|].
      cbn. rewrite <- app_assoc. cbn. repeat split.
    + destruct (_ <=? _); cbn; rewrite Hw;
        (eexists; split; [reflexivity|]); cbn; rewrite <- app_assoc; cbn;
        repeat split.
  - unfold bind, Date_now, ret, randomUUID, saveSessionStore. cbn.
    rewrite Hw. eexists; split; [reflexivity|].
    cbn. rewrite <- app_assoc. cbn. repeat split.
Qed.

Lemma sessionStep_unwritable sc ctx w :
  writable w (resolveStorePath (store sc)) = false ->
  exists w', sessionStep (Some sc) ctx w = (Thrown plain_error, w').
Proof.
  intros Hw. unfold sessionStep. cbn [mbind option_bind default].
  destruct (scanResetTriggers _ _) as [isNew stripped].
  unfold bind, loadSessionStore, emit, freshEntry. cbn.
  destruct (_ !! _) as [e|].
  - unfold bind, Date_now, ret, randomUUID, saveSessionStore. cbn.
    destruct (negb isNew && _); cbn; rewrite Hw; eauto.
  - unfold bind, Date_now, ret, randomUUID, saveSessionStore. cbn.
    rewrite Hw; eauto.
Qed.

(** ** Allow-list *)

Lemma respond_blocked ctx opts cfg runner sid isNew stripped allow w :
  inbound cfg ≫= allowFrom = Some allow -> allow <> [] ->
  includes allow (sender ctx) = false ->
  respond ctx opts cfg runner sid isNew stripped w =
  (Returned None, set_trace (trace w ++ [Verbose (LogSkipNotAllowed (sender ctx))]) w).
Proof.
  intros Ha Hne Hin. unfold respond, senderAllowed. rewrite Ha.
  destruct allow as [|a l]; [congruence|].
  unfold sender in Hin. rewrite Hin. reflexivity.
Qed.

(** C1 (amended): a sender absent from a configured non-empty allow-list
    never gets a reply.  The allow-list check comes after the session
    block: without a session config the resolver returns none and
    leaves the session store alone, its only effect being a log line;
    with a session config (and a writable store) it returns none after
    it has read the store and written it back with an entry for the
    sender's key. *)
Theorem allowlist_blocks_after_session ctx opts cfg runner w allow :
  inbound cfg ≫= allowFrom = Some allow -> allow <> [] ->
  includes allow (sender ctx) = false ->
  (forall t, fst (getReplyFromConfig ctx opts cfg runner w) <> Returned (Some t)) /\
  match (inbound cfg ≫= reply) ≫= session with
  | None =>
      getReplyFromConfig ctx opts cfg runner w =
      (Returned None, set_trace (trace w ++ [Verbose (LogSkipNotAllowed (sender ctx))]) w)
  | Some sc =>
      let path := resolveStorePath (store sc) in
      let key := deriveSessionKey (default PerSender (scope sc)) ctx in
      writable w path = true ->
      exists w' entry,
        getReplyFromConfig ctx opts cfg runner w = (Returned None, w') /\
        files w' = <[path := StoreFile (<[key := entry]> (stored w path))]> (files w) /\
        In (FsRead path) (trace w') /\
        In (FsWrite path (<[key := entry]> (stored w path))) (trace w')
  end.
Proof.
  intros Ha Hne Hin. split.
  - intros t. unfold getReplyFromConfig, bind.
    destruct (resolveSession _ ctx w) as [[s| |] w1]; try discriminate.
    now rewrite (respond_blocked _ _ _ _ _ _ _ allow).
  - unfold getReplyFromConfig.
    destruct ((inbound cfg ≫= reply) ≫= session) as [sc|] eqn:Hs.
    + intros Hw.
      destruct (sessionStep_returns sc ctx w Hw) as (w1 & Hstep & Hfiles & Htrace & _).
      unfold bind, resolveSession, bind, ret. rewrite Hstep. cbn [fst snd].
      rewrite (respond_blocked _ _ _ _ _ _ _ allow) by assumption.
      eexists _, _. split; [reflexivity|]. cbn [files set_trace trace].
      split; [exact Hfiles|].
      rewrite Htrace, !in_app_iff. cbn [In]. tauto.
    + unfold bind, resolveSession, ret.
      now rewrite (respond_blocked _ _ _ _ _ _ _ allow).
Qed.

(** ** Reset triggers *)

Lemma startsWith_append p r : JsString.startsWith p (p +:+ r) = true.
Proof. induction p as [|c p IH]; [reflexivity|]. str_simpl. simpl. now rewrite Ascii.eqb_refl. Qed.

Lemma startsWith_inv p : forall s,
  JsString.startsWith p s = true -> exists r, s = p +:+ r.
Proof.
  induction p as [|c p IH]; intros s Hs; [now exists s|].
  destruct s as [|d s]; [discriminate|]. simpl in Hs.
  destruct (Ascii.eqb_spec c d) as [->|]; [|discriminate].
  destruct (IH s Hs) as [r ->]. now exists r.
Qed.

Lemma slice_append p r : JsString.slice (String.length p) (p +:+ r) = r.
Proof. induction p as [|c p IH]; [reflexivity | exact IH]. Qed.

Lemma eqb_append_false t x r : String.eqb (t +:+ String x r) t = false.
Proof.
  apply String.eqb_neq. intros E. apply (f_equal String.length) in E.
  rewrite append_length in E. simpl in E. lia.
Qed.

Lemma scan_passed s t rest :
  passed s t -> scanResetTriggers s (t :: rest) = scanResetTriggers s rest.
Proof.
  intros [->|Hno]; [reflexivity|]. cbn [scanResetTriggers].
  destruct (JsString.truthy t); [|reflexivity]. cbn [negb].
  destruct (String.eqb_spec s t) as [->|_]; [exfalso; apply Hno; now left|].
  destruct (JsString.startsWith (t +:+ " ") s) eqn:Hp; [|reflexivity].
  exfalso. apply Hno. right. apply startsWith_inv in Hp as [r ->].
  exists r. now rewrite append_assoc.
Qed.

Lemma scan_exact t rest :
  t <> "" -> scanResetTriggers t (t :: rest) = (true, Some "").
Proof.
  intros Hne. cbn [scanResetTriggers].
  destruct t; [congruence|]. cbn [JsString.truthy negb].
  now rewrite String.eqb_refl.
Qed.

Lemma scan_prefix t r rest :
  t <> "" ->
  scanResetTriggers (t +:+ " " +:+ r) (t :: rest) = (true, Some (JsString.trimStart r)).
Proof.
  intros Hne. cbn [scanResetTriggers].
  destruct (JsString.truthy t) eqn:Ht; [|destruct t; [congruence | discriminate]].
  cbn [negb]. str_simpl. rewrite eqb_append_false.
  change (String " " r) with (" " +:+ r). rewrite <- append_assoc.
  rewrite startsWith_append, append_assoc, slice_append. reflexivity.
Qed.

Lemma scan_all_passed s triggers :
  Forall (passed s) triggers -> scanResetTriggers s triggers = (false, None).
Proof.
  induction 1 as [|t rest Ht _ IH]; [reflexivity|]. now rewrite scan_passed.
Qed.

Lemma scan_first s pre t post :
  Forall (passed s) pre ->
  scanResetTriggers s (pre ++ t :: post) = scanResetTriggers s (t :: post).
Proof.
  induction 1 as [|u pre Hu _ IH]; [reflexivity|].
  rewrite <- app_comm_cons. now rewrite scan_passed.
Qed.

(** C3 (amended): the reset triggers are scanned in order, empty
    triggers are skipped, and the body is compared after trimming.  For
    the first non-empty trigger that the trimmed body equals, or starts
    with followed by a space, [isNewSession] is true and [bodyStripped]
    is the remainder after the trigger without its leading white space,
    the empty string for an exact match; when no non-empty trigger
    matches, [bodyStripped] stays unset. *)
Theorem reset_trigger_first_match sc ctx w :
  let trimmed := JsString.trim (default "" (Body ctx)) in
  let triggers := effectiveResetTriggers (Some sc) in
  writable w (resolveStorePath (store sc)) = true ->
  exists sid isNew stripped w',
    sessionStep (Some sc) ctx w = (Returned (sid, isNew, stripped), w') /\
    (forall pre t post,
        triggers = (pre ++ t :: post)%list -> Forall (passed trimmed) pre -> t <> "" ->
        (trimmed = t -> isNew = true /\ stripped = Some "") /\
        (forall r, trimmed = t +:+ " " +:+ r ->
                   isNew = true /\ stripped = Some (JsString.trimStart r))) /\
    (Forall (passed trimmed) triggers -> stripped = None).
Proof.
  intros trimmed triggers Hw.
  destruct (sessionStep_returns sc ctx w Hw) as (w' & Hstep & _).
  eexists _, _, _, w'. split; [exact Hstep|].
  fold trimmed triggers. unfold reuses. fold trimmed triggers.
  split.
  - intros pre t post -> Hpre Hne. rewrite scan_first by assumption. split.
    + intros Et. rewrite Et, scan_exact by assumption. cbn.
      split; [now destruct (_ !! _) | reflexivity].
    + intros r Et. rewrite Et, scan_prefix by assumption. cbn.
      split; [now destruct (_ !! _) | reflexivity].
  - intros Hall. now rewrite scan_all_passed.
Qed.

(** ** Idle expiry and reuse *)

(** C2 (amended): in a session resolution the stored entry counts as
    fresh only if [now - updatedAt <= max(idleMinutes ?? 60, 1) * 60000],
    [idleMinutes] being the configured value: the window is the
    configured number of minutes when that is at least one, one minute
    when it is less, sixty minutes when none is configured.  With no
    reset trigger matched and a fresh entry, its [sessionId] is reused
    verbatim; with a stale entry, no entry, or a reset, the next UUID of
    the generator is taken and [isNewSession] is true, so an entry older
    than that window is never reused.  The chosen id is persisted. *)
Theorem session_reuse_iff_fresh sc ctx w :
  let path := resolveStorePath (store sc) in
  let key := deriveSessionKey (default PerSender (scope sc)) ctx in
  let reset := fst (scanResetTriggers (JsString.trim (default "" (Body ctx)))
                      (effectiveResetTriggers (Some sc))) in
  let idleMs := Z.max (default 60 (idleMinutes sc)) 1 * 60000 in
  let now := clock w (clock_reads w) in
  let entry := stored w path !! key in
  writable w path = true ->
  exists sid isNew stripped w',
    sessionStep (Some sc) ctx w = (Returned (sid, isNew, stripped), w') /\
    (forall e, entry = Some e -> reset = false -> now - updatedAt e <= idleMs ->
               sid = sessionId e /\ isNew = false /\ uuid_draws w' = uuid_draws w) /\
    (reset = true \/ entry = None \/
     (exists e, entry = Some e /\ idleMs < now - updatedAt e) ->
     sid = uuids w (uuid_draws w) /\ isNew = true /\ uuid_draws w' = S (uuid_draws w)) /\
    (exists saved, stored w' path !! key = Some {| sessionId := sid; updatedAt := saved |}).
Proof.
  intros path key reset idleMs now entry Hw.
  destruct (sessionStep_returns sc ctx w Hw) as (w' & Hstep & Hfiles & _ & Hdraws).
  eexists _, _, _, w'. split; [exact Hstep|].
  fold path key entry in Hfiles, Hdraws |- *.
  assert (Hre : reuses sc ctx w =
                match entry with
                | Some e => negb reset && (now - updatedAt e <=? idleMs)
                | None => false
                end) by reflexivity.
  split; [|split].
  - intros e He Hreset Hfresh. rewrite He in Hre |- *.
    rewrite Hreset in Hre. apply Z.leb_le in Hfresh. rewrite Hfresh in Hre.
    rewrite Hdraws, Hre. repeat split.
  - intros Hcase.
    assert (reuses sc ctx w = false) as Hno.
    { rewrite Hre. destruct Hcase as [Hr | [Hn | (e & He & Hstale)]].
      - rewrite Hr. now destruct entry.
      - now rewrite Hn.
      - rewrite He. apply Z.leb_gt in Hstale. rewrite Hstale. apply andb_false_r. }
    rewrite Hdraws, Hno. destruct entry; repeat split.
  - unfold stored at 1. rewrite Hfiles. rewrite lookup_insert_eq.
    rewrite lookup_insert_eq. eauto.
Qed.

(** ** Clamped limits *)

(** C10: the resolver clamps its limits to at least one unit.  The
    runner only ever sees the timeout [max(timeoutSeconds ?? 600, 1)]
    seconds, which is at least one second; the idle window against
    which a stored entry is judged is [max(idleMinutes ?? 60, 1)]
    minutes, which is at least one minute, so a configured zero or
    negative value disables neither. *)
Theorem limits_clamped :
  (forall ctx opts cfg runner w,
      let seconds := Z.max (default 600 ((inbound cfg ≫= reply) ≫= timeoutSeconds)) 1 in
      1 <= seconds /\
      getReplyFromConfig ctx opts cfg runner w =
      getReplyFromConfig ctx opts cfg (fun argv _ => runner argv (seconds * 1000)) w) /\
  (forall sc ctx w e,
      let path := resolveStorePath (store sc) in
      let key := deriveSessionKey (default PerSender (scope sc)) ctx in
      let minutes := Z.max (default 60 (idleMinutes sc)) 1 in
      let age := clock w (clock_reads w) - updatedAt e in
      writable w path = true ->
      stored w path !! key = Some e ->
      fst (scanResetTriggers (JsString.trim (default "" (Body ctx)))
             (effectiveResetTriggers (Some sc))) = false ->
      1 <= minutes /\
      exists sid isNew stripped w',
        sessionStep (Some sc) ctx w = (Returned (sid, isNew, stripped), w') /\
        (age <= minutes * 60000 -> sid = sessionId e /\ isNew = false) /\
        (minutes * 60000 < age -> sid = uuids w (uuid_draws w) /\ isNew = true)).
Proof.
  split.
  - intros ctx opts cfg runner w seconds. split; [subst seconds; lia|].
    reflexivity.
  - intros sc ctx w e path key minutes age Hw He Hreset.
    split; [subst minutes; lia|].
    destruct (sessionStep_returns sc ctx w Hw) as (w' & Hstep & _).
    fold path key in Hstep. rewrite He in Hstep.
    eexists _, _, _, w'. split; [exact Hstep|].
    assert (Hre : reuses sc ctx w = (age <=? minutes * 60000)).
    { unfold reuses. fold path key. rewrite He, Hreset. reflexivity. }
    rewrite Hre. split; intros Hage.
    + apply Z.leb_le in Hage. now rewrite Hage.
    + apply Z.leb_gt in Hage. now rewrite Hage.
Qed.

(** ** Command mode *)

Lemma handleResult_fst res w : fst (handleResult res w) = Returned (replyOf res).
Proof.
  unfold handleResult, replyOf, bind, logVerbose, console_error, emit, Date_now, ret.
  destruct (JsString.truthy (JsString.trim (stderr res))); cbn;
    destruct (negb (default 0 (code res) =? 0)); cbn; try reflexivity;
    destruct (killed res && negb (truthy_opt (signal res))); reflexivity.
Qed.

Lemma handleError_returns T e w :
  exists w' l, handleError T e w = (Returned None, w') /\
               trace w' = (l ++ [ConsoleError (if
                 match err_killed e with Some true => true | _ => false end
                 || match err_signal e with
                    | Some s => String.eqb s "SIGKILL" | None => false end
                 then LogTimedOut T else LogFailed)])%list.
Proof.
  unfold handleError, bind, logVerbose, console_error, emit, Date_now, ret.
  destruct (err_stderr e) as [x|]; [destruct (JsString.truthy (JsString.trim x))|];
    cbn; destruct (_ || _); cbn; eauto.
Qed.

(** What [runReply] does, by what the runner does when it is called. *)
Lemma runReply_cases runner argv T w :
  let w0 := set_trace (trace w ++ [RunCommand argv T]) w in
  match runner argv T w0 with
  | (Returned res, _) => fst (runReply runner argv T w) = Returned (replyOf res)
  | (Thrown e, w2) => runReply runner argv T w = handleError T e w2
  | (Pending, w2) => runReply runner argv T w = (Pending, w2)
  end.
Proof.
  unfold runReply, try_catch, bind, emit. cbn.
  destruct (runner argv T _) as [[res|e|] w2]; try reflexivity.
  pose proof (handleResult_fst res w2) as Hres.
  destruct (handleResult res w2) as [[o|e|] w3]; cbn in *; congruence.
Qed.

Lemma resolveSession_returns cfg ctx w :
  session_ok cfg w ->
  exists s w1, resolveSession ((inbound cfg ≫= reply) ≫= session) ctx w = (Returned s, w1).
Proof.
  unfold session_ok, resolveSession.
  destruct ((inbound cfg ≫= reply) ≫= session) as [sc|]; intros Hok.
  - destruct (sessionStep_returns sc ctx w Hok) as (w1 & Hstep & _).
    unfold bind. rewrite Hstep. unfold ret. eauto.
  - unfold ret. eauto.
Qed.

(** In command mode, with the sender allowed, the session block and the
    [onReplyStart] callback returning, the resolver reaches the command. *)
Lemma getReplyFromConfig_command ctx opts cfg runner w r c0 cs :
  inbound cfg ≫= reply = Some r -> mode r = ModeCommand -> command r = Some (c0 :: cs) ->
  senderAllowed cfg ctx = true -> session_ok cfg w ->
  (forall w0, exists w1, replyStart opts w0 = (Returned tt, w1)) ->
  exists argv w1,
    getReplyFromConfig ctx opts cfg runner w =
    runReply runner argv (effectiveTimeoutMs (Some r)) w1.
Proof.
  intros Hr Hmode Hcmd Hallow Hok Hcb.
  destruct (resolveSession_returns cfg ctx w Hok) as (s & w1 & Hs).
  unfold getReplyFromConfig, bind. rewrite Hs.
  unfold respond. rewrite Hallow, Hr, Hmode, Hcmd. cbn [negb].
  unfold bind. destruct (Hcb w1) as [w2 Hw2]. rewrite Hw2.
  unfold logVerbose, emit, Date_now. eauto.
Qed.

(** *** The runner's handlers *)

Lemma runner_data evs : forall st,
  forallb is_data evs = true ->
  let st' := fold_left runner_handle evs st in
  r_settled st' = r_settled st /\ r_timer st' = r_timer st /\
  r_killed st' = r_killed st /\ r_promise st' = r_promise st.
Proof.
  induction evs as [|ev evs IH]; intros st Hd; [now repeat split|].
  cbn [forallb] in Hd. apply andb_true_iff in Hd as [Hev Hd].
  cbn [fold_left]. destruct (IH (runner_handle st ev) Hd) as (-> & -> & -> & ->).
  destruct ev; try discriminate; now repeat split.
Qed.

Lemma runner_settled evs : forall st,
  r_settled st = true ->
  r_promise (fold_left runner_handle evs st) = r_promise st.
Proof.
  induction evs as [|ev evs IH]; intros st Hs; [reflexivity|].
  cbn [fold_left].
  assert (r_settled (runner_handle st ev) = true /\
          r_promise (runner_handle st ev) = r_promise st) as [Hs' <-].
  { destruct ev; cbn; rewrite ?Hs; try now split.
    destruct (r_timer st); now split. }
  now apply IH.
Qed.

Lemma runner_killed_at_timeout w argv T pre post code signal rest :
  children w argv T = (pre ++ TimerFired true :: post ++ ChildClose code signal :: rest)%list ->
  forallb is_data pre = true -> forallb is_data post = true ->
  exists out err,
    runCommandWithTimeout argv T w =
    (Returned {| stdout := out; stderr := err; code := code; signal := signal;
                 killed := true |}, w).
Proof.
  intros Hev Hpre Hpost. unfold runCommandWithTimeout. rewrite Hev.
  rewrite fold_left_app. cbn [fold_left].
  destruct (runner_data pre runner_init Hpre) as (Hs & Ht & Hk & _).
  set (st1 := fold_left runner_handle pre runner_init) in *.
  assert (Hst2 : runner_handle st1 (TimerFired true) =
                 {| r_stdout := r_stdout st1; r_stderr := r_stderr st1;
                    r_settled := false; r_timer := false; r_killed := true;
                    r_promise := r_promise st1 |}).
  { cbn. rewrite Ht, Hk, Hs. reflexivity. }
  rewrite Hst2, fold_left_app. cbn [fold_left].
  match goal with |- context [fold_left runner_handle post ?s] =>
    destruct (runner_data post s Hpost) as (Hs3 & _ & Hk3 & _);
    set (st3 := fold_left runner_handle post s) in *
  end.
  cbn in Hs3, Hk3.
  rewrite runner_settled by (cbn; now rewrite Hs3).
  cbn. rewrite Hs3, Hk3. cbn. eauto.
Qed.

(** What the two guards of the result path let through.  In command
    mode, once the command has been run, a non-zero exit code makes
    resolution return none; a command that outlives the timeout is
    killed and its result has [killed = true]; the second guard is
    [killed && !signal], so a result with [killed = true] and no signal
    makes resolution return none, and every other result with exit code
    zero or none goes on to the trimmed standard output; a runner that
    throws yields none. *)
Theorem command_reply_outcome ctx opts cfg runner w r c0 cs :
  inbound cfg ≫= reply = Some r -> mode r = ModeCommand -> command r = Some (c0 :: cs) ->
  senderAllowed cfg ctx = true -> session_ok cfg w ->
  (forall w0, exists w1, replyStart opts w0 = (Returned tt, w1)) ->
  let T := effectiveTimeoutMs (Some r) in
  let out := fst (getReplyFromConfig ctx opts cfg runner w) in
  (exists argv w1,
    (forall res w2, runner argv T w1 = (Returned res, w2) ->
       (forall c, code res = Some c -> c <> 0 -> out = Returned None) /\
       (killed res = true -> truthy_opt (signal res) = false -> out = Returned None) /\
       (code res = None \/ code res = Some 0 ->
        killed res = false \/ truthy_opt (signal res) = true ->
        out = Returned (if JsString.truthy (JsString.trim (stdout res))
                        then Some (JsString.trim (stdout res)) else None))) /\
    (forall e w2, runner argv T w1 = (Thrown e, w2) -> out = Returned None)) /\
  (forall w0 argv pre post exit_code exit_signal rest,
      children w0 argv T =
        (pre ++ TimerFired true :: post ++ ChildClose exit_code exit_signal :: rest)%list ->
      forallb is_data pre = true -> forallb is_data post = true ->
      exists res, runCommandWithTimeout argv T w0 = (Returned res, w0) /\
                  killed res = true /\ code res = exit_code /\ signal res = exit_signal).
Proof.
  intros Hr Hmode Hcmd Hallow Hok Hcb T out. split.
  - destruct (getReplyFromConfig_command ctx opts cfg runner w r c0 cs
                Hr Hmode Hcmd Hallow Hok Hcb) as (argv & w1 & Hrun).
    exists argv, (set_trace (trace w1 ++ [RunCommand argv T]) w1).
    pose proof (runReply_cases runner argv T w1) as Hcases. cbv zeta in Hcases.
    subst out. rewrite Hrun. fold T. split.
    + intros res w2 Hres. rewrite Hres in Hcases. rewrite Hcases.
      unfold replyOf. split; [|split].
      * intros c Hc Hnz. rewrite Hc. cbn.
        destruct (Z.eqb_spec c 0); [contradiction | reflexivity].
      * intros Hk Hsig. rewrite Hk, Hsig. cbn.
        now destruct (negb _).
      * intros Hcode Hlive.
        assert (negb (default 0 (code res) =? 0) = false) as ->
          by (destruct Hcode as [-> | ->]; reflexivity).
        assert (killed res && negb (truthy_opt (signal res)) = false) as ->
          by (destruct Hlive as [-> | ->]; [reflexivity | apply andb_false_r]).
        reflexivity.
    + intros e w2 He. rewrite He in Hcases. rewrite Hcases.
      destruct (handleError_returns T e w2) as (w3 & l & -> & _). reflexivity.
  - intros w0 argv pre post exit_code exit_signal rest Hev Hpre Hpost.
    destruct (runner_killed_at_timeout w0 argv T pre post exit_code exit_signal rest
                Hev Hpre Hpost)
      as (o & e & ->).
    eexists. split; [reflexivity|]. now repeat split.
Qed.

(** ** Exceptions *)


End ResolverFacts.

(** ** Poll loop *)

Lemma insertByDate_Forall (P : MessageInstance -> Prop) m l :
  P m -> Forall P l -> Forall P (insertByDate m l).
Proof.
  intros Hm. induction 1 as [|x l Hx Hl IH]; cbn [insertByDate].
  - now repeat constructor.
  - destruct (createdTime m <=? createdTime x); repeat constructor; assumption.
Qed.

Lemma insertByDate_sorted m l :
  StronglySorted by_date l -> StronglySorted by_date (insertByDate m l).
Proof.
  induction 1 as [|x l Hl IH Hx]; cbn [insertByDate].
  - repeat constructor.
  - destruct (Z.leb_spec (createdTime m) (createdTime x)) as [Hle|Hgt].
    + constructor; [now constructor|]. constructor; [exact Hle|].
      eapply Forall_impl; [exact Hx|]. unfold by_date. intros y. cbn. lia.
    + constructor; [exact IH|]. apply insertByDate_Forall; [|exact Hx].
      unfold by_date. lia.
Qed.

Lemma sortByDate_sorted l : StronglySorted by_date (sortByDate l).
Proof.
  induction l as [|m l IH]; [constructor|]. now apply insertByDate_sorted.
Qed.

Lemma sublist_In {A} (sub l : list A) y : sublist sub l -> In y sub -> In y l.
Proof.
  induction 1 as [|x l1 l2 _ IH|x l1 l2 _ IH]; cbn [In]; [tauto | | ].
  - intros [->|Hy]; [now left | right; now apply IH].
  - intros Hy. right. now apply IH.
Qed.

Lemma sorted_sublist (sub l : list MessageInstance) :
  sublist sub l -> StronglySorted by_date l -> StronglySorted by_date sub.
Proof.
  induction 1 as [|x l1 l2 Hsub IH|x l1 l2 Hsub IH]; intros Hs.
  - constructor.
  - apply StronglySorted_inv in Hs as [Hs Hx]. constructor; [now apply IH|].
    rewrite Forall_forall in Hx |- *. intros y Hy. apply Hx.
    apply list_elem_of_In. apply list_elem_of_In in Hy.
    now apply (sublist_In l1 l2).
  - apply StronglySorted_inv in Hs as [Hs _]. now apply IH.
Qed.

Lemma sorted_times l :
  StronglySorted by_date l -> StronglySorted Z.le (map createdTime l).
Proof.
  induction 1 as [|x l Hl IH Hx]; cbn [map]; constructor; [exact IH|].
  clear Hl IH. induction Hx as [|y l Hy _ IH]; cbn [map]; constructor; assumption.
Qed.

(** What the [for] loop adds to the calls: a sublist of the messages it
    walks over, none seen before, no id twice, all seen afterwards. *)
Lemma visit_fold l : forall since0 (seen0 : gset string) calls0,
  exists since' seen' new,
    fold_left visit l (since0, seen0, calls0) = (since', seen', (calls0 ++ new)%list) /\
    sublist new l /\
    NoDup (map sid new) /\
    (forall m, In m new -> sid m ∉ seen0) /\
    (forall x, x ∈ seen' <-> x ∈ seen0 \/ In x (map sid new)).
Proof.
  induction l as [|m l IH]; intros since0 seen0 calls0.
  - exists since0, seen0, []. rewrite app_nil_r. cbn.
    repeat split; [constructor | constructor | tauto | tauto | tauto].
  - cbn [fold_left]. unfold visit at 2.
    destruct (decide (sid m ∈ seen0)) as [Hin|Hnew].
    + destruct (IH since0 seen0 calls0) as (s' & seen' & new & Hf & Hsub & Hnd & Hfresh & Hseen).
      exists s', seen', new. repeat split; try assumption; try apply Hseen.
      now constructor.
    + destruct (IH (updateSince (dateCreated m) since0) ({[sid m]} ∪ seen0) (calls0 ++ [m])%list)
        as (s' & seen' & new & Hf & Hsub & Hnd & Hfresh & Hseen).
      exists s', seen', (m :: new). rewrite Hf, <- app_assoc. cbn [app map].
      split; [reflexivity|]. split; [now constructor|]. split.
      { constructor; [|exact Hnd]. intros Hm. apply list_elem_of_In in Hm.
        apply in_map_iff in Hm as (y & Hy & Hyin).
        apply (Hfresh y Hyin). rewrite Hy.
        apply elem_of_union. left. now apply elem_of_singleton. }
      split.
      { intros y [<-|Hy]; [exact Hnew|]. intros Hc.
        apply (Hfresh y Hy), elem_of_union. now right. }
      intros x. rewrite Hseen, elem_of_union, elem_of_singleton. cbn [In].
      split; [intros [[->|?]|?] | intros [?|[<-|?]]]; tauto.
Qed.

Lemma pollBatch_calls messages st :
  exists new,
    dispatched (pollBatch messages st) = (dispatched st ++ [new])%list /\
    sublist new (sortByDate (filter (fun m => String.eqb (direction m) "inbound") messages)) /\
    NoDup (map sid new) /\
    (forall m, In m new -> sid m ∉ seen st) /\
    (forall x, x ∈ seen (pollBatch messages st) <-> x ∈ seen st \/ In x (map sid new)).
Proof.
  unfold pollBatch.
  destruct (visit_fold
              (sortByDate (filter (fun m => String.eqb (direction m) "inbound") messages))
              (since st) (seen st) [])
    as (s' & seen' & new & Hf & Hsub & Hnd & Hfresh & Hseen).
  rewrite Hf. cbn. exists new. repeat split; try assumption; apply Hseen.
Qed.

Lemma pollBatch_inv messages st : monitor_inv st -> monitor_inv (pollBatch messages st).
Proof.
  intros (Hsorted & Hnd & Hseen).
  destruct (pollBatch_calls messages st) as (new & Hd & Hsub & Hndnew & Hfresh & Hseen').
  unfold monitor_inv. rewrite Hd, concat_app. cbn [concat]. rewrite app_nil_r.
  split; [|split].
  - apply Forall_app; split; [exact Hsorted|]. constructor; [|constructor].
    apply sorted_times. eapply sorted_sublist; [exact Hsub | apply sortByDate_sorted].
  - rewrite map_app. apply NoDup_app. split; [exact Hnd|]. split; [|exact Hndnew].
    intros x Hx Hx'. apply list_elem_of_In in Hx, Hx'.
    apply in_map_iff in Hx as (m & <- & Hm). apply in_map_iff in Hx' as (m' & Hs & Hm').
    apply (Hfresh m' Hm'). rewrite Hs. now apply Hseen.
  - intros m Hm. apply Hseen'. apply in_app_or in Hm as [Hm|Hm].
    + left. now apply Hseen.
    + right. now apply in_map.
Qed.

Lemma monitorLoop_inv env n : forall i st,
  monitor_inv st -> monitor_inv (monitorLoop env n i st).
Proof.
  induction n as [|n IH]; intros i st Hinv; [exact Hinv|].
  cbn [monitorLoop]. destruct (interrupted env i); [exact Hinv|].
  apply IH. unfold pollOnce.
  destruct (listMessages env i (since st)); [now apply pollBatch_inv | exact Hinv].
Qed.

(** C7: in the poll ingestor every batch of calls to the reply path is
    in non-decreasing creation-time order (a message without a creation
    date counting as time 0, as in the sort), no message id is dispatched
    twice in a run, and a message whose id is already in the dedup set is
    not dispatched again when a later fetch returns it. *)
Theorem poll_dispatch_ordered_once :
  (forall env lookbackMinutes now maxIterations,
      let st := monitorTwilio env lookbackMinutes now maxIterations in
      Forall (fun batch => StronglySorted Z.le (map createdTime batch)) (dispatched st) /\
      NoDup (map sid (concat (dispatched st)))) /\
  (forall messages st,
      exists batch,
        dispatched (pollBatch messages st) = (dispatched st ++ [batch])%list /\
        StronglySorted Z.le (map createdTime batch) /\
        forall m, sid m ∈ seen st -> ~ In m batch).
Proof.
  split.
  - intros env lookbackMinutes now maxIterations st.
    assert (Hinv : monitor_inv st).
    { apply monitorLoop_inv. unfold monitor_inv. cbn.
      repeat split; [constructor | constructor | tauto]. }
    destruct Hinv as (Hs & Hnd & _). now split.
  - intros messages st.
    destruct (pollBatch_calls messages st) as (new & Hd & Hsub & _ & Hfresh & _).
    exists new. split; [exact Hd|]. split.
    + apply sorted_times. eapply sorted_sublist; [exact Hsub | apply sortByDate_sorted].
    + intros m Hin Hm. now apply (Hfresh m Hm).
Qed.

(** ** Webhook update *)

Section UpdateWebhookFacts.
Variable client : TwilioClient.
Variable whatsappFrom : string.

(** The first strategy that succeeds ends the chain; when all fail the
    chain ends in [Exit 1]. *)
Lemma firstSuccess_chain l : forall h,
  (exists pre strategy post done h1,
      l = (pre ++ strategy :: post)%list /\ falls_through pre h h1 /\
      strategy h1 = (Some (Some done), snd (firstSuccess l h)) /\
      fst (firstSuccess l h) = done) \/
  (falls_through l h (snd (firstSuccess l h)) /\ fst (firstSuccess l h) = Exit 1).
Proof.
  induction l as [|s l IH]; intros h.
  - right. split; [constructor | reflexivity].
  - cbn [firstSuccess]. destruct (s h) as [r h1] eqn:Hs.
    assert (Hfail : (forall done, r <> Some (Some done)) ->
      (exists pre strategy post done h2,
          s :: l = (pre ++ strategy :: post)%list /\ falls_through pre h h2 /\
          strategy h2 = (Some (Some done), snd (firstSuccess l h1)) /\
          fst (firstSuccess l h1) = done) \/
      (falls_through (s :: l) h (snd (firstSuccess l h1)) /\
       fst (firstSuccess l h1) = Exit 1)).
    { intros Hr. destruct (IH h1) as [(pre & s' & post & done & h2 & -> & Hft & Hrun & Hres)
                                     | [Hft Hres]].
      - left. exists (s :: pre), s', post, done, h2.
        split; [reflexivity|]. split; [|now split]. econstructor; eassumption.
      - right. split; [|exact Hres]. econstructor; eassumption. }
    destruct r as [[done|]|]; try (apply Hfail; congruence).
    left. exists [], s, l, done, h. cbn. repeat split; [constructor | exact Hs].
Qed.

Lemma firstSuccess_cons strategy rest h :
  firstSuccess (strategy :: rest) h =
  match strategy h with
  | (Some (Some done), h') => (done, h')
  | (_, h') => firstSuccess rest h'
  end.
Proof. reflexivity. Qed.

Lemma grows_ret {A} (a : A) : grows (api_ret a).
Proof. intros h. exists []. cbn. now rewrite app_nil_r. Qed.

Lemma grows_bind {A B} (m : Api A) (k : A -> Api B) :
  grows m -> (forall a, grows (k a)) -> grows (api_bind m k).
Proof.
  intros Hm Hk h. unfold api_bind. destruct (Hm h) as [e1 He1].
  destruct (m h) as [[a|] h1]; cbn in He1; subst h1; [|now exists e1].
  destruct (Hk a (h ++ e1)%list) as [e2 He2]. exists (e1 ++ e2)%list.
  now rewrite He2, app_assoc.
Qed.

Lemma grows_try {A} (m : Api A) (d : A) : grows m -> grows (api_try m d).
Proof.
  intros Hm h. unfold api_try. destruct (Hm h) as [e He].
  destruct (m h) as [[a|] h1]; cbn in *; eauto.
Qed.

Lemma grows_send answer c : grows (send answer c).
Proof. intros h. now exists [c]. Qed.

Lemma grows_fetch sid0 : grows (fetchStoredUrl client sid0).
Proof.
  intros h. unfold fetchStoredUrl.
  destruct (channelsSenders client); [|exists []; cbn; now rewrite app_nil_r].
  destruct (fetch_sender client h sid0); now exists [FetchSender sid0].
Qed.

Lemma rawRequest_history write sid0 h :
  exists e, snd (rawRequestStrategy client write sid0 h) = (h ++ write :: e)%list.
Proof.
  unfold rawRequestStrategy, api_try, api_bind, send, fetchStoredUrl, api_ret.
  destruct (post_sender client h write); [|now exists []].
  destruct (channelsSenders client); [|now exists []].
  destruct (fetch_sender client (h ++ [write]) sid0);
    cbn [snd]; rewrite <- app_assoc; eauto.
Qed.

Lemma grows_strategies sid0 url method :
  Forall grows (strategies client whatsappFrom sid0 url method).
Proof.
  unfold strategies. repeat constructor.
  - apply grows_try, grows_bind; [apply grows_send|]. intros _.
    apply grows_bind; [apply grows_fetch|]. intros u. apply grows_ret.
  - apply grows_try, grows_bind; [apply grows_send|]. intros _.
    apply grows_bind; [apply grows_fetch|]. intros u. apply grows_ret.
  - apply grows_try. unfold helperStrategy.
    destruct (channelsSenders client); [|apply grows_ret].
    apply grows_bind; [apply grows_send|]. intros _.
    apply grows_bind; [apply grows_fetch|]. intros u. apply grows_ret.
  - apply grows_try, grows_bind.
    + intros h. now exists [ListIncomingNumbers (phone whatsappFrom) 2].
    + intros [p|]; [|apply grows_ret].
      destruct (JsString.truthy p); [|apply grows_ret].
      apply grows_bind; [apply grows_send|]. intros _. apply grows_ret.
  - apply grows_bind; [|intros ok; apply grows_ret].
    apply grows_bind.
    + intros h. now exists [ListIncomingNumbers (phone whatsappFrom) 1].
    + intros [m|]; [|apply grows_ret].
      destruct (JsString.truthy m); [|apply grows_ret].
      apply grows_try, grows_bind; [apply grows_send|]. intros _.
      apply grows_bind; [|intros _; apply grows_ret].
      intros h. destruct (fetch_service client h m); now exists [FetchService m].
Qed.

Lemma grows_firstSuccess l : Forall grows l ->
  forall h, exists ext, snd (firstSuccess l h) = (h ++ ext)%list.
Proof.
  induction 1 as [|s l Hs _ IH]; intros h.
  - exists []. cbn. now rewrite app_nil_r.
  - cbn [firstSuccess]. destruct (Hs h) as [e1 He1].
    destruct (s h) as [r h1]. cbn in He1. subst h1.
    destruct (IH (h ++ e1)%list) as [e2 He2].
    destruct r as [[done|]|]; cbn.
    + now exists e1.
    + exists (e1 ++ e2)%list. now rewrite He2, app_assoc.
    + exists (e1 ++ e2)%list. now rewrite He2, app_assoc.
Qed.

(** C8 (amended): [updateWebhook] tries a fixed sequence of five
    strategies, each starting from the requests the failed ones before
    it have sent, and stops at the first that succeeds; when all five
    fail it ends in [runtime.exit(1)].  The read-back of strategy 1 is
    not compared with the intended URL: any non-empty stored URL ends
    the chain after the write and the fetch, and only a read-back
    without a stored URL makes the next strategy, the form-encoded
    request, go out. *)
Theorem webhook_fallback_chain senderSid url method :
  let chain := strategies client whatsappFrom senderSid url method in
  let write := PostSenderJson senderSid url method in
  let result := updateWebhook client whatsappFrom senderSid url method in
  ((exists pre strategy post done h1,
       chain = (pre ++ strategy :: post)%list /\ falls_through pre [] h1 /\
       strategy h1 = (Some (Some done), snd result) /\ fst result = done) \/
   (falls_through chain [] (snd result) /\ fst result = Exit 1)) /\
  (forall fetched stored,
      post_sender client [] write = true -> channelsSenders client = true ->
      fetch_sender client [write] senderSid = Some fetched ->
      js_or (fetched ≫= callback_url) (fetched ≫= fallback_url) = Some stored ->
      stored <> "" ->
      result = (SenderWebhookSet stored, [write; FetchSender senderSid])) /\
  (forall fetched,
      post_sender client [] write = true -> channelsSenders client = true ->
      fetch_sender client [write] senderSid = Some fetched ->
      truthy_opt (js_or (fetched ≫= callback_url) (fetched ≫= fallback_url)) = false ->
      exists later,
        snd result =
        ([write; FetchSender senderSid; PostSenderForm senderSid url method] ++ later)%list).
Proof.
  intros chain write result. split; [|split].
  - apply firstSuccess_chain.
  - intros fetched stored Hpost Hapi Hfetch Hstored Hne.
    subst result. unfold updateWebhook, strategies. rewrite firstSuccess_cons.
    unfold rawRequestStrategy at 1, api_try, api_bind, send, fetchStoredUrl, api_ret.
    fold write. rewrite Hpost, Hapi. cbn [app]. rewrite Hfetch, Hstored.
    destruct stored; [congruence | reflexivity].
  - intros fetched Hpost Hapi Hfetch Hnone.
    subst result. unfold updateWebhook, strategies. rewrite firstSuccess_cons.
    unfold rawRequestStrategy at 1, api_try, api_bind, send, fetchStoredUrl, api_ret.
    fold write. rewrite Hpost, Hapi. cbn [app]. rewrite Hfetch.
    assert (Hno : match js_or (fetched ≫= callback_url) (fetched ≫= fallback_url) with
                  | Some u => if JsString.truthy u then Some (SenderWebhookSet u) else None
                  | None => None
                  end = None).
    { destruct (js_or _ _) as [u|]; [|reflexivity]. cbn in Hnone. now rewrite Hnone. }
    rewrite Hno, firstSuccess_cons.
    set (h1 := [write; FetchSender senderSid]).
    destruct (rawRequest_history (PostSenderForm senderSid url method) senderSid h1)
      as [e He].
    destruct (rawRequestStrategy client (PostSenderForm senderSid url method) senderSid h1)
      as [r h2]. cbn [snd] in He. subst h2.
    assert (Hrest : Forall grows
              [helperStrategy client senderSid url method;
               phoneStrategy client whatsappFrom url method;
               serviceStrategy client whatsappFrom url method]).
    { pose proof (grows_strategies senderSid url method) as Hall.
      unfold strategies in Hall.
      now apply Forall_inv_tail, Forall_inv_tail in Hall. }
    destruct (grows_firstSuccess _ Hrest
                (h1 ++ PostSenderForm senderSid url method :: e)%list) as [e2 He2].
    destruct r as [[done|]|].
    + exists e. reflexivity.
    + exists (e ++ e2)%list. rewrite He2. subst h1. cbn.
      rewrite <- ?app_assoc. reflexivity.
    + exists (e ++ e2)%list. rewrite He2. subst h1. cbn.
      rewrite <- ?app_assoc. reflexivity.
Qed.

End UpdateWebhookFacts.

(** * Worked instances *)

Section Instances.
Local Existing Instance Sample.helpers.

(** ** Template engine *)



(** ** Allow-list *)

(** A sender outside the allow-list, sessions configured: the resolver
    returns none, but only after it has read the session store and
    written an entry for the sender into it. *)
Lemma allowlist_store_touched :
  let ctx := Sample.message "+1999" "hi" in
  let cfg := Sample.config (Some ["+1555"])
               (Some (Sample.text_reply "echo {{Body}}" (Some (Sample.sessions None None)))) in
  let w := Sample.world ∅ 5000 in
  let r := getReplyFromConfig ctx None cfg runCommandWithTimeout w in
  includes ["+1555"] (sender ctx) = false /\
  fst r = Returned None /\
  In (FsRead Sample.store_path) (trace (snd r)) /\
  files w !! Sample.store_path = None /\
  files (snd r) !! Sample.store_path =
    Some (StoreFile {[ "+1999" := {| sessionId := "uuid-0"; updatedAt := 5000 |} ]}).
Proof. vm_compute. repeat split. now left. Qed.

Lemma allowlist_blocks_after_session_witness :
  let ctx := Sample.message "+1999" "hi" in
  let cfg := Sample.config (Some ["+1555"]) (Some (Sample.text_reply "echo {{Body}}" None)) in
  let w := Sample.world ∅ 5000 in
  includes ["+1555"] (sender ctx) = false /\
  getReplyFromConfig ctx None cfg runCommandWithTimeout w =
  (Returned None, set_trace (trace w ++ [Verbose (LogSkipNotAllowed (sender ctx))]) w).
Proof.
  intros ctx cfg w. split; [reflexivity|].
  exact (proj2 (allowlist_blocks_after_session ctx None cfg runCommandWithTimeout w
                  ["+1555"] eq_refl ltac:(discriminate) eq_refl)).
Defined.

(** ** Sessions *)

Lemma session_reuse_iff_fresh_witness :
  let sc := Sample.sessions None None in
  let ctx := Sample.message "+1555" "hello" in
  let w := Sample.world (Sample.one_session "+1555" "abc" 1000) 5000 in
  writable w (resolveStorePath (store sc)) = true /\
  exists sid isNew stripped w',
    sessionStep (Some sc) ctx w = (Returned (sid, isNew, stripped), w') /\
    sid = "abc" /\ isNew = false.
Proof.
  intros sc ctx w. split; [reflexivity|].
  destruct (session_reuse_iff_fresh sc ctx w eq_refl)
    as (sid & isNew & stripped & w' & Hrun & Hfresh & _).
  exists sid, isNew, stripped, w'. split; [exact Hrun|].
  destruct (Hfresh {| sessionId := "abc"; updatedAt := 1000 |}) as (Hsid & Hnew & _).
  - vm_compute. reflexivity.
  - reflexivity.
  - vm_compute. discriminate.
  - now split.
Defined.

(** A configured idle window of zero minutes and an entry saved 45
    seconds ago: by [now - updatedAt <= idleMinutes * 60000] the entry is
    stale, and it is reused. *)
Lemma entry_past_configured_window_reused :
  let sc := Sample.sessions None (Some 0) in
  let ctx := Sample.message "+1555" "hello" in
  let w := Sample.world (Sample.one_session "+1555" "abc" 1000) 46000 in
  idleMinutes sc = Some 0 /\
  stored w (resolveStorePath (store sc)) !! "+1555" =
    Some {| sessionId := "abc"; updatedAt := 1000 |} /\
  clock w (clock_reads w) - 1000 = 45000 /\ 0 * 60000 < 45000 /\
  fst (sessionStep (Some sc) ctx w) = Returned ("abc", false, None).
Proof. vm_compute. repeat split. Qed.

(** A body equal to a configured trigger that does not reset: the empty
    trigger is skipped, and the fresh entry is reused. *)
Lemma empty_trigger_does_not_reset :
  let sc := Sample.sessions (Some [""]) None in
  let ctx := Sample.message "+1555" "" in
  let w := Sample.world (Sample.one_session "+1555" "abc" 1000) 5000 in
  In "" (effectiveResetTriggers (Some sc)) /\ Body ctx = Some "" /\
  fst (sessionStep (Some sc) ctx w) = Returned ("abc", false, None).
Proof. vm_compute. repeat split. now left. Qed.

Lemma reset_trigger_first_match_witness :
  let sc := Sample.sessions (Some ["/new"]) None in
  let w := Sample.world (Sample.one_session "+1555" "abc" 1000) 5000 in
  writable w (resolveStorePath (store sc)) = true /\
  (exists sid isNew stripped w',
      sessionStep (Some sc) (Sample.message "+1555" "/new hello") w =
      (Returned (sid, isNew, stripped), w') /\
      isNew = true /\ stripped = Some "hello") /\
  (exists sid isNew stripped w',
      sessionStep (Some sc) (Sample.message "+1555" "/new") w =
      (Returned (sid, isNew, stripped), w') /\
      isNew = true /\ stripped = Some "").
Proof.
  intros sc w. split; [reflexivity|]. split.
  - destruct (reset_trigger_first_match sc (Sample.message "+1555" "/new hello") w eq_refl)
      as (sid & isNew & stripped & w' & Hrun & Hfirst & _).
    exists sid, isNew, stripped, w'. split; [exact Hrun|].
    destruct (Hfirst [] "/new" [] eq_refl ltac:(constructor) ltac:(discriminate)) as [_ Hrest].
    exact (Hrest "hello" eq_refl).
  - destruct (reset_trigger_first_match sc (Sample.message "+1555" "/new") w eq_refl)
      as (sid & isNew & stripped & w' & Hrun & Hfirst & _).
    exists sid, isNew, stripped, w'. split; [exact Hrun|].
    destruct (Hfirst [] "/new" [] eq_refl ltac:(constructor) ltac:(discriminate)) as [Hexact _].
    exact (Hexact eq_refl).
Defined.

Lemma limits_clamped_witness :
  let sc := Sample.sessions None (Some 0) in
  let ctx := Sample.message "+1555" "hello" in
  let w := Sample.world (Sample.one_session "+1555" "abc" 1000) 31000 in
  writable w (resolveStorePath (store sc)) = true /\
  exists sid isNew stripped w',
    sessionStep (Some sc) ctx w = (Returned (sid, isNew, stripped), w') /\
    sid = "abc" /\ isNew = false.
Proof.
  intros sc ctx w. split; [reflexivity|].
  destruct (proj2 (@limits_clamped Sample.helpers) sc ctx w
              {| sessionId := "abc"; updatedAt := 1000 |})
    as (_ & sid & isNew & stripped & w' & Hrun & Hfresh & _).
  - reflexivity.
  - vm_compute. reflexivity.
  - reflexivity.
  - exists sid, isNew, stripped, w'. split; [exact Hrun|].
    apply Hfresh. vm_compute. discriminate.
Defined.

(** ** Command mode *)

(** C5: a command that prints, outlives the timeout of one second and
    is killed.  The runner resolves with [killed = true], the signal
    [SIGKILL] and no exit code, as the specification says; that result
    passes both guards of the resolver, [(code ?? 0) !== 0] and
    [killed && !signal], and resolution returns what was printed, where
    the specification has it return none. *)
Lemma killed_command_still_replies :
  let ctx := Sample.message "+1555" "hi" in
  let cfg := Sample.config None (Some (Sample.command_reply ["slow"; "{{Body}}"] (Some 1) None)) in
  let w := Sample.world_with_child Sample.killed_after_output in
  fst (runCommandWithTimeout ["slow"; "hi"] 1000 w) =
    Returned {| stdout := "partial"; stderr := ""; code := None;
                signal := Some "SIGKILL"; killed := true |} /\
  In (RunCommand ["slow"; "hi"] 1000)
     (trace (snd (getReplyFromConfig ctx None cfg runCommandWithTimeout w))) /\
  fst (getReplyFromConfig ctx None cfg runCommandWithTimeout w) = Returned (Some "partial").
Proof.
  vm_compute. split; [reflexivity|]. split; [|reflexivity].
  right. right. left. reflexivity.
Qed.

Lemma command_reply_outcome_witness :
  let ctx := Sample.message "+1555" "hi" in
  let r := Sample.command_reply ["tool"; "{{Body}}"] None None in
  let cfg := Sample.config None (Some r) in
  let w := Sample.world ∅ 5000 in
  senderAllowed cfg ctx = true /\ session_ok cfg w /\
  fst (getReplyFromConfig ctx None cfg (Sample.runner_returning Sample.failed_result) w) =
  Returned None.
Proof.
  intros ctx r cfg w. split; [reflexivity|]. split; [exact I|].
  destruct (command_reply_outcome ctx None cfg (Sample.runner_returning Sample.failed_result)
              w r "tool" ["{{Body}}"] eq_refl eq_refl eq_refl eq_refl I
              (fun w0 => ex_intro _ _ eq_refl))
    as [(argv & w1 & Hres & _) _].
  destruct (Hres Sample.failed_result w1 eq_refl) as (Hcode & _).
  exact (Hcode 1 eq_refl ltac:(discriminate)).
Defined.

(** ** Exceptions *)



End Instances.

(** ** Poll loop *)

Lemma poll_dispatch_ordered_once_witness :
  let m := Sample.inbound_message "SM1" 10 in
  let st := {| since := 0; seen := {["SM1"]}; dispatched := [] |} in
  sid m ∈ seen st /\
  exists batch,
    dispatched (pollBatch [Sample.inbound_message "SM2" 20; m] st) = [batch] /\
    ~ In m batch.
Proof.
  intros m st.
  assert (Hin : "SM1" ∈ ({["SM1"]} : gset string)) by (apply elem_of_singleton; reflexivity).
  split; [exact Hin|].
  destruct (proj2 poll_dispatch_ordered_once [Sample.inbound_message "SM2" 20; m] st)
    as (batch & Hd & _ & Hseen).
  exists batch. split; [exact Hd|]. apply Hseen. exact Hin.
Defined.

(** ** Webhook update *)

(** The write of strategy 1 is acknowledged and the read-back holds
    another URL than the intended one: [updateWebhook] is done, and the
    next strategy is not tried. *)
Lemma webhook_mismatch_accepted :
  let intended := "https://new.example/webhook/whatsapp" in
  let client := Sample.client_storing (Some Sample.old_webhook) in
  callback_url Sample.old_webhook <> Some intended /\
  updateWebhook client "whatsapp:+1000" "XE1" intended POST =
  (SenderWebhookSet "https://old.example/hook",
   [PostSenderJson "XE1" intended POST; FetchSender "XE1"]).
Proof. split; [discriminate | vm_compute; reflexivity]. Qed.

Lemma webhook_fallback_chain_witness :
  let url := "https://new.example/webhook/whatsapp" in
  let client := Sample.client_storing (Some Sample.no_webhook) in
  post_sender client [] (PostSenderJson "XE1" url POST) = true /\
  exists later,
    snd (updateWebhook client "whatsapp:+1000" "XE1" url POST) =
    ([PostSenderJson "XE1" url POST; FetchSender "XE1"; PostSenderForm "XE1" url POST]
       ++ later)%list.
Proof.
  intros url client. split; [reflexivity|].
  exact (proj2 (proj2 (webhook_fallback_chain client "whatsapp:+1000" "XE1" url POST))
           (Some Sample.no_webhook) eq_refl eq_refl eq_refl eq_refl).
Defined.

(** * Further properties *)

(** ** Trimming *)

Lemma trimStart_head s :
  match JsString.trimStart s with
  | EmptyString => True
  | String c _ => JsString.is_space c = false
  end.
Proof.
  induction s as [|c s IH]; cbn; [exact I|].
  destruct (JsString.is_space c) eqn:Hc; [exact IH | exact Hc].
Qed.

Lemma trimEnd_idem s : JsString.trimEnd (JsString.trimEnd s) = JsString.trimEnd s.
Proof.
  induction s as [|c s IH]; [reflexivity|]. cbn [JsString.trimEnd].
  destruct (JsString.trimEnd s) as [|d t] eqn:Ht.
  - destruct (JsString.is_space c) eqn:Hc; [reflexivity|]. cbn. now rewrite Hc.
  - cbn [JsString.trimEnd] in IH |- *. now rewrite IH.
Qed.

Lemma trimEnd_head c s :
  JsString.is_space c = false ->
  exists r, JsString.trimEnd (String c s) = String c r.
Proof.
  intros Hc. cbn [JsString.trimEnd].
  destruct (JsString.trimEnd s); [rewrite Hc|]; eauto.
Qed.

Lemma trim_trimStart s : JsString.trimStart (JsString.trim s) = JsString.trim s.
Proof.
  unfold JsString.trim. pose proof (trimStart_head s) as Hh.
  destruct (JsString.trimStart s) as [|c x]; [reflexivity|].
  destruct (trimEnd_head c x Hh) as [r ->]. cbn. now rewrite Hh.
Qed.

Lemma trim_idem s : JsString.trim (JsString.trim s) = JsString.trim s.
Proof.
  unfold JsString.trim at 1. rewrite trim_trimStart.
  unfold JsString.trim. apply trimEnd_idem.
Qed.

Section FurtherResolverFacts.
Context `{Helpers}.

(** ** What a command reply looks like *)

(** X1: in command mode every reply the resolver returns is trimmed: it
    is never the empty string and has no white space at either end. *)
Theorem command_reply_is_trimmed ctx opts cfg runner w r t :
  inbound cfg ≫= reply = Some r -> mode r = ModeCommand ->
  fst (getReplyFromConfig ctx opts cfg runner w) = Returned (Some t) ->
  t <> "" /\ JsString.trim t = t /\ JsString.trimStart t = t /\ JsString.trimEnd t = t.
Proof.
  intros Hr Hmode. unfold getReplyFromConfig, bind.
  destruct (resolveSession _ ctx w) as [[s| |] w1]; try discriminate.
  unfold respond. rewrite Hr, Hmode.
  destruct (negb (senderAllowed cfg ctx)); [discriminate|].
  destruct (text r) as [[|c0 t0]|], (command r) as [[|a cs]|]; try discriminate;
    unfold bind;
    (destruct (replyStart opts w1) as [[[]| |] w2]; try discriminate);
    cbn;
    match goal with |- context [runReply ?f ?a ?T ?w] =>
      pose proof (runReply_cases f a T w) as Hc; cbv zeta in Hc;
      destruct (f a T _) as [[res|e2|] w3];
      [ | destruct (handleError_returns T e2 w3) as (w4 & l & Hh & _);
          rewrite Hc, Hh; discriminate
        | rewrite Hc; discriminate ]
    end;
    rewrite Hc; unfold replyOf;
    destruct (negb _); try discriminate;
    destruct (killed res && _); try discriminate;
    destruct (JsString.truthy (JsString.trim (stdout res))) eqn:Ht; try discriminate;
    intros [= <-];
    (split; [intros E; rewrite E in Ht; discriminate|]);
    (split; [apply trim_idem|]);
    (split; [apply trim_trimStart|]);
    unfold JsString.trim; apply trimEnd_idem.
Qed.

(** ** The session store across steps *)

(** What the session step leaves of the world besides files and trace. *)
Lemma sessionStep_rest sc ctx w r w' :
  sessionStep (Some sc) ctx w = (Returned r, w') ->
  clock w' = clock w /\ writable w' = writable w /\ uuids w' = uuids w /\
  children w' = children w /\
  clock_reads w' =
    match stored w (resolveStorePath (store sc))
          !! deriveSessionKey (default PerSender (scope sc)) ctx with
    | Some _ => S (S (clock_reads w))
    | None => S (clock_reads w)
    end.
Proof.
  unfold sessionStep. cbn [mbind option_bind default].
  set (path := resolveStorePath (store sc)).
  set (key := deriveSessionKey _ ctx).
  destruct (scanResetTriggers _ _) as [isNew stripped].
  unfold bind, loadSessionStore, emit, freshEntry. cbn.
  fold (stored w path).
  destruct (stored w path !! key) as [e|].
  - unfold bind, Date_now, ret, randomUUID, saveSessionStore. cbn.
    destruct (negb isNew && _); cbn;
      (destruct (writable w path); [|discriminate]);
      intros [= <- <-]; cbn; repeat split.
  - unfold bind, Date_now, ret, randomUUID, saveSessionStore. cbn.
    destruct (writable w path); [|discriminate].
    intros [= <- <-]. cbn. repeat split.
Qed.

Lemma deriveSessionKey_nonempty sc ctx : deriveSessionKey sc ctx <> "".
Proof.
  unfold deriveSessionKey. destruct sc; [|discriminate].
  destruct (From ctx) as [f|]; [|discriminate].
  destruct (JsString.truthy f); [|discriminate].
  destruct (normalizeE164 f); discriminate.
Qed.

(** X2: a session step touches one entry of one file.  It persists the
    session under the derived key, which is never empty (["global"] for
    the global scope, ["unknown"] without a sender), and leaves every
    other key of the store and every other file as it was. *)
Theorem sessionStep_frame sc ctx w :
  let path := resolveStorePath (store sc) in
  let key := deriveSessionKey (default PerSender (scope sc)) ctx in
  writable w path = true ->
  exists sid isNew stripped w' saved,
    sessionStep (Some sc) ctx w = (Returned (sid, isNew, stripped), w') /\
    key <> "" /\
    (scope sc = Some GlobalScope -> key = "global") /\
    (scope sc <> Some GlobalScope -> From ctx = None -> key = "unknown") /\
    stored w' path !! key = Some {| sessionId := sid; updatedAt := saved |} /\
    (forall k, k <> key -> stored w' path !! k = stored w path !! k) /\
    (forall p, p <> path -> files w' !! p = files w !! p).
Proof.
  intros path key Hw.
  destruct (sessionStep_returns sc ctx w Hw) as (w' & Hstep & Hfiles & _).
  fold path key in Hstep, Hfiles.
  eexists _, _, _, w', _. split; [exact Hstep|].
  split; [apply deriveSessionKey_nonempty|].
  split; [intros Hs; subst key; now rewrite Hs|].
  split.
  { intros Hs Hf. subst key. unfold deriveSessionKey. rewrite Hf.
    destruct (scope sc) as [[]|]; try reflexivity. congruence. }
  split; [|split].
  - unfold stored at 1. rewrite Hfiles, lookup_insert_eq. apply lookup_insert_eq.
  - intros k Hk. unfold stored at 1. rewrite Hfiles, lookup_insert_eq.
    now apply lookup_insert_ne.
  - intros p Hp. rewrite Hfiles. now apply lookup_insert_ne.
Qed.

(** X3: a missing or unparsable store file does not stop the session
    step: it behaves as with an empty store, mints a new session, and
    the file it leaves holds that one entry and nothing of what was
    there. *)
Theorem sessionStep_recovers_store sc ctx w :
  let path := resolveStorePath (store sc) in
  let key := deriveSessionKey (default PerSender (scope sc)) ctx in
  writable w path = true ->
  files w !! path = None \/ files w !! path = Some Unparsable ->
  exists stripped w' saved,
    sessionStep (Some sc) ctx w =
      (Returned (uuids w (uuid_draws w), true, stripped), w') /\
    files w' !! path =
      Some (StoreFile {[ key := {| sessionId := uuids w (uuid_draws w);
                                   updatedAt := saved |} ]}).
Proof.
  intros path key Hw Hbad.
  destruct (sessionStep_returns sc ctx w Hw) as (w' & Hstep & Hfiles & _).
  fold path key in Hstep, Hfiles.
  assert (Hempty : stored w path = ∅).
  { unfold stored. destruct Hbad as [-> | ->]; reflexivity. }
  assert (Hre : reuses sc ctx w = false).
  { unfold reuses. fold path key. now rewrite Hempty, lookup_empty. }
  rewrite Hre, Hempty, lookup_empty in Hstep. rewrite Hempty, lookup_empty in Hfiles.
  eexists _, w', _. split; [exact Hstep|].
  rewrite Hfiles, lookup_insert_eq. reflexivity.
Qed.

(** X4: the session persists from one message to the next.  After a
    step for a sender, a step for the same sender whose body matches no
    reset trigger, taken within the idle window of the time just saved,
    returns the same session id and does not count as a new session. *)
Theorem session_continues sc ctx1 ctx2 w sid isNew stripped w1 :
  let path := resolveStorePath (store sc) in
  let idleMs := effectiveIdleMinutes (Some sc) * 60000 in
  sessionStep (Some sc) ctx1 w = (Returned (sid, isNew, stripped), w1) ->
  From ctx2 = From ctx1 ->
  fst (scanResetTriggers (JsString.trim (default "" (Body ctx2)))
         (effectiveResetTriggers (Some sc))) = false ->
  clock w1 (clock_reads w1) - clock w1 (pred (clock_reads w1)) <= idleMs ->
  exists stripped2 w2,
    sessionStep (Some sc) ctx2 w1 = (Returned (sid, false, stripped2), w2).
Proof.
  intros path idleMs Hstep Hfrom Hreset Htime.
  assert (Hw : writable w path = true).
  { destruct (writable w path) eqn:E; [reflexivity|].
    destruct (sessionStep_unwritable sc ctx1 w E) as [w' Hthrow]. congruence. }
  destruct (sessionStep_rest sc ctx1 w _ _ Hstep) as (Hclock & Hwr & _ & _ & Hreads).
  destruct (sessionStep_returns sc ctx1 w Hw) as (w1' & Hstep' & Hfiles & _).
  rewrite Hstep in Hstep'. injection Hstep' as Hsid HisNew Hstripped <-.
  fold path in Hfiles, Hreads.
  set (key := deriveSessionKey (default PerSender (scope sc)) ctx1) in *.
  assert (Hkey : deriveSessionKey (default PerSender (scope sc)) ctx2 = key).
  { subst key. unfold deriveSessionKey. now rewrite Hfrom. }
  assert (Hw1 : writable w1 path = true) by now rewrite Hwr.
  destruct (sessionStep_returns sc ctx2 w1 Hw1) as (w2 & Hstep2 & _).
  fold path in Hstep2. rewrite Hkey in Hstep2.
  assert (Hsaved : stored w1 path !! key =
            Some {| sessionId := sid;
                    updatedAt := clock w1 (pred (clock_reads w1)) |}).
  { unfold stored at 1. rewrite Hfiles, lookup_insert_eq, lookup_insert_eq.
    fold path in Hsid. rewrite <- Hsid, Hclock, Hreads.
    destruct (stored w path !! key); reflexivity. }
  assert (Hre : reuses sc ctx2 w1 = true).
  { unfold reuses. fold path. rewrite Hkey, Hsaved, Hreset. cbn.
    now apply Z.leb_le. }
  rewrite Hre, Hsaved in Hstep2. cbn in Hstep2. eauto.
Qed.

(** ** Paths that make no reply *)

(** X5: when the resolver is not going to make a reply (the sender is
    not allowed, no reply is configured, or the configured mode lacks its
    text or command) it returns no reply and calls neither the
    [onReplyStart] callback nor the command runner: the outcome and the
    world it leaves are the same whatever these two are. *)
Theorem no_attempt_no_callback ctx opts opts' cfg runner runner' w :
  attemptsReply cfg ctx = false ->
  getReplyFromConfig ctx opts cfg runner w = getReplyFromConfig ctx opts' cfg runner' w /\
  forall t, fst (getReplyFromConfig ctx opts cfg runner w) <> Returned (Some t).
Proof.
  unfold attemptsReply, getReplyFromConfig, bind. intros Hno.
  destruct (resolveSession _ ctx w) as [[s| |] w1]; [|split; [reflexivity|discriminate]..].
  unfold respond.
  destruct (senderAllowed cfg ctx); cbn [negb andb] in *;
    [|split; [reflexivity|discriminate]].
  destruct (inbound cfg ≫= reply) as [r|]; [|split; [reflexivity|discriminate]].
  destruct (mode r), (text r) as [[|c t]|], (command r) as [[|a cs]|];
    try discriminate; split; try reflexivity; discriminate.
Qed.

(** ** Text mode *)

(** X6: in text mode, with the sender allowed, the session block and the
    callback returning, the reply is the configured text rendered
    against the templating context; it is a reply even when it renders
    to the empty string, and the command runner plays no part in it. *)
Theorem text_reply_rendered ctx opts cfg runner w r c t :
  inbound cfg ≫= reply = Some r -> mode r = ModeText -> text r = Some (String c t) ->
  senderAllowed cfg ctx = true -> session_ok cfg w ->
  (forall w0, exists w1, replyStart opts w0 = (Returned tt, w1)) ->
  exists sessionId isNew stripped w',
    getReplyFromConfig ctx opts cfg runner w =
      (Returned (Some (applyTemplate (String c t)
                         (templatingCtx (Some r) ctx sessionId isNew stripped))), w') /\
    (session r = None -> sessionId = None /\ isNew = false /\ stripped = None) /\
    forall runner',
      getReplyFromConfig ctx opts cfg runner' w = getReplyFromConfig ctx opts cfg runner w.
Proof.
  intros Hr Hmode Htext Hallow Hok Hcb.
  destruct (resolveSession_returns cfg ctx w Hok) as (s & w1 & Hs).
  unfold getReplyFromConfig, bind. rewrite Hs.
  unfold respond. rewrite Hallow, Hr, Hmode, Htext. cbn [negb].
  unfold bind. destruct (Hcb w1) as [w2 Hw2]. rewrite Hw2.
  unfold logVerbose, emit, ret.
  eexists _, _, _, _. split; [reflexivity|]. split; [|reflexivity].
  intros Hnone. revert Hs. rewrite Hr. cbn [mbind option_bind]. rewrite Hnone.
  unfold resolveSession, ret. intros [= <- _]. now repeat split.
Qed.

(** ** Templating context *)

Lemma render_key_js_opt (m : TemplateContext) k o :
  m !! k = Some (js_opt o) -> render_key m k = default "" o.
Proof. unfold render_key, ctx_get. intros ->. now destruct o. Qed.

(** X7: what the placeholders stand for.  [{{Body}}] and
    [{{BodyStripped}}] render the same text: the body after a reset
    trigger was stripped (the whole body otherwise), behind the rendered
    [bodyPrefix] when that is not empty.  [{{From}}], [{{To}}] and
    [{{MessageSid}}] render the fields of the message, [{{SessionId}}]
    the session id and [{{IsNewSession}}] the text [true] or [false];
    what is absent renders as the empty string. *)
Theorem templating_tokens reply ctx sessionId isNew stripped :
  let tctx := templatingCtx reply ctx sessionId isNew stripped in
  let prefix :=
    match reply ≫= bodyPrefix with
    | Some bp =>
        if JsString.truthy bp
        then applyTemplate bp (sessionCtx ctx sessionId isNew stripped) else ""
    | None => ""
    end in
  let body := default "" (nullish stripped (Body ctx)) in
  render_key tctx "Body" = (if JsString.truthy prefix then prefix +:+ body else body) /\
  render_key tctx "BodyStripped" = render_key tctx "Body" /\
  render_key tctx "From" = default "" (From ctx) /\
  render_key tctx "To" = default "" (To ctx) /\
  render_key tctx "MessageSid" = default "" (MessageSid ctx) /\
  render_key tctx "SessionId" = default "" sessionId /\
  render_key tctx "IsNewSession" = (if isNew then "true" else "false").
Proof.
  intros tctx prefix body. subst tctx. unfold templatingCtx. fold prefix.
  set (pb := if JsString.truthy prefix then _ else _).
  assert (Hpb : default "" pb = if JsString.truthy prefix then prefix +:+ body else body).
  { subst pb body. destruct (JsString.truthy prefix);
      destruct stripped, (Body ctx); reflexivity. }
  assert (Hbody : render_key (<["BodyStripped" := js_opt pb]>
                    (<["Body" := js_opt pb]> (sessionCtx ctx sessionId isNew stripped)))
                    "Body" = default "" pb).
  { apply render_key_js_opt. rewrite lookup_insert_ne by discriminate.
    apply lookup_insert_eq. }
  split; [now rewrite Hbody|].
  split; [rewrite Hbody; apply render_key_js_opt, lookup_insert_eq|].
  unfold sessionCtx, ctx_props.
  repeat split;
    try (apply render_key_js_opt;
         repeat (rewrite lookup_insert_ne by discriminate);
         apply lookup_insert_eq).
Qed.

(** ** Argument vector *)

Lemma drop_to_last {A} (l : list A) x :
  last l = Some x -> drop (length l - 1) l = [x].
Proof.
  induction l as [|y l' _] using rev_ind; [discriminate|].
  rewrite last_snoc. intros [= ->].
  rewrite length_app. cbn [length].
  replace (length l' + 1 - 1)%nat with (length l') by lia.
  apply drop_app_length.
Qed.

(** X8: the argument vector of command mode.  Before the session
    arguments go in, the vector is the rendered command with the
    rendered [template], when not empty, in second place.  Without a
    session config that is the vector.  With one, the session arguments
    are the rendered [sessionArgNew] for a new session and
    [sessionArgResume] otherwise (by default [--session-id] or
    [--resume], then the session id); they are appended when
    [sessionArgBeforeBody] is false or the vector has a single element,
    and otherwise go in right before its last element.  So the rendered
    command name is always first and nothing of the command is lost or
    reordered; the template stays second except when the command has a
    single element and session arguments go in before the body: then it
    is the last element, after them. *)
Theorem buildArgv_shape (r : ReplyConfig) (tctx : TemplateContext) (isNew : bool)
    (c0 : string) (cs : list string) :
  let render := fun part => applyTemplate part tctx in
  let prefix :=
    match template r with
    | Some t => if JsString.truthy t then render t else ""
    | None => ""
    end in
  let base := render c0 :: (if JsString.truthy prefix then prefix :: map render cs
                            else map render cs) in
  let sessionArgs :=
    match session r with
    | Some sc =>
        map render (if isNew
                    then default ["--session-id"; "{{SessionId}}"] (sessionArgNew sc)
                    else default ["--resume"; "{{SessionId}}"] (sessionArgResume sc))
    | None => []
    end in
  let argv := buildArgv r tctx isNew (c0 :: cs) in
  head argv = Some (render c0) /\
  sublist base argv /\
  (session r = None -> argv = base) /\
  (forall sc, session r = Some sc ->
     (sessionArgBeforeBody sc = Some false \/ (length base <= 1)%nat ->
      argv = (base ++ sessionArgs)%list) /\
     (sessionArgBeforeBody sc <> Some false ->
      forall init body, base = (init ++ [body])%list -> init <> [] ->
      argv = (init ++ sessionArgs ++ [body])%list)) /\
  (JsString.truthy prefix = true ->
   (cs <> [] \/ sessionArgs = [] \/
    exists sc, session r = Some sc /\ sessionArgBeforeBody sc = Some false) ->
   argv !! 1%nat = Some prefix) /\
  (JsString.truthy prefix = true -> cs = [] ->
   forall sc, session r = Some sc -> sessionArgBeforeBody sc <> Some false ->
   argv = (render c0 :: sessionArgs ++ [prefix])%list).
Proof.
  intros render prefix base sessionArgs argv.
  set (k := match session r with
            | Some sc =>
                if default true (sessionArgBeforeBody sc) && (1 <? length base)%nat
                then (length base - 1)%nat else length base
            | None => length base
            end).
  assert (Hargv : argv = (take k base ++ sessionArgs ++ drop k base)%list).
  { subst argv base k sessionArgs prefix render. unfold buildArgv. cbn [map].
    destruct (session r) as [sc|].
    - destruct (map _ (if isNew then _ else _)) as [|a l] eqn:Hs.
      + cbn [app]. rewrite take_drop. now destruct (JsString.truthy _).
      + now destruct (JsString.truthy _).
    - cbn [app]. rewrite firstn_all, drop_all, app_nil_r.
      now destruct (JsString.truthy _). }
  clearbody argv. subst argv.
  assert (Hlen : (1 <= length base)%nat) by (subst base; cbn [length]; lia).
  assert (Hk : (1 <= k <= length base)%nat).
  { subst k. destruct (session r) as [sc|]; [|lia].
    destruct (default true (sessionArgBeforeBody sc) && (1 <? length base)%nat) eqn:E; [|lia].
    apply andb_true_iff in E as [_ E]. apply Nat.ltb_lt in E. lia. }
  assert (Hend : forall sc, session r = Some sc ->
             sessionArgBeforeBody sc = Some false \/ (length base <= 1)%nat ->
             k = length base).
  { intros sc Hsc Hcase. subst k. rewrite Hsc.
    destruct Hcase as [-> | Hshort]; [reflexivity|].
    assert ((1 <? length base)%nat = false) as -> by (apply Nat.ltb_ge; lia).
    now rewrite andb_false_r. }
  assert (Hbefore : forall sc, session r = Some sc ->
             sessionArgBeforeBody sc <> Some false ->
             forall init body, base = (init ++ [body])%list -> init <> [] ->
             k = length init).
  { intros sc Hsc Hflag init body Hbase Hinit. subst k. rewrite Hsc.
    assert (default true (sessionArgBeforeBody sc) = true) as ->.
    { destruct (sessionArgBeforeBody sc) as [[]|]; try reflexivity. congruence. }
    rewrite Hbase, length_app. cbn [length].
    assert ((1 <? length init + 1)%nat = true) as ->.
    { apply Nat.ltb_lt. destruct init; [congruence | cbn [length]; lia]. }
    cbn [andb]. lia. }
  split; [|split; [|split; [|split; [|split]]]].
  - destruct k as [|k']; [lia|]. subst base. reflexivity.
  - rewrite <- (take_drop k base) at 1.
    apply sublist_app; [reflexivity|]. now apply sublist_inserts_l.
  - intros Hnone. subst sessionArgs k. rewrite Hnone.
    cbn [app]. now rewrite firstn_all, drop_all, app_nil_r.
  - intros sc Hsc. split.
    + intros Hcase. rewrite (Hend sc Hsc Hcase).
      now rewrite firstn_all, drop_all, app_nil_r.
    + intros Hflag init body Hbase Hinit.
      rewrite (Hbefore sc Hsc Hflag init body Hbase Hinit), Hbase.
      now rewrite take_app_length, drop_app_length.
  - intros Hp Hcase.
    assert (Hbase1 : base !! 1%nat = Some prefix) by (subst base; now rewrite Hp).
    destruct (session r) as [sc|] eqn:Hsc.
    + destruct (decide (sessionArgBeforeBody sc = Some false)) as [Hf|Hf].
      * rewrite (Hend sc eq_refl (or_introl Hf)), firstn_all.
        apply lookup_app_l_Some. exact Hbase1.
      * destruct Hcase as [Hcs | [Hnil | (sc' & [= <-] & Hf')]]; [| |contradiction].
        -- assert (H2 : (2 <= k)%nat).
           { subst k.
             assert (Hl : (3 <= length base)%nat).
             { subst base. rewrite Hp. cbn [length]. rewrite length_map.
               destruct cs; [congruence | cbn [length]; lia]. }
             assert (default true (sessionArgBeforeBody sc) = true) as ->.
             { destruct (sessionArgBeforeBody sc) as [[]|]; try reflexivity. congruence. }
             assert ((1 <? length base)%nat = true) as -> by (apply Nat.ltb_lt; lia).
             cbn [andb]. lia. }
           apply lookup_app_l_Some. rewrite lookup_take_lt by lia. exact Hbase1.
        -- rewrite Hnil. cbn [app]. now rewrite take_drop.
    + subst sessionArgs. cbn [app]. now rewrite take_drop.
  - intros Hp Hcs sc Hsc Hflag.
    assert (Hbase2 : base = ([render c0] ++ [prefix])%list).
    { subst base. rewrite Hp, Hcs. reflexivity. }
    rewrite (Hbefore sc Hsc Hflag [render c0] prefix Hbase2 ltac:(discriminate)), Hbase2.
    rewrite take_app_length, drop_app_length. reflexivity.
Qed.

End FurtherResolverFacts.

(** ** Command runner *)

Lemma append_nil_r (s : string) : s +:+ "" = s.
Proof. induction s as [|c s IH]; [reflexivity|]. str_simpl. now rewrite IH. Qed.

Lemma runner_unsettled evs : forall st,
  forallb (fun ev => negb (settles ev)) evs = true ->
  let st' := fold_left runner_handle evs st in
  r_stdout st' = r_stdout st +:+ stdoutOf evs /\
  r_stderr st' = r_stderr st +:+ stderrOf evs /\
  r_settled st' = r_settled st /\
  r_promise st' = r_promise st /\
  r_killed st' = r_killed st || (r_timer st && timerDelivered evs).
Proof.
  induction evs as [|ev evs IH]; intros st Hq.
  - cbn. rewrite !append_nil_r, andb_false_r, orb_false_r. now repeat split.
  - cbn [forallb] in Hq. apply andb_true_iff in Hq as [Hev Hq].
    cbn [fold_left]. destruct (IH (runner_handle st ev) Hq) as (-> & -> & -> & -> & ->).
    destruct ev; try discriminate; cbn.
    + rewrite append_assoc. now repeat split.
    + rewrite append_assoc. now repeat split.
    + destruct (r_timer st) eqn:Ht; cbn; rewrite ?Ht; cbn;
        rewrite ?orb_false_r; now repeat split.
Qed.

(** X9: what [runCommandWithTimeout] resolves to, by what the child
    does.  Up to the first [close] or [error] event the output of the
    child is collected in order; a [close] resolves the promise with all
    of it, the exit code and signal of the event, and [killed] true
    exactly when the timeout callback ran before and its [kill] was
    delivered; an [error] rejects it; whatever comes after that first
    event changes nothing, and without such an event the promise stays
    pending. *)
Theorem runCommandWithTimeout_outcome w argv timeoutMs pre :
  forallb (fun ev => negb (settles ev)) pre = true ->
  (forall exit_code exit_signal rest,
      children w argv timeoutMs = (pre ++ ChildClose exit_code exit_signal :: rest)%list ->
      runCommandWithTimeout argv timeoutMs w =
      (Returned {| stdout := stdoutOf pre; stderr := stderrOf pre;
                   code := exit_code; signal := exit_signal;
                   killed := timerDelivered pre |}, w)) /\
  (forall rest,
      children w argv timeoutMs = (pre ++ ChildError :: rest)%list ->
      runCommandWithTimeout argv timeoutMs w = (Thrown plain_error, w)) /\
  (children w argv timeoutMs = pre ->
   runCommandWithTimeout argv timeoutMs w = (Pending, w)).
Proof.
  intros Hpre.
  destruct (runner_unsettled pre runner_init Hpre) as (Ho & He & Hs & Hp & Hk).
  cbn in Ho, He, Hs, Hp, Hk.
  split; [|split].
  - intros c sg rest Hev. unfold runCommandWithTimeout. rewrite Hev.
    rewrite fold_left_app. cbn [fold_left].
    rewrite runner_settled; cbn; rewrite Hs; [|reflexivity].
    cbn. now rewrite Ho, He, Hk.
  - intros rest Hev. unfold runCommandWithTimeout. rewrite Hev.
    rewrite fold_left_app. cbn [fold_left].
    rewrite runner_settled; cbn; rewrite Hs; reflexivity.
  - intros Hev. unfold runCommandWithTimeout. now rewrite Hev, Hp.
Qed.

(** ** Poll loop: what is dispatched, and the watermark *)

Lemma insertByDate_In x m l : In x (insertByDate m l) <-> x = m \/ In x l.
Proof.
  induction l as [|y l IH]; cbn [insertByDate In]; [intuition congruence|].
  destruct (createdTime m <=? createdTime y); cbn [In]; [intuition congruence|].
  rewrite IH. intuition congruence.
Qed.

Lemma sortByDate_In x l : In x (sortByDate l) <-> In x l.
Proof.
  induction l as [|m l IH]; [reflexivity|]. cbn [sortByDate fold_right In].
  fold (sortByDate l). rewrite insertByDate_In, IH. intuition congruence.
Qed.

Lemma visit_fold_seen l : forall since0 (seen0 : gset string) calls0 since' seen' calls',
  fold_left visit l (since0, seen0, calls0) = (since', seen', calls') ->
  (forall x, x ∈ seen0 -> x ∈ seen') /\ (forall m, In m l -> sid m ∈ seen').
Proof.
  induction l as [|m l IH]; intros since0 seen0 calls0 since' seen' calls' Hf.
  - cbn in Hf. injection Hf as <- <- <-. split; [auto | intros m []].
  - cbn [fold_left] in Hf. unfold visit at 2 in Hf.
    destruct (decide (sid m ∈ seen0)) as [Hin|Hnew].
    + destruct (IH _ _ _ _ _ _ Hf) as [Hmono Hall]. split; [exact Hmono|].
      intros y [<-|Hy]; [now apply Hmono | now apply Hall].
    + destruct (IH _ _ _ _ _ _ Hf) as [Hmono Hall]. split.
      * intros x Hx. apply Hmono, elem_of_union. now right.
      * intros y [<-|Hy]; [|now apply Hall].
        apply Hmono, elem_of_union. left. now apply elem_of_singleton.
Qed.

Lemma visit_fold_since l : forall since0 (seen0 : gset string) calls0 since' seen' calls',
  fold_left visit l (since0, seen0, calls0) = (since', seen', calls') ->
  since0 <= since' /\
  (forall m t, In m calls' -> dateCreated m = Some t ->
               In m calls0 \/ t <= since') /\
  (since' = since0 \/ exists m, In m calls' /\ dateCreated m = Some since').
Proof.
  induction l as [|m l IH]; intros since0 seen0 calls0 since' seen' calls' Hf.
  - cbn in Hf. injection Hf as <- <- <-. split; [lia|]. split; [auto | now left].
  - cbn [fold_left] in Hf. unfold visit at 2 in Hf.
    destruct (decide (sid m ∈ seen0)) as [Hin|Hnew]; [exact (IH _ _ _ _ _ _ Hf)|].
    destruct (IH _ _ _ _ _ _ Hf) as (Hle & Hdates & Hwit).
    assert (Hup : since0 <= updateSince (dateCreated m) since0).
    { unfold updateSince. destruct (dateCreated m) as [t|]; [|lia].
      destruct (Z.ltb_spec since0 t); lia. }
    assert (Hkeep : forall x, In x (calls0 ++ [m])%list -> In x calls').
    { destruct (visit_fold l (updateSince (dateCreated m) since0)
                  ({[sid m]} ∪ seen0) (calls0 ++ [m])%list)
        as (s2 & seen2 & new & Hf2 & _).
      rewrite Hf in Hf2. injection Hf2 as _ _ ->.
      intros x Hx. apply in_or_app. now left. }
    split; [lia|]. split.
    + intros x t Hx Ht. destruct (Hdates x t Hx Ht) as [Hin0|Hle']; [|now right].
      apply in_app_or in Hin0 as [Hin0|[<-|[]]]; [now left|]. right.
      unfold updateSince in Hle. rewrite Ht in Hle.
      destruct (Z.ltb_spec since0 t); lia.
    + destruct Hwit as [->|Hwit]; [|now right].
      unfold updateSince. destruct (dateCreated m) as [t|] eqn:Ht; [|now left].
      destruct (Z.ltb_spec since0 t); [|now left].
      right. exists m. split; [|exact Ht]. apply Hkeep, in_or_app. right. now left.
Qed.

(** X10: what one poll dispatches.  Every message dispatched comes from
    the fetched batch, is inbound and was not seen before; conversely
    every inbound message of the batch that was not seen before has its
    id dispatched in this very batch, and every inbound message of the
    batch is in the dedup set afterwards, which only grows. *)
Theorem pollBatch_dispatches_new_inbound messages st :
  exists batch,
    dispatched (pollBatch messages st) = (dispatched st ++ [batch])%list /\
    (forall m, In m batch ->
               In m messages /\ direction m = "inbound" /\ sid m ∉ seen st) /\
    (forall m, In m messages -> direction m = "inbound" -> sid m ∉ seen st ->
               In (sid m) (map sid batch)) /\
    (forall m, In m messages -> direction m = "inbound" ->
               sid m ∈ seen (pollBatch messages st)) /\
    (forall x, x ∈ seen st -> x ∈ seen (pollBatch messages st)).
Proof.
  destruct (pollBatch_calls messages st) as (new & Hd & Hsub & _ & Hfresh & Hseen).
  set (inb := sortByDate (filter (fun m => String.eqb (direction m) "inbound") messages)) in *.
  assert (Hinb : forall m, In m inb <-> In m messages /\ direction m = "inbound").
  { intros m. subst inb. rewrite sortByDate_In, <- list_elem_of_In, list_elem_of_filter.
    rewrite list_elem_of_In, Is_true_true, String.eqb_eq. tauto. }
  assert (Hall : forall m, In m inb -> sid m ∈ seen (pollBatch messages st)).
  { intros m Hm. unfold pollBatch. fold inb.
    destruct (fold_left visit inb (since st, seen st, [])) as [[s' seen'] calls] eqn:Hf.
    cbn. now apply (visit_fold_seen _ _ _ _ _ _ _ Hf). }
  exists new. split; [exact Hd|]. split; [|split; [|split]].
  - intros m Hm. pose proof (sublist_In _ _ _ Hsub Hm) as Hi. apply Hinb in Hi.
    destruct Hi. repeat split; auto.
  - intros m Hm Hdir Hnew.
    assert (Hs : sid m ∈ seen (pollBatch messages st)) by (apply Hall, Hinb; auto).
    apply Hseen in Hs as [Hs|Hs]; [contradiction | exact Hs].
  - intros m Hm Hdir. apply Hall, Hinb. auto.
  - intros x Hx. apply Hseen. now left.
Qed.

(** X11: the watermark.  A poll never moves [since] back; afterwards
    [since] is at least the creation time of every message dispatched in
    the poll, and it is either the old value or the creation time of one
    of them; over a whole run it never falls below its start,
    [now - lookbackMinutes * 60000]. *)
Theorem since_is_a_watermark :
  (forall messages st,
      since st <= since (pollBatch messages st) /\
      exists batch,
        dispatched (pollBatch messages st) = (dispatched st ++ [batch])%list /\
        (forall m t, In m batch -> dateCreated m = Some t ->
                     t <= since (pollBatch messages st)) /\
        (since (pollBatch messages st) = since st \/
         exists m, In m batch /\ dateCreated m = Some (since (pollBatch messages st)))) /\
  (forall env lookbackMinutes now maxIterations,
      now - lookbackMinutes * 60000 <=
      since (monitorTwilio env lookbackMinutes now maxIterations)).
Proof.
  assert (Hbatch : forall messages st,
      since st <= since (pollBatch messages st) /\
      exists batch,
        dispatched (pollBatch messages st) = (dispatched st ++ [batch])%list /\
        (forall m t, In m batch -> dateCreated m = Some t ->
                     t <= since (pollBatch messages st)) /\
        (since (pollBatch messages st) = since st \/
         exists m, In m batch /\ dateCreated m = Some (since (pollBatch messages st)))).
  { intros messages st. unfold pollBatch.
    destruct (fold_left visit _ (since st, seen st, [])) as [[s' seen'] calls] eqn:Hf.
    destruct (visit_fold_since _ _ _ _ _ _ _ Hf) as (Hle & Hdates & Hwit). cbn.
    split; [exact Hle|]. exists calls. split; [reflexivity|]. split; [|exact Hwit].
    intros m t Hm Ht. destruct (Hdates m t Hm Ht) as [[]|]; assumption. }
  split; [exact Hbatch|].
  intros env lookbackMinutes now maxIterations. unfold monitorTwilio.
  set (st0 := {| since := _; seen := ∅; dispatched := [] |}).
  change (now - lookbackMinutes * 60000) with (since st0).
  generalize 0%nat. generalize st0. clear st0.
  induction maxIterations as [|n IH]; intros st i; cbn [monitorLoop]; [lia|].
  destruct (interrupted env i); [lia|].
  etransitivity; [|apply IH]. unfold pollOnce.
  destruct (listMessages env i (since st)); [apply Hbatch | lia].
Qed.

(** ** Reply tasks of a batch *)

Lemma pollBatch_covers messages st :
  exists new,
    dispatched (pollBatch messages st) = (dispatched st ++ [new])%list /\
    sublist new (sortByDate (filter (fun m => String.eqb (direction m) "inbound") messages)) /\
    NoDup (map sid new) /\
    (forall m, In m messages -> direction m = "inbound" -> sid m ∉ seen st ->
               In (sid m) (map sid new)).
Proof.
  destruct (pollBatch_calls messages st) as (new & Hd & Hsub & Hnd & _ & Hseen).
  exists new. split; [exact Hd|]. split; [exact Hsub|]. split; [exact Hnd|].
  intros m Hm Hdir Hnew.
  assert (Hs : sid m ∈ seen (pollBatch messages st)).
  { unfold pollBatch.
    destruct (fold_left visit _ (since st, seen st, [])) as [[s' seen'] calls] eqn:Hf.
    cbn. apply (visit_fold_seen _ _ _ _ _ _ _ Hf).
    apply sortByDate_In, list_elem_of_In, list_elem_of_filter.
    split; [|now apply list_elem_of_In].
    apply Is_true_true, String.eqb_eq, Hdir. }
  apply Hseen in Hs as [Hs|Hs]; [contradiction | exact Hs].
Qed.

Lemma singleFlight_two_starts pre : forall running a b post,
  singleFlight running (pre ++ TaskStart a :: TaskStart b :: post) = false.
Proof.
  induction pre as [|e pre IH]; intros running a b post; cbn [app singleFlight].
  - now destruct running.
  - destruct e as [s|s]; [|apply IH]. destruct running; [apply IH | reflexivity].
Qed.


(** ** Webhook update: the requests and what stands behind a success *)

Section FurtherWebhookFacts.
Variable client : TwilioClient.
Variable whatsappFrom : string.

Lemma sends_ret {A} P (a : A) : sends P 0 (api_ret a).
Proof. intros h. exists []. cbn. rewrite app_nil_r. repeat split; [constructor|lia]. Qed.

Lemma sends_bind {A B} P n1 n2 (m : Api A) (k : A -> Api B) :
  sends P n1 m -> (forall a, sends P n2 (k a)) -> sends P (n1 + n2) (api_bind m k).
Proof.
  intros Hm Hk h. unfold api_bind. destruct (Hm h) as (e1 & He1 & HP1 & Hl1).
  destruct (m h) as [[a|] h1]; cbn in He1; subst h1.
  - destruct (Hk a (h ++ e1)%list) as (e2 & He2 & HP2 & Hl2). exists (e1 ++ e2)%list.
    rewrite He2, app_assoc, length_app. repeat split; [|lia].
    apply Forall_app. now split.
  - exists e1. repeat split; [assumption|lia].
Qed.

Lemma sends_try {A} P n (m : Api A) (d : A) : sends P n m -> sends P n (api_try m d).
Proof.
  intros Hm h. unfold api_try. destruct (Hm h) as (e & He & HP & Hl).
  destruct (m h) as [[a|] h1]; cbn in *; eauto.
Qed.

Lemma sends_send (P : Call -> Prop) answer c : P c -> sends P 1 (send answer c).
Proof.
  intros Hc h. exists [c]. cbn. repeat split; [|lia]. now repeat constructor.
Qed.

Lemma sends_weaken {A} P n n' (m : Api A) : (n <= n')%nat -> sends P n m -> sends P n' m.
Proof.
  intros Hn Hm h. destruct (Hm h) as (e & He & HP & Hl). exists e. repeat split; auto. lia.
Qed.

Section Requests.
Variable P : Call -> Prop.
Variables (senderSid url : string) (method : Method).
Hypothesis P_json : P (PostSenderJson senderSid url method).
Hypothesis P_form : P (PostSenderForm senderSid url method).
Hypothesis P_helper : channelsSenders client = true ->
  P (FetchSender senderSid) /\ P (UpdateSender senderSid url method).
Hypothesis P_list : forall n, (n = 2 \/ n = 1)%nat ->
  P (ListIncomingNumbers (phone whatsappFrom) n).
Hypothesis P_number : forall p, P (UpdateIncomingNumber p url method).
Hypothesis P_service : forall s, P (UpdateService s url method) /\ P (FetchService s).

Lemma sends_fetch : sends P 1 (fetchStoredUrl client senderSid).
Proof.
  intros h. unfold fetchStoredUrl. destruct (channelsSenders client) eqn:Hc.
  - destruct (P_helper eq_refl) as [Hf _].
    destruct (fetch_sender client h senderSid); exists [FetchSender senderSid]; cbn;
      (repeat split; [now repeat constructor | lia]).
  - exists []. cbn. rewrite app_nil_r. repeat split; [constructor|lia].
Qed.

Lemma sends_raw write : P write -> sends P 2 (rawRequestStrategy client write senderSid).
Proof.
  intros Hw. apply sends_try. apply (sends_bind P 1 1); [now apply sends_send|].
  intros _. apply (sends_bind P 1 0); [apply sends_fetch|]. intros u. apply sends_ret.
Qed.

Lemma sends_helper : sends P 2 (helperStrategy client senderSid url method).
Proof.
  apply sends_try. pose proof sends_fetch as Hfetch.
  destruct (channelsSenders client) eqn:Hc.
  - destruct (P_helper eq_refl) as [_ Hu].
    apply (sends_bind P 1 1); [now apply sends_send|].
    intros _. apply (sends_bind P 1 0); [apply Hfetch|]. intros u. apply sends_ret.
  - apply (sends_weaken P 0); [lia | apply sends_ret].
Qed.

Lemma sends_phone : sends P 2 (phoneStrategy client whatsappFrom url method).
Proof.
  apply sends_try. apply (sends_bind P 1 1).
  - intros h. exists [ListIncomingNumbers (phone whatsappFrom) 2]. cbn.
    repeat split; [|lia]. repeat constructor. apply P_list. now left.
  - intros [p|]; [|apply (sends_weaken P 0); [lia | apply sends_ret]].
    destruct (JsString.truthy p); [|apply (sends_weaken P 0); [lia | apply sends_ret]].
    apply (sends_bind P 1 0); [apply sends_send, P_number|]. intros _. apply sends_ret.
Qed.

Lemma sends_service : sends P 3 (serviceStrategy client whatsappFrom url method).
Proof.
  apply (sends_bind P 3 0); [|intros ok; apply sends_ret].
  apply (sends_bind P 1 2).
  - intros h. exists [ListIncomingNumbers (phone whatsappFrom) 1]. cbn.
    repeat split; [|lia]. repeat constructor. apply P_list. now right.
  - intros [m|]; [|apply (sends_weaken P 0); [lia | apply sends_ret]].
    destruct (JsString.truthy m); [|apply (sends_weaken P 0); [lia | apply sends_ret]].
    apply sends_try. apply (sends_bind P 1 1); [apply sends_send, P_service|].
    intros _. apply (sends_bind P 1 0); [|intros _; apply sends_ret].
    intros h. destruct (fetch_service client h m); exists [FetchService m]; cbn;
      (repeat split; [repeat constructor; apply P_service | lia]).
Qed.

Lemma sends_firstSuccess l ns :
  Forall2 (fun (s : Api (option WebhookOutcome)) n => sends P n s) l ns ->
  forall h, exists ext,
    snd (firstSuccess l h) = (h ++ ext)%list /\ Forall P ext /\
    (length ext <= list_sum ns)%nat.
Proof.
  induction 1 as [|s n l ns Hs _ IH]; intros h.
  - exists []. cbn. rewrite app_nil_r. repeat split; [constructor|lia].
  - rewrite firstSuccess_cons. destruct (Hs h) as (e1 & He1 & HP1 & Hl1).
    destruct (s h) as [r h1]. cbn in He1. subst h1.
    destruct (IH (h ++ e1)%list) as (e2 & He2 & HP2 & Hl2).
    assert (Hgo : exists ext,
      snd (firstSuccess l (h ++ e1)%list) = (h ++ ext)%list /\ Forall P ext /\
      (length ext <= list_sum (n :: ns))%nat).
    { exists (e1 ++ e2)%list. rewrite He2, app_assoc, length_app.
      change (list_sum (n :: ns)) with (n + list_sum ns)%nat.
      repeat split; [|lia]. apply Forall_app. now split. }
    destruct r as [[done|]|]; try exact Hgo.
    exists e1. change (list_sum (n :: ns)) with (n + list_sum ns)%nat.
    cbn [snd]. repeat split; [assumption|lia].
Qed.

Lemma sends_updateWebhook :
  exists ext,
    snd (updateWebhook client whatsappFrom senderSid url method) = ext /\
    Forall P ext /\ (length ext <= 11)%nat.
Proof.
  destruct (sends_firstSuccess (strategies client whatsappFrom senderSid url method)
              [2; 2; 2; 2; 3]%nat) with (h := @nil Call) as (ext & He & HP & Hl).
  { unfold strategies. repeat constructor.
    - now apply sends_raw.
    - now apply sends_raw.
    - apply sends_helper.
    - apply sends_phone.
    - apply sends_service. }
  exists ext. now repeat split.
Qed.

End Requests.

(** X12: the requests of [updateWebhook].  The JSON request to the
    sender always goes out first; at most eleven requests are sent; every
    one that writes carries the URL and the method [updateWebhook] was
    called with, the sender requests go to the given sender and the
    number look-ups all ask for the same number, with limit 2 or 1; and
    a client without [messaging.v2.channelsSenders] is never asked to
    fetch or update a sender. *)
Theorem updateWebhook_requests senderSid url method :
  let requests := snd (updateWebhook client whatsappFrom senderSid url method) in
  (exists rest, requests = PostSenderJson senderSid url method :: rest) /\
  (length requests <= 11)%nat /\
  (exists ph, Forall (aimed ph senderSid url method) requests) /\
  (channelsSenders client = false ->
   forallb (fun c => negb (usesSenderHelper c)) requests = true).
Proof.
  intros requests. split; [|split; [|split]].
  - subst requests. unfold updateWebhook, strategies. rewrite firstSuccess_cons.
    destruct (rawRequest_history client (PostSenderJson senderSid url method) senderSid [])
      as [e He].
    destruct (rawRequestStrategy client (PostSenderJson senderSid url method) senderSid [])
      as [r h1]. cbn [snd app] in He. subst h1.
    assert (Hrest : Forall grows
              [rawRequestStrategy client (PostSenderForm senderSid url method) senderSid;
               helperStrategy client senderSid url method;
               phoneStrategy client whatsappFrom url method;
               serviceStrategy client whatsappFrom url method]).
    { pose proof (grows_strategies client whatsappFrom senderSid url method) as Hall.
      unfold strategies in Hall. now apply Forall_inv_tail in Hall. }
    destruct (grows_firstSuccess _ Hrest (PostSenderJson senderSid url method :: e))
      as [e2 He2].
    destruct r as [[done|]|]; cbn [snd]; rewrite ?He2; cbn; eauto.
  - destruct (sends_updateWebhook (fun _ => True) senderSid url method)
      as (ext & He & _ & Hl); auto.
    subst requests. now rewrite He.
  - exists (phone whatsappFrom).
    destruct (sends_updateWebhook (aimed (phone whatsappFrom) senderSid url method)
                senderSid url method) as (ext & He & HP & _); cbn; auto.
    subst requests. now rewrite He.
  - intros Hno.
    destruct (sends_updateWebhook (fun c => negb (usesSenderHelper c) = true)
                senderSid url method) as (ext & He & HP & _); cbn; auto.
    { rewrite Hno. discriminate. }
    subst requests. rewrite He. apply forallb_forall. intros c Hc.
    rewrite Forall_forall in HP. apply HP. now apply list_elem_of_In.
Qed.

Lemma truthy_nonempty s : JsString.truthy s = true -> s <> "".
Proof. now destruct s. Qed.

Lemma rawRequest_success write senderSid h done h' :
  rawRequestStrategy client write senderSid h = (Some (Some done), h') ->
  exists stored fetched,
    done = SenderWebhookSet stored /\ stored <> "" /\ channelsSenders client = true /\
    h' = (h ++ [write; FetchSender senderSid])%list /\
    post_sender client h write = true /\
    fetch_sender client (h ++ [write])%list senderSid = Some fetched /\
    js_or (fetched ≫= callback_url) (fetched ≫= fallback_url) = Some stored.
Proof.
  unfold rawRequestStrategy, api_try, api_bind, send, fetchStoredUrl, api_ret.
  destruct (post_sender client h write) eqn:Hpost; [|discriminate].
  destruct (channelsSenders client) eqn:Hc; [|discriminate].
  destruct (fetch_sender client (h ++ [write])%list senderSid) as [fetched|] eqn:Hf;
    [|discriminate].
  destruct (js_or _ _) as [u|] eqn:Hu; [|discriminate].
  destruct (JsString.truthy u) eqn:Ht; [|discriminate].
  intros [= <- <-]. exists u, fetched. rewrite <- app_assoc.
  repeat split; auto using truthy_nonempty.
Qed.

Lemma helper_success senderSid url method h done h' :
  helperStrategy client senderSid url method h = (Some (Some done), h') ->
  exists fetched,
    done = HelperWebhookSet
             (default url (js_or (fetched ≫= callback_url) (fetched ≫= fallback_url))) /\
    channelsSenders client = true /\
    h' = (h ++ [UpdateSender senderSid url method; FetchSender senderSid])%list /\
    update_sender client h senderSid url method = true /\
    fetch_sender client (h ++ [UpdateSender senderSid url method])%list senderSid
    = Some fetched.
Proof.
  unfold helperStrategy, api_try, api_bind, send, fetchStoredUrl, api_ret.
  destruct (channelsSenders client) eqn:Hc; [|discriminate].
  destruct (update_sender client h senderSid url method) eqn:Hup; [|discriminate].
  destruct (fetch_sender client _ senderSid) as [fetched|] eqn:Hf; [|discriminate].
  intros [= <- <-]. exists fetched. rewrite <- app_assoc. now repeat split.
Qed.

Lemma phone_success url method h done h' :
  phoneStrategy client whatsappFrom url method h = (Some (Some done), h') ->
  exists n rest p,
    done = PhoneWebhookSet url /\
    h' = (h ++ [ListIncomingNumbers (phone whatsappFrom) 2;
                UpdateIncomingNumber p url method])%list /\
    list_numbers client h (phone whatsappFrom) 2 = Some (n :: rest) /\
    number_sid n = Some p /\ p <> "" /\
    update_number client (h ++ [ListIncomingNumbers (phone whatsappFrom) 2])%list
      p url method = true.
Proof.
  unfold phoneStrategy, api_try, api_bind, send, findIncomingNumberSid, api_ret.
  destruct (list_numbers client h (phone whatsappFrom) 2) as [[|n rest]|] eqn:Hl;
    try discriminate.
  destruct (number_sid n) as [p|] eqn:Hp; [|discriminate].
  destruct (JsString.truthy p) eqn:Ht; [|discriminate].
  destruct (update_number client _ p url method) eqn:Hup; [|discriminate].
  intros [= <- <-]. exists n, rest, p. rewrite <- app_assoc.
  repeat split; auto using truthy_nonempty.
Qed.

Lemma service_success url method h done h' :
  serviceStrategy client whatsappFrom url method h = (Some (Some done), h') ->
  exists n rest s,
    done = ServiceWebhookSet /\
    h' = (h ++ [ListIncomingNumbers (phone whatsappFrom) 1; UpdateService s url method;
                FetchService s])%list /\
    list_numbers client h (phone whatsappFrom) 1 = Some (n :: rest) /\
    messagingServiceSid n = Some s /\ s <> "" /\
    update_service client (h ++ [ListIncomingNumbers (phone whatsappFrom) 1])%list
      s url method = true /\
    fetch_service client
      (h ++ [ListIncomingNumbers (phone whatsappFrom) 1; UpdateService s url method])%list s
    <> None.
Proof.
  unfold serviceStrategy, setMessagingServiceWebhook, api_try, api_bind, send,
    findMessagingServiceSid, api_ret.
  destruct (list_numbers client h (phone whatsappFrom) 1) as [[|n rest]|] eqn:Hl;
    try discriminate.
  destruct (messagingServiceSid n) as [s|] eqn:Hs; [|discriminate].
  destruct (JsString.truthy s) eqn:Ht; [|discriminate].
  destruct (update_service client _ s url method) eqn:Hup; [|discriminate].
  rewrite <- app_assoc. cbn [app].
  destruct (fetch_service client _ s) as [stored|] eqn:Hf; [|discriminate].
  intros [= <- <-]. exists n, rest, s. rewrite <- !app_assoc. cbn [app].
  repeat split; auto using truthy_nonempty. congruence.
Qed.

(** X13: what stands behind the way [updateWebhook] ends.  When it
    reports the sender webhook set, the client has the sender helper,
    the last two requests were an acknowledged raw write and the fetch
    after it, and the URL reported is the non-empty one the fetch
    returned; when it reports the helper, the phone number or the
    messaging service, the write of the intended URL was acknowledged
    and nothing was sent after that strategy; and otherwise it ends in
    [runtime.exit(1)]. *)
Theorem updateWebhook_success_is_backed senderSid url method :
  let result := updateWebhook client whatsappFrom senderSid url method in
  backed client senderSid url method (fst result) (snd result).
Proof.
  intros result. subst result. unfold updateWebhook.
  destruct (firstSuccess_chain (strategies client whatsappFrom senderSid url method) [])
    as [(pre & strategy & post & done & h1 & Hl & _ & Hrun & ->) | [_ ->]];
    [|reflexivity].
  assert (Hin : In strategy (strategies client whatsappFrom senderSid url method)).
  { rewrite Hl. apply in_elt. }
  unfold strategies in Hin. cbn [In] in Hin.
  destruct Hin as [<-|[<-|[<-|[<-|[<-|[]]]]]].
  - apply rawRequest_success in Hrun
      as (stored & fetched & -> & Hne & Hc & -> & Hpost & Hf & Hu).
    cbn. repeat split; auto. exists h1, (PostSenderJson senderSid url method), fetched.
    repeat split; auto.
  - apply rawRequest_success in Hrun
      as (stored & fetched & -> & Hne & Hc & -> & Hpost & Hf & Hu).
    cbn. repeat split; auto. exists h1, (PostSenderForm senderSid url method), fetched.
    repeat split; auto.
  - apply helper_success in Hrun as (fetched & -> & Hc & -> & Hup & Hf).
    cbn. split; [exact Hc|]. exists h1, fetched. repeat split; auto.
  - apply phone_success in Hrun as (n & rest & p & -> & -> & Hlist & Hp & Hne & Hup).
    cbn. split; [reflexivity|]. exists h1, (phone whatsappFrom), n, rest, p.
    repeat split; auto.
  - apply service_success in Hrun
      as (n & rest & s & -> & -> & Hlist & Hs & Hne & Hup & Hf).
    cbn. exists h1, (phone whatsappFrom), n, rest, s. repeat split; auto.
Qed.

End FurtherWebhookFacts.

(** ** Message listing *)

Lemma uniqueLoop_spec messages : forall (seen : gset string) deduped,
  exists new,
    Listing.uniqueLoop seen deduped messages = (deduped ++ new)%list /\
    sublist new messages /\
    NoDup (map Listing.sid new) /\
    (forall m, In m new -> Listing.sid m ∉ seen) /\
    (forall m, In m messages -> Listing.sid m ∈ seen \/ In (Listing.sid m) (map Listing.sid new)) /\
    (forall m, In m new -> exists pre post,
        messages = (pre ++ m :: post)%list /\ ~ In (Listing.sid m) (map Listing.sid pre)).
Proof.
  induction messages as [|m rest IH]; intros seen deduped; cbn [Listing.uniqueLoop].
  - exists []. rewrite app_nil_r.
    split; [reflexivity|]. split; [apply sublist_nil|]. split; [apply NoDup_nil_2|].
    repeat split; intros ? [].
  - destruct (decide (Listing.sid m ∈ seen)) as [Hin|Hnew].
    + destruct (IH seen deduped) as (new & Hr & Hsub & Hnd & Hfresh & Hcov & Hfirst).
      exists new. repeat split; auto.
      * now apply sublist_cons.
      * intros x [<-|Hx]; [now left | now apply Hcov].
      * intros x Hx. destruct (Hfirst x Hx) as (pre & post & -> & Hpre).
        exists (m :: pre), post. split; [reflexivity|].
        cbn [map In]. intros [Heq|Hp]; [|contradiction].
        apply (Hfresh x Hx). now rewrite <- Heq.
    + destruct (IH ({[Listing.sid m]} ∪ seen) (deduped ++ [m])%list)
        as (new & Hr & Hsub & Hnd & Hfresh & Hcov & Hfirst).
      assert (Hm : ~ In (Listing.sid m) (map Listing.sid new)).
      { intros Hi. apply in_map_iff in Hi as (x & Hsx & Hx).
        apply (Hfresh x Hx). rewrite Hsx. apply elem_of_union. left.
        now apply elem_of_singleton. }
      exists (m :: new). rewrite Hr, <- app_assoc. repeat split; auto.
      * now apply sublist_skip.
      * cbn [map]. apply NoDup_cons. split; [|exact Hnd].
        intros Hi. apply Hm. now apply list_elem_of_In.
      * intros x [<-|Hx]; [exact Hnew|]. intros Hs. apply (Hfresh x Hx).
        apply elem_of_union. now right.
      * intros x [<-|Hx]; [right; now left|].
        destruct (Hcov x Hx) as [Hs|Hs]; [|right; now right].
        apply elem_of_union in Hs as [Hs|Hs]; [|now left].
        apply elem_of_singleton in Hs. right. left. now symmetry.
      * intros x [<-|Hx]; [exists [], rest; split; [reflexivity | intros []]|].
        destruct (Hfirst x Hx) as (pre & post & -> & Hpre).
        exists (m :: pre), post. split; [reflexivity|].
        cbn [map In]. intros [Heq|Hp]; [|contradiction].
        apply (Hfresh x Hx). rewrite <- Heq. apply elem_of_union. left.
        now apply elem_of_singleton.
Qed.

(** X14: [uniqueBySid] keeps, in their order, exactly the first
    message of every id: the result is a subsequence of the input with
    no id twice, every id of the input is in it, and each message kept
    has no message of the same id before it in the input. *)
Theorem uniqueBySid_keeps_first messages :
  let kept := Listing.uniqueBySid messages in
  sublist kept messages /\
  NoDup (map Listing.sid kept) /\
  (forall m, In m messages -> In (Listing.sid m) (map Listing.sid kept)) /\
  (forall m, In m kept -> exists pre post,
      messages = (pre ++ m :: post)%list /\ ~ In (Listing.sid m) (map Listing.sid pre)).
Proof.
  intros kept. subst kept. unfold Listing.uniqueBySid.
  destruct (uniqueLoop_spec messages ∅ []) as (new & -> & Hsub & Hnd & _ & Hcov & Hfirst).
  cbn [app]. repeat split; auto.
  intros m Hm. destruct (Hcov m Hm) as [Hs|Hs]; [|exact Hs].
  now apply not_elem_of_empty in Hs.
Qed.

Lemma insertByDateDesc_perm m l : Permutation (Listing.insertByDateDesc m l) (m :: l).
Proof.
  induction l as [|x l IH]; cbn [Listing.insertByDateDesc]; [reflexivity|].
  destruct (Listing.createdTime x <=? Listing.createdTime m); [reflexivity|].
  rewrite IH. apply perm_swap.
Qed.

Lemma sortByDateDesc_perm l : Permutation (Listing.sortByDateDesc l) l.
Proof.
  induction l as [|m l IH]; [reflexivity|].
  cbn [Listing.sortByDateDesc fold_right]. fold (Listing.sortByDateDesc l).
  rewrite insertByDateDesc_perm. now apply perm_skip.
Qed.

Lemma insertByDateDesc_sorted m l :
  Listing.newest_first l -> Listing.newest_first (Listing.insertByDateDesc m l).
Proof.
  unfold Listing.newest_first.
  induction 1 as [|x l Hs IH Hx]; cbn [Listing.insertByDateDesc].
  - repeat constructor.
  - destruct (Z.leb_spec (Listing.createdTime x) (Listing.createdTime m)) as [Hle|Hgt].
    + constructor; [now constructor|]. constructor; [exact Hle|].
      rewrite Forall_forall in Hx |- *. intros y Hy. specialize (Hx y Hy). lia.
    + constructor; [exact IH|].
      rewrite Forall_forall in Hx |- *. intros y Hy.
      apply list_elem_of_In in Hy.
      apply (Permutation_in _ (insertByDateDesc_perm m l)) in Hy as [<-|Hy]; [lia|].
      apply Hx. now apply list_elem_of_In.
Qed.

Lemma sortByDateDesc_sorted l : Listing.newest_first (Listing.sortByDateDesc l).
Proof.
  induction l as [|m l IH]; [constructor|].
  cbn [Listing.sortByDateDesc fold_right]. now apply insertByDateDesc_sorted.
Qed.

Lemma newest_first_app l1 l2 :
  Listing.newest_first (l1 ++ l2) ->
  Listing.newest_first l1 /\
  forall x y, In x l1 -> In y l2 -> Listing.createdTime y <= Listing.createdTime x.
Proof.
  unfold Listing.newest_first. induction l1 as [|a l1 IH]; cbn [app]; intros Hs.
  - split; [constructor | intros x y []].
  - apply StronglySorted_inv in Hs as [Hs Ha]. destruct (IH Hs) as [H1 H2].
    split.
    + constructor; [exact H1|]. apply Forall_app in Ha. tauto.
    + intros x y [<-|Hx] Hy; [|now apply H2].
      rewrite Forall_forall in Ha. apply Ha, list_elem_of_In, in_or_app. now right.
Qed.

(** X15: what [listRecentMessages] returns for a limit that is not
    negative, once both listings have answered: at most [limit]
    messages, no id twice, newest first, each one a message that
    [uniqueBySid] kept of the inbound listing followed by the outbound
    one; and a kept message that is left out is left out because the
    limit was reached, by messages that are none of them older. *)
Theorem listRecentMessages_newest messagesList fromAddr now lookbackMinutes limit
    inbound outbound :
  0 <= limit ->
  messagesList {| Listing.q_to := Some fromAddr; Listing.q_from := None;
                  Listing.q_dateSentAfter := now - lookbackMinutes * 60000;
                  Listing.q_limit := Z.min (Z.max (limit * 2) (limit + 10)) 100 |}
  = Some inbound ->
  messagesList {| Listing.q_to := None; Listing.q_from := Some fromAddr;
                  Listing.q_dateSentAfter := now - lookbackMinutes * 60000;
                  Listing.q_limit := Z.min (Z.max (limit * 2) (limit + 10)) 100 |}
  = Some outbound ->
  let kept := Listing.uniqueBySid (inbound ++ outbound)%list in
  exists shown,
    Listing.listRecentMessages messagesList fromAddr now lookbackMinutes limit = Some shown /\
    Z.of_nat (length shown) <= limit /\
    NoDup (map Listing.sid shown) /\
    Listing.newest_first shown /\
    (forall m, In m shown -> In m kept) /\
    (forall m, In m kept ->
       In m shown \/
       (Z.of_nat (length shown) = limit /\
        forall x, In x shown -> Listing.createdTime m <= Listing.createdTime x)).
Proof.
  intros Hlimit Hin Hout kept. unfold Listing.listRecentMessages, Listing.fetchLimit.
  rewrite Hin, Hout. fold kept. eexists. split; [reflexivity|].
  unfold Listing.slice0. destruct (Z.leb_spec 0 limit) as [_|]; [|lia].
  set (sorted := Listing.sortByDateDesc kept).
  set (n := Z.to_nat limit).
  pose proof (sortByDateDesc_perm kept) as Hperm. fold sorted in Hperm.
  pose proof (sortByDateDesc_sorted kept) as Hsorted. fold sorted in Hsorted.
  rewrite <- (firstn_skipn n sorted) in Hperm, Hsorted.
  apply newest_first_app in Hsorted as [Hfirst Hrest].
  repeat split.
  - pose proof (firstn_le_length n sorted). lia.
  - destruct (uniqueLoop_spec (inbound ++ outbound)%list ∅ []) as (new & Hk & _ & Hnd & _).
    fold (Listing.uniqueBySid (inbound ++ outbound)%list) in Hk. fold kept in Hk.
    cbn [app] in Hk. rewrite <- Hk in Hnd. apply NoDup_ListNoDup in Hnd.
    apply NoDup_ListNoDup.
    apply (Permutation_NoDup (Permutation_map Listing.sid (Permutation_sym Hperm))) in Hnd.
    rewrite map_app in Hnd. now apply NoDup_app_remove_r in Hnd.
  - exact Hfirst.
  - intros m Hm. apply (Permutation_in _ Hperm), in_or_app. now left.
  - intros m Hm. apply (Permutation_in _ (Permutation_sym Hperm)) in Hm.
    apply in_app_or in Hm as [Hm|Hm]; [now left|]. right. split.
    + destruct (Nat.le_gt_cases n (length sorted)) as [Hle|Hgt].
      * rewrite firstn_length_le by exact Hle. lia.
      * rewrite skipn_all2 in Hm by lia. destruct Hm.
    + intros x Hx. now apply Hrest.
Qed.

(** ** Environment *)

Ltac env_cases v :=
  let c := fresh "c" in let r := fresh "r" in
  destruct v as [[|c r]|].

(** X16: which environments [readEnv] accepts, and what it returns.
    It returns a configuration exactly when the account SID and the
    WhatsApp number are set and not empty, the API key and the API secret
    are both set or both unset (empty counts as unset), and the auth
    token or the key pair is set; key and secret take precedence over
    the token.  In every other case it exits with code 1 after
    ["Invalid environment configuration:"]: the branch that reports
    ["Missing Twilio auth configuration"] is never taken. *)
Theorem readEnv_accepts env :
  (forall cfg,
      Env.readEnv env = Env.Done cfg <->
      exists a f,
        Env.TWILIO_ACCOUNT_SID env = Some a /\ a <> "" /\
        Env.TWILIO_WHATSAPP_FROM env = Some f /\ f <> "" /\
        truthy_opt (Env.TWILIO_API_KEY env) = truthy_opt (Env.TWILIO_API_SECRET env) /\
        truthy_opt (Env.TWILIO_AUTH_TOKEN env) || truthy_opt (Env.TWILIO_API_KEY env) = true /\
        cfg = {| Env.accountSid := a; Env.whatsappFrom := f;
                 Env.whatsappSenderSid := Env.TWILIO_SENDER_SID env;
                 Env.auth :=
                   if truthy_opt (Env.TWILIO_API_KEY env)
                   then Env.ApiKeyAuth a (default "" (Env.TWILIO_API_KEY env))
                                         (default "" (Env.TWILIO_API_SECRET env))
                   else Env.TokenAuth a (default "" (Env.TWILIO_AUTH_TOKEN env)) |}) /\
  (forall exit_code said,
      Env.readEnv env = Env.Exit exit_code said ->
      exit_code = 1 /\ said = "Invalid environment configuration:").
Proof.
  destruct env as [account number sender token key secret].
  env_cases account; env_cases number; env_cases token; env_cases key; env_cases secret;
    (split;
     [ intros cfg; split;
       [ intros Hr; cbn in Hr; try discriminate Hr; injection Hr as <-;
         eexists _, _; cbn; repeat split; discriminate
       | intros (a & f & Ha & Hna & Hf & Hnf & Hks & Hauth & ->); cbn in *;
         try discriminate; try congruence;
         injection Ha as <-; injection Hf as <-; reflexivity ]
     | intros exit_code said Hr; cbn in Hr; try discriminate Hr;
       injection Hr as <- <-; split; reflexivity ]).
Qed.

(** X17: [ensureTwilioEnv] asks for less than [readEnv].  Every
    environment [readEnv] accepts passes it; an environment that passes
    it is accepted by [readEnv] exactly when the API key and the API
    secret are both set or both unset, so a stray key or secret beside a
    good auth token passes the first check and fails the second. *)
Theorem ensureTwilioEnv_weaker_than_readEnv env :
  (forall cfg, Env.readEnv env = Env.Done cfg -> Env.ensureTwilioEnv env = Env.Done tt) /\
  (Env.ensureTwilioEnv env = Env.Done tt ->
   ((exists cfg, Env.readEnv env = Env.Done cfg) <->
    truthy_opt (Env.TWILIO_API_KEY env) = truthy_opt (Env.TWILIO_API_SECRET env))) /\
  (forall exit_code said, Env.ensureTwilioEnv env = Env.Exit exit_code said -> exit_code = 1).
Proof.
  destruct env as [account number sender token key secret].
  env_cases account; env_cases number; env_cases token; env_cases key; env_cases secret;
    (split; [|split];
     [ intros cfg Hr; cbn in Hr; try discriminate Hr; reflexivity
     | intros He; cbn in He;
       first [ discriminate He
             | cbn; split;
               [ intros [cfg Hr]; try discriminate Hr; reflexivity
               | intros Hks; try discriminate Hks; eexists; reflexivity ] ]
     | intros exit_code said He; cbn in He; try discriminate He;
       now injection He as <- _ ]).
Qed.

(** ** Delivery status *)

Lemma has_success s :
  Delivery.has Delivery.successTerminalStatuses s = true -> s = "delivered" \/ s = "read".
Proof.
  unfold Delivery.has, Delivery.successTerminalStatuses. cbn [existsb].
  rewrite !orb_true_iff, !String.eqb_eq. intuition discriminate.
Qed.

Lemma has_failure s :
  Delivery.has Delivery.failureTerminalStatuses s = true ->
  s = "failed" \/ s = "undelivered" \/ s = "canceled".
Proof.
  unfold Delivery.has, Delivery.failureTerminalStatuses. cbn [existsb].
  rewrite !orb_true_iff, !String.eqb_eq. intuition discriminate.
Qed.

Lemma quiet_nil env deadline i : quiet env deadline i i.
Proof. intros k Hk. lia. Qed.

Lemma quiet_step env deadline i j m :
  (i <= j)%nat -> quiet env deadline i j ->
  Delivery.now_at env (S j) < deadline ->
  Delivery.fetch_at env j = Some m -> Delivery.inFlight m = true ->
  quiet env deadline i (S j).
Proof.
  intros Hij Hq Hnow Hf Hm k Hk. destruct (Nat.eq_dec k j) as [->|Hne].
  - split; [exact Hnow|]. now exists m.
  - apply Hq. lia.
Qed.

Lemma waitLoop_explained env deadline turns : forall i0 i outcome n,
  (i0 <= i)%nat -> quiet env deadline i0 i ->
  Delivery.waitLoop env deadline turns i = (outcome, n) ->
  explained env deadline (i - i0 + turns) i0 outcome n.
Proof.
  induction turns as [|k IH]; intros i0 i outcome n Hi Hq; cbn [Delivery.waitLoop].
  - intros [= <- <-]. cbn. split; [exact Hq | lia].
  - destruct (Z.ltb_spec (Delivery.now_at env (S i)) deadline) as [Hnow|Hnow].
    + destruct (Delivery.fetch_at env i) as [m|] eqn:Hf.
      * destruct (Delivery.has Delivery.successTerminalStatuses _) eqn:Hs.
        { intros [= <- <-]. cbn. exists i, m.
          split; [reflexivity|]. split; [exact Hq|]. split; [exact Hnow|].
          split; [exact Hf|]. split; [reflexivity|]. now apply has_success. }
        destruct (Delivery.has Delivery.failureTerminalStatuses _) eqn:Hfl.
        { intros [= <- <-]. cbn. exists i, m.
          split; [reflexivity|]. split; [exact Hq|]. split; [exact Hnow|].
          split; [exact Hf|]. split; [reflexivity|]. now apply has_failure. }
        intros Hrun.
        assert (Hm : Delivery.inFlight m = true).
        { unfold Delivery.inFlight. now rewrite Hs, Hfl. }
        pose proof (quiet_step env deadline i0 i m Hi Hq Hnow Hf Hm) as Hq'.
        pose proof (IH i0 (S i) outcome n ltac:(lia) Hq' Hrun) as He.
        replace (i - i0 + S k)%nat with (S i - i0 + k)%nat by lia. exact He.
      * intros [= <- <-]. cbn. exists i.
        split; [reflexivity|]. split; [exact Hq|]. now split.
    + intros [= <- <-]. cbn. split; [exact Hq | lia].
Qed.

(** X18: how [waitForFinalStatus] ends.  Every fetch is made after a
    reading of the clock before the deadline [now + timeoutSeconds *
    1000], and every fetch but the last found the message in flight; it
    reports delivery only for a last status [delivered] or [read], exits
    only for [failed], [undelivered] or [canceled], and gives up only on
    a reading of the clock at or past the deadline, without a fetch
    after that reading. *)
Theorem waitForFinalStatus_explained env timeoutSeconds turns outcome n :
  Delivery.waitForFinalStatus env timeoutSeconds turns = (outcome, n) ->
  explained env (Delivery.now_at env 0 + timeoutSeconds * 1000) turns 0 outcome n.
Proof.
  intros Hrun. unfold Delivery.waitForFinalStatus in Hrun.
  apply (waitLoop_explained env _ turns 0 0 outcome n (le_n 0) (quiet_nil env _ 0)) in Hrun.
  exact Hrun.
Qed.

Lemma waitLoop_ends env deadline k : forall turns i,
  (i <= k)%nat -> (k < i + turns)%nat ->
  deadline <= Delivery.now_at env (S k) ->
  fst (Delivery.waitLoop env deadline turns i) <> Delivery.Polling /\
  (snd (Delivery.waitLoop env deadline turns i) <= k)%nat.
Proof.
  induction turns as [|t IH]; intros i Hik Hk Hd; [lia|].
  cbn [Delivery.waitLoop].
  destruct (Z.ltb_spec (Delivery.now_at env (S i)) deadline) as [Hnow|Hnow].
  - assert (Hlt : (i < k)%nat).
    { destruct (Nat.eq_dec i k) as [->|]; [lia|lia]. }
    destruct (Delivery.fetch_at env i) as [m|]; [|cbn; split; [discriminate|lia]].
    destruct (Delivery.has Delivery.successTerminalStatuses _);
      [cbn; split; [discriminate|lia]|].
    destruct (Delivery.has Delivery.failureTerminalStatuses _);
      [cbn; split; [discriminate|lia]|].
    apply IH; lia.
  - cbn. split; [discriminate|lia].
Qed.

(** X19: [waitForFinalStatus] ends once the clock reaches the deadline.
    If the reading of [Date.now()] that follows the [k]-th fetch is at
    or past the deadline, the loop is left within [k + 1] turns and no
    more than [k] fetches are made; when the first reading after the
    start is already at or past the deadline, as with a timeout that is
    not positive on a clock that does not run backwards, no fetch is
    made at all and the wait times out. *)
Theorem waitForFinalStatus_ends env timeoutSeconds turns k :
  Delivery.now_at env 0 + timeoutSeconds * 1000 <= Delivery.now_at env (S k) ->
  (k < turns)%nat ->
  fst (Delivery.waitForFinalStatus env timeoutSeconds turns) <> Delivery.Polling /\
  (snd (Delivery.waitForFinalStatus env timeoutSeconds turns) <= k)%nat /\
  (k = 0%nat ->
   Delivery.waitForFinalStatus env timeoutSeconds turns = (Delivery.TimedOut, 0%nat)).
Proof.
  intros Hd Hk. unfold Delivery.waitForFinalStatus.
  destruct (waitLoop_ends env _ k turns 0 ltac:(lia) ltac:(lia) Hd) as [Hne Hle].
  split; [exact Hne|]. split; [exact Hle|].
  intros ->. destruct turns as [|t]; [lia|]. cbn [Delivery.waitLoop].
  destruct (Z.ltb_spec (Delivery.now_at env 1) (Delivery.now_at env 0 + timeoutSeconds * 1000));
    [lia | reflexivity].
Qed.

(** ** Sender discovery *)

Lemma find_first {A} (f : A -> bool) l x :
  find f l = Some x <->
  exists pre post, l = (pre ++ x :: post)%list /\
                   forallb (fun y => negb (f y)) pre = true /\ f x = true.
Proof.
  induction l as [|y l IH]; cbn [find].
  - split; [discriminate|]. intros (pre & post & Hl & _). now destruct pre.
  - destruct (f y) eqn:Hy.
    + split.
      * intros [= ->]. exists [], l. now repeat split.
      * intros ([|z pre] & post & Hl & Hpre & Hx).
        -- now injection Hl as -> _.
        -- injection Hl as -> _. cbn in Hpre. now rewrite Hy in Hpre.
    + rewrite IH. split.
      * intros (pre & post & -> & Hpre & Hx). exists (y :: pre), post.
        repeat split; auto. cbn. now rewrite Hy.
      * intros ([|z pre] & post & Hl & Hpre & Hx).
        -- injection Hl as -> _. congruence.
        -- injection Hl as -> ->. exists pre, post. repeat split; auto.
           cbn in Hpre. now apply andb_true_iff in Hpre.
Qed.

Lemma senders_listed listed target found :
  fst (Senders.findWhatsappSenderSid listed target None) = inl found <->
  exists pre s post,
    listed = Some (Some (pre ++ s :: post)%list) /\
    forallb (fun y => negb (Senders.isSender target y)) pre = true /\
    Senders.isSender target s = true /\ Senders.sid s = Some found.
Proof.
  unfold Senders.findWhatsappSenderSid. cbn [fst]. split.
  - destruct listed as [[senders|]|]; try discriminate.
    destruct (find _ senders) as [s|] eqn:Hfind; try discriminate.
    destruct (Senders.sid s) as [x|] eqn:Hsid; try discriminate.
    intros [= <-]. apply find_first in Hfind as (pre & post & -> & Hpre & Hs).
    exists pre, s, post. now repeat split.
  - intros (pre & s & post & -> & Hpre & Hs & Hsid).
    assert (Hfind : find (Senders.isSender target) (pre ++ s :: post) = Some s)
      by (apply find_first; eauto).
    now rewrite Hfind, Hsid.
Qed.

Lemma senders_exit listed target explicitSenderSid exit_code :
  fst (Senders.findWhatsappSenderSid listed target explicitSenderSid) = inr exit_code ->
  exit_code = 1.
Proof.
  unfold Senders.findWhatsappSenderSid.
  destruct explicitSenderSid as [[|c e]|]; cbn [fst]; try discriminate;
    (destruct listed as [[senders|]|];
     [destruct (find _ senders) as [s|]; [destruct (Senders.sid s)|]| |]);
    try discriminate; now intros [= <-].
Qed.

(** X20: which sender [findWhatsappSenderSid] returns.  A non-empty
    [TWILIO_SENDER_SID] is returned as it is, without a request.
    Otherwise the senders are listed once, and a SID is returned exactly
    when the listing answered and the first sender in it whose
    [senderId] or [sender_id] is the wanted address has a SID, which is
    the one returned: a first match without a SID is not passed over for
    a later one.  In every other case the function ends in
    [runtime.exit(1)]. *)
Theorem findWhatsappSenderSid_first_match listed target explicitSenderSid :
  let result := Senders.findWhatsappSenderSid listed target explicitSenderSid in
  (truthy_opt explicitSenderSid = true ->
   result = (inl (default "" explicitSenderSid), [])) /\
  (truthy_opt explicitSenderSid = false ->
   snd result = [Senders.ListSenders "whatsapp" 50] /\
   forall found,
     fst result = inl found <->
     exists pre s post,
       listed = Some (Some (pre ++ s :: post)%list) /\
       forallb (fun y => negb (Senders.isSender target y)) pre = true /\
       Senders.isSender target s = true /\ Senders.sid s = Some found) /\
  (forall exit_code, fst result = inr exit_code -> exit_code = 1).
Proof.
  intros result. subst result. split; [|split].
  - destruct explicitSenderSid as [[|c e]|]; try discriminate. reflexivity.
  - intros Hno. split.
    + destruct explicitSenderSid as [[|c e]|]; try discriminate; reflexivity.
    + intros found.
      assert (Hsame : Senders.findWhatsappSenderSid listed target explicitSenderSid =
                      Senders.findWhatsappSenderSid listed target None).
      { destruct explicitSenderSid as [[|c e]|]; try discriminate; reflexivity. }
      rewrite Hsame. apply senders_listed.
  - intros exit_code. apply senders_exit.
Qed.

(** ** Auto-reply *)

Section AutoReplyFacts.
Context `{Helpers}.

Lemma no_attempt_none ctx opts cfg runner w t :
  attemptsReply cfg ctx = false ->
  fst (getReplyFromConfig ctx opts cfg runner w) <> Returned (Some t).
Proof.
  unfold attemptsReply, getReplyFromConfig, bind. intros Hno.
  destruct (resolveSession _ ctx w) as [[s| |] w1]; try discriminate.
  unfold respond.
  destruct (senderAllowed cfg ctx); cbn [negb andb] in *; [|discriminate].
  destruct (inbound cfg ≫= reply) as [r|]; [|discriminate].
  destruct (mode r), (text r) as [[|c t']|], (command r) as [[|a cs]|];
    try discriminate.
Qed.

(** X21: what [autoReplyIfConfigured] sends.  When it asks Twilio to
    create a message, the message goes from the address the inbound
    message was sent to, to the address it came from, neither of them
    empty, and its body is the reply the resolver returned for the
    inbound message, which is not empty.  Nothing is sent when the
    resolver is not going to make a reply, when the reply is the empty
    string, or when the inbound message lacks its sender or its
    addressee. *)
Theorem autoReplyIfConfigured_answers_sender typing message cfg w :
  let opts := Some {| onReplyStart := Some typing |} in
  let resolved := getReplyFromConfig (contextOf message) opts cfg runCommandWithTimeout w in
  let sent := autoReplyIfConfigured typing message cfg w in
  (forall req w',
      sent = (Returned (Some req), w') ->
      to message = Some (create_from req) /\ from message = Some (create_to req) /\
      create_from req <> "" /\ create_to req <> "" /\ create_body req <> "" /\
      resolved = (Returned (Some (create_body req)), w')) /\
  (attemptsReply cfg (contextOf message) = false \/
   fst resolved = Returned (Some "") \/
   truthy_opt (from message) = false \/ truthy_opt (to message) = false ->
   forall req, fst sent <> Returned (Some req)).
Proof.
  intros opts resolved sent. subst sent. unfold autoReplyIfConfigured, bind.
  fold opts. fold resolved. split.
  - intros req w'. destruct resolved as [[[[|c t]|]| |] w1]; try discriminate.
    destruct (to message) as [[|f f']|], (from message) as [[|t0 t0']|];
      try discriminate.
    intros [= <- <-]. cbn. repeat split; discriminate.
  - intros Hno req.
    pose proof (no_attempt_none (contextOf message) opts cfg runCommandWithTimeout w) as Hnone.
    fold resolved in Hnone.
    destruct resolved as [[[[|c t]|]| |] w1]; try discriminate.
    destruct Hno as [Hno|[Hno|[Hno|Hno]]].
    + now specialize (Hnone (String c t) Hno).
    + discriminate Hno.
    + destruct (to message) as [[|f f']|], (from message) as [[|t0 t0']|];
        try discriminate.
    + destruct (to message) as [[|f f']|], (from message) as [[|t0 t0']|];
        try discriminate.
Qed.

End AutoReplyFacts.

(** * Further worked instances *)

Section FurtherInstances.
Local Existing Instance Sample.helpers.

Lemma command_reply_is_trimmed_witness :
  let ctx := Sample.message "+1555" "hi" in
  let cfg := Sample.config None (Some (Sample.command_reply ["tool"] None None)) in
  let runner := Sample.runner_returning Fixture.padded_result in
  let w := Sample.world ∅ 5000 in
  fst (getReplyFromConfig ctx None cfg runner w) = Returned (Some "ok") /\
  JsString.trim "ok" = "ok".
Proof.
  intros ctx cfg runner w.
  assert (Hrun : fst (getReplyFromConfig ctx None cfg runner w) = Returned (Some "ok"))
    by (vm_compute; reflexivity).
  split; [exact Hrun|].
  exact (proj1 (proj2 (command_reply_is_trimmed ctx None cfg runner w
                         (Sample.command_reply ["tool"] None None) "ok"
                         eq_refl eq_refl Hrun))).
Defined.

Lemma sessionStep_frame_witness :
  let sc := Sample.sessions None None in
  let ctx := Sample.message "+1555" "hello" in
  let w := Sample.world (Sample.one_session "+1999" "abc" 1000) 5000 in
  writable w (resolveStorePath (store sc)) = true /\
  exists sid isNew stripped w',
    sessionStep (Some sc) ctx w = (Returned (sid, isNew, stripped), w') /\
    stored w' (resolveStorePath (store sc)) !! "+1999" =
    stored w (resolveStorePath (store sc)) !! "+1999".
Proof.
  intros sc ctx w. split; [reflexivity|].
  destruct (sessionStep_frame sc ctx w eq_refl)
    as (sid & isNew & stripped & w' & saved & Hrun & _ & _ & _ & _ & Hothers & _).
  exists sid, isNew, stripped, w'. split; [exact Hrun|].
  apply Hothers. vm_compute. discriminate.
Defined.

Lemma sessionStep_recovers_store_witness :
  let sc := Sample.sessions None None in
  let ctx := Sample.message "+1555" "hello" in
  let w := Sample.world ∅ 5000 in
  files w !! resolveStorePath (store sc) = None /\
  exists stripped w',
    sessionStep (Some sc) ctx w = (Returned ("uuid-0", true, stripped), w').
Proof.
  intros sc ctx w. split; [reflexivity|].
  destruct (sessionStep_recovers_store sc ctx w eq_refl (or_introl eq_refl))
    as (stripped & w' & saved & Hrun & _).
  exists stripped, w'. exact Hrun.
Defined.

Lemma session_continues_witness :
  let sc := Sample.sessions None None in
  let ctx1 := Sample.message "+1555" "hello" in
  let ctx2 := Sample.message "+1555" "again" in
  let w := Sample.world ∅ 5000 in
  let w1 := snd (sessionStep (Some sc) ctx1 w) in
  fst (sessionStep (Some sc) ctx1 w) = Returned ("uuid-0", true, None) /\
  exists stripped2 w2,
    sessionStep (Some sc) ctx2 w1 = (Returned ("uuid-0", false, stripped2), w2).
Proof.
  intros sc ctx1 ctx2 w w1. split; [vm_compute; reflexivity|].
  apply (session_continues sc ctx1 ctx2 w "uuid-0" true None w1).
  - vm_compute. reflexivity.
  - reflexivity.
  - vm_compute. reflexivity.
  - vm_compute. discriminate.
Defined.

Lemma no_attempt_no_callback_witness :
  let ctx := Sample.message "+1999" "hi" in
  let cfg := Sample.config (Some ["+1555"]) (Some (Sample.text_reply "echo {{Body}}" None)) in
  let w := Sample.world ∅ 5000 in
  attemptsReply cfg ctx = false /\
  forall t, fst (getReplyFromConfig ctx None cfg runCommandWithTimeout w) <> Returned (Some t).
Proof.
  intros ctx cfg w. split; [reflexivity|].
  exact (proj2 (no_attempt_no_callback ctx None None cfg runCommandWithTimeout
                  runCommandWithTimeout w eq_refl)).
Defined.

Lemma text_reply_rendered_witness :
  let ctx := Sample.message "+1555" "hi" in
  let r := Sample.text_reply "echo {{Body}}" None in
  let cfg := Sample.config None (Some r) in
  let w := Sample.world ∅ 5000 in
  senderAllowed cfg ctx = true /\
  exists w',
    getReplyFromConfig ctx None cfg runCommandWithTimeout w =
    (Returned (Some (applyTemplate "echo {{Body}}" (templatingCtx (Some r) ctx None false None))),
     w').
Proof.
  intros ctx r cfg w. split; [reflexivity|].
  destruct (text_reply_rendered ctx None cfg runCommandWithTimeout w r "e" "cho {{Body}}"
              eq_refl eq_refl eq_refl eq_refl I (fun w0 => ex_intro _ _ eq_refl))
    as (sessionId & isNew & stripped & w' & Hrun & Hnone & _).
  destruct (Hnone eq_refl) as (-> & -> & ->).
  exists w'. exact Hrun.
Defined.

Lemma buildArgv_shape_witness :
  let ctx := Sample.message "+1555" "hi" in
  let sc := Sample.sessions None None in
  let r := {| mode := ModeCommand; text := None; command := Some ["tool"];
              template := Some "T"; timeoutSeconds := None; bodyPrefix := None;
              session := Some sc |} in
  let tctx := templatingCtx (Some r) ctx (Some "uuid-0") true None in
  sessionArgBeforeBody sc <> Some false /\
  buildArgv r tctx true ["tool"] = ["tool"; "--session-id"; "uuid-0"; "T"].
Proof.
  intros ctx sc r tctx. split; [discriminate|].
  assert (Hprefix : JsString.truthy (applyTemplate "T" tctx) = true)
    by (vm_compute; reflexivity).
  rewrite (proj2 (proj2 (proj2 (proj2 (proj2 (buildArgv_shape r tctx true "tool" [])))))
             Hprefix eq_refl sc eq_refl ltac:(discriminate)).
  vm_compute. reflexivity.
Defined.

Lemma autoReplyIfConfigured_answers_sender_witness :
  let message := Sample.inbound_message "SM1" 10 in
  let cfg := Sample.config None (Some (Sample.text_reply "echo {{Body}}" None)) in
  let w := Sample.world ∅ 5000 in
  let req := {| create_from := "whatsapp:+1000"; create_to := "whatsapp:+1555";
                create_body := "echo hi" |} in
  fst (autoReplyIfConfigured (ret tt) message cfg w) = Returned (Some req) /\
  from message = Some (create_to req).
Proof.
  intros message cfg w req.
  assert (Hrun : autoReplyIfConfigured (ret tt) message cfg w =
                 (Returned (Some req), snd (autoReplyIfConfigured (ret tt) message cfg w)))
    by (vm_compute; reflexivity).
  split; [now rewrite Hrun|].
  exact (proj1 (proj2 (proj1 (autoReplyIfConfigured_answers_sender (ret tt) message cfg w)
                         req _ Hrun))).
Defined.

End FurtherInstances.

Lemma runCommandWithTimeout_outcome_witness :
  let w := Sample.world_with_child Sample.killed_after_output in
  let pre := [StdoutData "partial"; TimerFired true] in
  forallb (fun ev => negb (settles ev)) pre = true /\
  runCommandWithTimeout ["slow"] 1000 w =
  (Returned {| stdout := "partial"; stderr := ""; code := None;
               signal := Some "SIGKILL"; killed := true |}, w).
Proof.
  intros w pre. split; [reflexivity|].
  exact (proj1 (runCommandWithTimeout_outcome w ["slow"] 1000 pre eq_refl)
           None (Some "SIGKILL") [] eq_refl).
Defined.

Lemma pollBatch_dispatches_new_inbound_witness :
  let m := Sample.inbound_message "SM2" 20 in
  let st := {| since := 0; seen := {["SM1"]}; dispatched := [] |} in
  (sid m ∉ seen st) /\
  exists batch,
    dispatched (pollBatch [m; Sample.inbound_message "SM1" 10] st) = [batch] /\
    In "SM2" (map sid batch).
Proof.
  intros m st.
  assert (Hnew : "SM2" ∉ ({["SM1"]} : gset string)).
  { intros Hin. apply elem_of_singleton in Hin. discriminate Hin. }
  split; [exact Hnew|].
  destruct (pollBatch_dispatches_new_inbound [m; Sample.inbound_message "SM1" 10] st)
    as (batch & Hd & _ & Hall & _).
  exists batch. split; [exact Hd|].
  exact (Hall m (or_introl eq_refl) eq_refl Hnew).
Defined.

Lemma since_is_a_watermark_witness :
  1000000 - 10 * 60000 <= since (monitorTwilio Sample.two_message_env 10 1000000 1).
Proof. exact (proj2 since_is_a_watermark Sample.two_message_env 10 1000000 1%nat). Defined.

Lemma updateWebhook_requests_witness :
  let url := "https://new.example/webhook/whatsapp" in
  channelsSenders Fixture.client_without_helper = false /\
  forallb (fun c => negb (usesSenderHelper c))
    (snd (updateWebhook Fixture.client_without_helper "whatsapp:+1000" "XE1" url POST)) = true.
Proof.
  intros url. split; [reflexivity|].
  exact (proj2 (proj2 (proj2 (updateWebhook_requests Fixture.client_without_helper
                                "whatsapp:+1000" "XE1" url POST))) eq_refl).
Defined.

Lemma uniqueBySid_keeps_first_witness :
  let again := Fixture.listed "SM1" 99 "outbound-api" in
  let messages := [Fixture.listed "SM1" 10 "inbound"; Fixture.listed "SM2" 20 "inbound"; again] in
  In again messages /\
  In "SM1" (map Listing.sid (Listing.uniqueBySid messages)) /\
  ~ In again (Listing.uniqueBySid messages).
Proof.
  intros again messages.
  assert (Hin : In again messages) by (right; right; left; reflexivity).
  split; [exact Hin|]. split.
  - exact (proj1 (proj2 (proj2 (uniqueBySid_keeps_first messages))) again Hin).
  - intros Hkept.
    destruct (proj2 (proj2 (proj2 (uniqueBySid_keeps_first messages))) again Hkept)
      as (pre & post & Hl & Hpre).
    unfold messages in Hl. destruct pre as [|a [|b [|c pre]]]; cbn [app] in Hl.
    + assert (Hb : Fixture.listed "SM1" 10 "inbound" = again) by congruence.
      vm_compute in Hb. discriminate Hb.
    + assert (Hb : Fixture.listed "SM2" 20 "inbound" = again) by congruence.
      vm_compute in Hb. discriminate Hb.
    + assert (Ha : Fixture.listed "SM1" 10 "inbound" = a) by congruence.
      apply Hpre. left. rewrite <- Ha. reflexivity.
    + assert (Hrest : [] = (pre ++ again :: post)%list) by congruence.
      destruct pre; discriminate Hrest.
Defined.

Lemma listRecentMessages_newest_witness :
  0 <= 2 /\
  exists shown,
    Listing.listRecentMessages Fixture.listings "whatsapp:+1000" 1000000 10 2 = Some shown /\
    Z.of_nat (length shown) <= 2 /\
    Listing.newest_first shown.
Proof.
  split; [lia|].
  destruct (listRecentMessages_newest Fixture.listings "whatsapp:+1000" 1000000 10 2
              _ _ ltac:(lia) eq_refl eq_refl)
    as (shown & Hrun & Hlen & _ & Hsorted & _).
  exists shown. now repeat split.
Defined.

Lemma readEnv_accepts_witness :
  Env.readEnv (Fixture.token_env None) =
  Env.Done {| Env.accountSid := "AC1"; Env.whatsappFrom := "whatsapp:+1000";
              Env.whatsappSenderSid := None; Env.auth := Env.TokenAuth "AC1" "token" |}.
Proof.
  apply (proj1 (readEnv_accepts (Fixture.token_env None))).
  exists "AC1", "whatsapp:+1000". repeat split; discriminate.
Defined.

Lemma ensureTwilioEnv_weaker_than_readEnv_witness :
  let env := Fixture.token_env (Some "SK1") in
  Env.ensureTwilioEnv env = Env.Done tt /\
  ~ exists cfg, Env.readEnv env = Env.Done cfg.
Proof.
  intros env. split; [reflexivity|]. intros Hok.
  apply (proj1 (proj2 (ensureTwilioEnv_weaker_than_readEnv env)) eq_refl) in Hok.
  discriminate Hok.
Defined.

Lemma waitForFinalStatus_explained_witness :
  Delivery.waitForFinalStatus Fixture.delivered_second 10 5 =
    (Delivery.Delivered "delivered", 2%nat) /\
  Delivery.now_at Fixture.delivered_second 2 <
  Delivery.now_at Fixture.delivered_second 0 + 10 * 1000.
Proof.
  assert (Hrun : Delivery.waitForFinalStatus Fixture.delivered_second 10 5 =
                 (Delivery.Delivered "delivered", 2%nat)) by reflexivity.
  split; [exact Hrun|].
  destruct (waitForFinalStatus_explained Fixture.delivered_second 10 5 _ _ Hrun)
    as (j & m & _ & _ & Hnow & _).
  exact Hnow.
Defined.

Lemma waitForFinalStatus_ends_witness :
  Delivery.now_at Fixture.delivered_second 0 + 0 * 1000 <=
  Delivery.now_at Fixture.delivered_second 1 /\
  Delivery.waitForFinalStatus Fixture.delivered_second 0 5 = (Delivery.TimedOut, 0%nat).
Proof.
  assert (Hclock : Delivery.now_at Fixture.delivered_second 0 + 0 * 1000 <=
                   Delivery.now_at Fixture.delivered_second 1) by (cbn; lia).
  split; [exact Hclock|].
  exact (proj2 (proj2 (waitForFinalStatus_ends Fixture.delivered_second 0 5 0
                         Hclock ltac:(lia))) eq_refl).
Defined.

Lemma findWhatsappSenderSid_first_match_witness :
  truthy_opt (Some "XE9") = true /\
  Senders.findWhatsappSenderSid None "whatsapp:+1000" (Some "XE9") = (inl "XE9", []).
Proof.
  split; [reflexivity|].
  exact (proj1 (findWhatsappSenderSid_first_match None "whatsapp:+1000" (Some "XE9")) eq_refl).
Defined.

